(** * The 27-shot storyboard tool: crop/viewport model and shot sequence controller

    A shallow embedding of [constants.ts], [types.ts],
    [components/StoryboardCard.tsx], [App.tsx] and the local code of
    [services/geminiService.ts].

    Conventions of the embedding.
    - A JavaScript number is a [num]: a rational, or one of the three
      special values [+Infinity], [-Infinity], [NaN]. Every binary64 number
      is a rational; [round64] takes a rational to the binary64 number next
      to it (ties to even, overflow to infinity, gradual underflow), and
      the arithmetic of [handleMouseMove], the literal [0.01] and the
      result of [parseFloat] are rounded with it, as the operations of
      JavaScript are. Zero carries no sign (a zero divisor is [+0]). The
      four crop constants are computed without rounding.
    - A JavaScript string is a [string] of bytes (UTF-8). The operations used
      by the code ([split(' ')], [endsWith('%')], comparison with ASCII
      literals) act on bytes below 128 and are insensitive to the encoding.
    - [obj[key]] on an object literal finds the own properties and the
      members inherited from [Object.prototype].
    - A React state cell is a field of [AppState]. An event handler reads
      the cells of the state it was rendered with and queues updates; an
      [await] on a remote call parks a [task] until the call is answered,
      and the task keeps the state its handler was rendered with.
    - The records of the sequence are values. The write in place of
      [handleFrameChange] is a replacement in the state array; an array
      captured earlier by a suspended handler keeps the record it had,
      where in the program it shares the written one. *)

From Stdlib Require Import QArith Qpower Qround Qminmax Lqa ZArith Lia.
From Stdlib Require Import Ascii String Decimal DecimalString.
From Stdlib Require Import DecimalFacts DecimalPos DecimalZ.
From Stdlib Require DecimalNat Qcanon SpecFloat.
From stdpp Require Import gmap strings list.

Local Open Scope string_scope.

(** ** JavaScript values used by the program *)

Module JS.

Inductive num : Type :=
| Fin (q : Q)
| PInf
| NInf
| NaN.

Definition of_Z (z : Z) : num := Fin (inject_Z z).

Definition nneg (a : num) : num :=
  match a with
  | Fin q => Fin (- q)%Q
  | PInf => NInf
  | NInf => PInf
  | NaN => NaN
  end.

Definition nadd (a b : num) : num :=
  match a, b with
  | NaN, _ | _, NaN => NaN
  | Fin x, Fin y => Fin (x + y)%Q
  | PInf, NInf | NInf, PInf => NaN
  | PInf, _ | _, PInf => PInf
  | NInf, _ | _, NInf => NInf
  end.

(** [a - b]; on rationals this is [Qminus], which unfolds to [x + - y]. *)
Definition nsub (a b : num) : num := nadd a (nneg b).

Definition inf_times (positive : bool) (q : Q) : num :=
  match (q ?= 0)%Q with
  | Eq => NaN
  | Gt => if positive then PInf else NInf
  | Lt => if positive then NInf else PInf
  end.

Definition nmul (a b : num) : num :=
  match a, b with
  | NaN, _ | _, NaN => NaN
  | Fin x, Fin y => Fin (x * y)%Q
  | Fin x, PInf | PInf, Fin x => inf_times true x
  | Fin x, NInf | NInf, Fin x => inf_times false x
  | PInf, PInf | NInf, NInf => PInf
  | PInf, NInf | NInf, PInf => NInf
  end.

Definition ndiv (a b : num) : num :=
  match a, b with
  | NaN, _ | _, NaN => NaN
  | Fin x, Fin y =>
      match (y ?= 0)%Q with
      | Eq => match (x ?= 0)%Q with
              | Eq => NaN
              | Gt => PInf
              | Lt => NInf
              end
      | _ => Fin (x / y)%Q
      end
  | Fin _, (PInf | NInf) => Fin 0
  | PInf, Fin y => if Qle_bool 0 y then PInf else NInf
  | NInf, Fin y => if Qle_bool 0 y then NInf else PInf
  | (PInf | NInf), (PInf | NInf) => NaN
  end.

(** [a <= b]: false as soon as one side is [NaN]. *)
Definition nle (a b : num) : bool :=
  match a, b with
  | NaN, _ | _, NaN => false
  | Fin x, Fin y => Qle_bool x y
  | NInf, _ | _, PInf => true
  | _, _ => false
  end.

(** [Math.min] and [Math.max]: [NaN] is contagious. *)
Definition math_min (a b : num) : num :=
  match a, b with
  | NaN, _ | _, NaN => NaN
  | _, _ => if nle a b then a else b
  end.

Definition math_max (a b : num) : num :=
  match a, b with
  | NaN, _ | _, NaN => NaN
  | _, _ => if nle a b then b else a
  end.

(** *** Binary64

    What makes a [num] a JavaScript number is that every operation yields
    the binary64 number next to its exact result. *)

(** [2^e], also for a negative [e]. *)
Definition pow2 (e : Z) : Q := Qpower 2 e.

(** For [0 < q]: the [e] with [2^e <= q < 2^(e+1)]. *)
Definition floor_log2 (q : Q) : Z :=
  let e0 := (Z.log2 (Qnum q) - Z.log2 (Zpos (Qden q)))%Z in
  if Qlt_le_dec q (pow2 e0) then (e0 - 1)%Z else e0.

(** The integer next to [x], the even one of two. *)
Definition round_half_even (x : Q) : Z :=
  let f := Qfloor x in
  match ((x - inject_Z f) ?= (1 # 2))%Q with
  | Lt => f
  | Gt => (f + 1)%Z
  | Eq => if Z.even f then f else (f + 1)%Z
  end.

(** For [0 < q]: the multiple of [2^e] next to [q], where [e] leaves 53
    bits to the multiplier and is not below -1074; from [2^1024] on the
    result is infinite. *)
Definition round64_pos (q : Q) : num :=
  let e := Z.max (floor_log2 q - 52) (-1074) in
  let m := round_half_even (q / pow2 e) in
  let v := (inject_Z m * pow2 e)%Q in
  if Qle_bool (pow2 1024) v then PInf else Fin (Qred v).

Definition round64 (q : Q) : num :=
  let r := Qred q in
  match Qnum r with
  | Z0 => Fin 0
  | Zpos _ => round64_pos r
  | Zneg _ => nneg (round64_pos (- r)%Q)
  end.

Definition fround (a : num) : num :=
  match a with
  | Fin q => round64 q
  | _ => a
  end.

(** [a + b], [a - b], [a * b], [a / b] of JavaScript. *)
Definition fadd (a b : num) : num := fround (nadd a b).
Definition fsub (a b : num) : num := fround (nsub a b).
Definition fmul (a b : num) : num := fround (nmul a b).
Definition fdiv (a b : num) : num := fround (ndiv a b).

(** *** Strings *)

(** [s.split(' ')]: never empty, the empty string gives one empty part. *)
Fixpoint split_space (s : string) : list string :=
  match s with
  | EmptyString => [EmptyString]
  | String c r =>
      if Ascii.eqb c " "%char then EmptyString :: split_space r
      else match split_space r with
           | t :: ts => String c t :: ts
           | [] => [String c EmptyString]
           end
  end.

(** [s.endsWith('%')] *)
Fixpoint ends_with_percent (s : string) : bool :=
  match s with
  | EmptyString => false
  | String c EmptyString => Ascii.eqb c "%"%char
  | String _ r => ends_with_percent r
  end.

Fixpoint starts_with (p s : string) : bool :=
  match p, s with
  | EmptyString, _ => true
  | String a p', String b s' => Ascii.eqb a b && starts_with p' s'
  | String _ _, EmptyString => false
  end.

(** Truthiness of a string: only the empty string is falsy. *)
Definition truthy (s : string) : bool :=
  match s with
  | EmptyString => false
  | String _ _ => true
  end.

(** [s || d] on strings. *)
Definition or_else (s d : string) : string := if truthy s then s else d.

(** *** [parseFloat] *)

(** The white space [parseFloat] skips, as far as it is ASCII:
    TAB, LF, VT, FF, CR and SP. *)
Definition is_white (c : ascii) : bool :=
  let n := nat_of_ascii c in
  (Nat.leb 9 n && Nat.leb n 13) || Nat.eqb n 32.

Fixpoint skip_white (s : string) : string :=
  match s with
  | String c r => if is_white c then skip_white r else s
  | EmptyString => s
  end.

Definition digit_of (c : ascii) : option (uint -> uint) :=
  match c with
  | "0"%char => Some D0
  | "1"%char => Some D1
  | "2"%char => Some D2
  | "3"%char => Some D3
  | "4"%char => Some D4
  | "5"%char => Some D5
  | "6"%char => Some D6
  | "7"%char => Some D7
  | "8"%char => Some D8
  | "9"%char => Some D9
  | _ => None
  end.

(** The longest prefix of decimal digits, and what follows it. *)
Fixpoint take_digits (s : string) : uint * string :=
  match s with
  | String c r =>
      match digit_of c with
      | Some d => let '(u, r') := take_digits r in (d u, r')
      | None => (Nil, s)
      end
  | EmptyString => (Nil, s)
  end.

Definition take_sign (s : string) : bool * string :=
  match s with
  | String "-"%char r => (true, r)
  | String "+"%char r => (false, r)
  | _ => (false, s)
  end.

(** The exponent part [e], [e+], [e-] followed by at least one digit;
    anything else is not part of the number. *)
Definition exponent (s : string) : Z :=
  match s with
  | String c r =>
      if Ascii.eqb c "e"%char || Ascii.eqb c "E"%char then
        let '(neg, r') := take_sign r in
        match take_digits r' with
        | (Nil, _) => 0%Z
        | (u, _) => if neg then (- Z.of_uint u)%Z else Z.of_uint u
        end
      else 0%Z
  | EmptyString => 0%Z
  end.

(** The number denoted by sign, integer digits [i], fraction digits [f]
    and exponent [e], in lowest terms. *)
Definition decimal_value (neg : bool) (i f : uint) (e : Z) : Q :=
  let m := Z.of_uint (Decimal.app i f) in
  Qred (inject_Z (if neg then - m else m)%Z
        * Qpower 10 (e - Z.of_nat (Decimal.nb_digits f))%Z)%Q.

(** The unsigned part of a decimal literal at the head of [s1]:
    [Infinity], or digits with an optional point and exponent, at least
    one digit before or after the point. *)
Definition unsigned_literal (neg : bool) (s1 : string) : num :=
  if starts_with "Infinity" s1 then (if neg then NInf else PInf)
  else
    let '(i, r1) := take_digits s1 in
    let '(f, r2) :=
      match r1 with
      | String "."%char r => take_digits r
      | _ => (Nil, r1)
      end in
    match i, f with
    | Nil, Nil => NaN
    | _, _ => round64 (decimal_value neg i f (exponent r2))
    end.

(** [parseFloat(s)]: the number next to the longest prefix of [s], after
    white space, that is a decimal literal; [NaN] when there is none. *)
Definition parseFloat (s : string) : num :=
  let '(neg, s1) := take_sign (skip_white s) in
  unsigned_literal neg s1.

(** *** [Number.prototype.toFixed(1)] *)

Definition string_of_Z (z : Z) : string :=
  NilZero.string_of_uint (N.to_uint (Z.to_N z)).

(** For [0 <= q]: the integer [n] with [n / 10] closest to [q], the larger
    one on a tie, printed with one digit after the point. (Magnitudes of
    1e21 and more, which JavaScript prints in exponent notation, do not
    occur: the only caller clamps to [0, 100].) *)
Definition fixed1_nonneg (q : Q) : string :=
  let n := Qfloor (q * 10 + (1 # 2))%Q in
  string_of_Z (n / 10)%Z ++ "." ++ string_of_Z (n mod 10)%Z.

Definition toFixed1 (a : num) : string :=
  match a with
  | NaN => "NaN"
  | PInf => "Infinity"
  | NInf => "-Infinity"
  | Fin q => if Qlt_le_dec q 0 then "-" ++ fixed1_nonneg (- q)%Q
             else fixed1_nonneg q
  end.

(** *** Property lookup on an object literal *)

(** The members every object literal inherits from [Object.prototype]. *)
Definition object_prototype_names : list string :=
  [ "constructor"; "hasOwnProperty"; "isPrototypeOf";
    "propertyIsEnumerable"; "toLocaleString"; "toString"; "valueOf";
    "__proto__"; "__defineGetter__"; "__defineSetter__";
    "__lookupGetter__"; "__lookupSetter__" ].

(** The result of [obj[key]] on an object literal with own properties of
    type [A]. *)
Inductive property (A : Type) : Type :=
| Own (a : A)
| Inherited (name : string)
| Undefined.
Arguments Own {A} a.
Arguments Inherited {A} name.
Arguments Undefined {A}.

Fixpoint assoc {A} (k : string) (l : list (string * A)) : option A :=
  match l with
  | [] => None
  | (k', a) :: l' => if String.eqb k k' then Some a else assoc k l'
  end.

Definition is_prototype_name (k : string) : bool :=
  existsb (String.eqb k) object_prototype_names.

Definition get {A} (obj : list (string * A)) (k : string) : property A :=
  match assoc k obj with
  | Some a => Own a
  | None => if is_prototype_name k then Inherited k else Undefined
  end.

End JS.

Import JS.

(** ** [types.ts] *)

Inductive ImageResolution : Type := R1K | R2K | R4K.

Definition resolution_tag (r : ImageResolution) : string :=
  match r with
  | R1K => "1K"
  | R2K => "2K"
  | R4K => "4K"
  end.

(** [image] is [null] or a string. [zoom] and [position] are declared
    [number] and [string]; [None] stands for [undefined], which the preset
    lookup writes there when the shot type names a member inherited from
    [Object.prototype]. *)
Record Frame : Type := {
  image : option string;
  shotType : string;
  action : string;
  dialogue : string;
  zoom : option num;
  position : option string
}.

Record ShotType : Type := { value : string; label : string }.

Record ShotPreset : Type := { preset_zoom : num; preset_position : string }.

(** An entry of the plan: both fields are optional. *)
Record FrameData : Type := {
  plan_shotType : option string;
  plan_action : option string
}.

Inductive AssetType : Type := Environment | Character | Prop_ | Style | Other.

Record VisualAsset : Type := {
  id : string;
  data : string;
  type : AssetType;
  asset_label : string
}.

(** ** [constants.ts] *)

Definition SHOT_TYPES : list ShotType :=
  [ {| value := "ELS"; label := "ELS 大远景" |};
    {| value := "LS"; label := "LS 远景" |};
    {| value := "FS"; label := "FS 全景" |};
    {| value := "MS"; label := "MS 中景" |};
    {| value := "CU"; label := "CU 特写" |};
    {| value := "ECU"; label := "ECU 大特写" |};
    {| value := "POV"; label := "POV 主观视角" |};
    {| value := "OTS"; label := "OTS 过肩镜头" |};
    {| value := "LA"; label := "LA 仰视" |};
    {| value := "HA"; label := "HA 俯视" |};
    {| value := "DA"; label := "DA 倾斜/荷兰角" |};
    {| value := "OH"; label := "OH 顶视" |};
    {| value := "BE"; label := "BE 鸟瞰" |} ].

Definition preset (z : Z) (p : string) : ShotPreset :=
  {| preset_zoom := of_Z z; preset_position := p |}.

Definition SHOT_TYPE_PRESETS : list (string * ShotPreset) :=
  [ ("ELS", preset 100 "center center");
    ("LS", preset 120 "center center");
    ("FS", preset 140 "center center");
    ("MS", preset 180 "center 20%");
    ("CU", preset 240 "center 15%");
    ("ECU", preset 350 "center 30%");
    ("POV", preset 130 "center center");
    ("OTS", preset 160 "20% center");
    ("LA", preset 130 "center bottom");
    ("HA", preset 130 "center top");
    ("DA", preset 120 "center center");
    ("OH", preset 100 "center center");
    ("BE", preset 100 "center center") ].

(** ** [components/StoryboardCard.tsx] *)

Module StoryboardCard.

(** What [parse] returns: a number, or the member of [Object.prototype]
    that [map[p]] found. *)
Inductive coordinate : Type :=
| Number (n : num)
| Member (name : string).

(** The numeric reading of a coordinate in arithmetic: a function or
    object converts to [NaN]. *)
Definition to_number (c : coordinate) : num :=
  match c with
  | Number n => n
  | Member _ => NaN
  end.

Record anchor : Type := { x : coordinate; y : coordinate }.

Definition map : list (string * num) :=
  [ ("left", of_Z 0); ("center", of_Z 50); ("right", of_Z 100);
    ("top", of_Z 0); ("bottom", of_Z 100) ].

Definition parse (p : string) : coordinate :=
  match get map p with
  | Own n => Number n
  | Inherited name => Member name
  | Undefined =>
      if ends_with_percent p then Number (parseFloat p)
      else Number (of_Z 50)
  end.

Definition parsePosition (posStr : string) : anchor :=
  let parts := split_space posStr in
  let xStr := or_else (default "" (parts !! 0%nat)) "center" in
  let yStr := or_else (default "" (parts !! 1%nat)) "center" in
  {| x := parse xStr; y := parse yStr |}.

Record CropRect : Type := {
  cropWidth : num;
  cropHeight : num;
  cropLeft : num;
  cropTop : num
}.

(** The four [crop...] constants of the component body, for a zoom and a
    parsed position. *)
Definition crop (frame_zoom : num) (pos : anchor) : CropRect :=
  let cropWidth := ndiv (of_Z 100) (ndiv frame_zoom (of_Z 100)) in
  let cropHeight := ndiv (of_Z 100) (ndiv frame_zoom (of_Z 100)) in
  {| cropWidth := cropWidth;
     cropHeight := cropHeight;
     cropLeft := nmul (to_number (x pos))
                   (nsub (of_Z 1) (ndiv cropWidth (of_Z 100)));
     cropTop := nmul (to_number (y pos))
                  (nsub (of_Z 1) (ndiv cropHeight (of_Z 100))) |}.

(** The same for a frame; [None] when [frame.position] is [undefined]
    and [parsePosition] throws. *)
Definition cropRect (frame : Frame) : option CropRect :=
  match position frame with
  | Some p => Some (crop (default NaN (zoom frame)) (parsePosition p))
  | None => None
  end.

(** [dragStart.current] *)
Record DragStart : Type := {
  drag_x : num;
  drag_y : num;
  posX : coordinate;
  posY : coordinate;
  drag_zoom : num
}.

Definition dragStart_initial : DragStart :=
  {| drag_x := of_Z 0; drag_y := of_Z 0;
     posX := Number (of_Z 50); posY := Number (of_Z 50);
     drag_zoom := of_Z 100 |}.

Definition image_present (frame : Frame) : bool :=
  match image frame with
  | Some s => truthy s
  | None => false
  end.

(** [handleMouseDown]: the snapshot stored in [dragStart.current] when a
    drag session begins, [None] when the handler returns early.
    [on_button] tells whether the press landed inside a button. *)
Definition handleMouseDown (frame : Frame) (pos : anchor)
    (isGenerating isRegenerating on_button : bool)
    (clientX clientY : num) : option DragStart :=
  let z := default NaN (zoom frame) in
  if negb (image_present frame) || nle z (of_Z 100)
     || isGenerating || isRegenerating then None
  else if on_button then None
  else Some {| drag_x := clientX; drag_y := clientY;
               posX := x pos; posY := y pos; drag_zoom := z |}.

Definition clamp_0_100 (v : num) : num :=
  math_max (of_Z 0) (math_min (of_Z 100) v).

(** [newX] and [newY] of [handleMouseMove], [None] when the handler
    returns before it computes them. [container] is the bounding rectangle
    of [containerRef.current], absent when the ref is not attached. *)
Definition drag_anchor (container : option (num * num))
    (dragStart : DragStart) (clientX clientY : num) : option (num * num) :=
  match container with
  | None => None
  | Some (width, height) =>
      let zoomFactor := fsub (fdiv (drag_zoom dragStart) (of_Z 100)) (of_Z 1) in
      if nle zoomFactor (round64 (1 # 100)) then None
      else
        let moveX :=
          fdiv (fmul (fdiv (fsub clientX (drag_x dragStart)) width) (of_Z 100))
               zoomFactor in
        let moveY :=
          fdiv (fmul (fdiv (fsub clientY (drag_y dragStart)) height) (of_Z 100))
               zoomFactor in
        let newX := clamp_0_100 (fsub (to_number (posX dragStart)) moveX) in
        let newY := clamp_0_100 (fsub (to_number (posY dragStart)) moveY) in
        Some (newX, newY)
  end.

(** [`${newX.toFixed(1)}% ${newY.toFixed(1)}%`] *)
Definition position_text (a : num * num) : string :=
  toFixed1 (fst a) ++ "% " ++ toFixed1 (snd a) ++ "%".

(** [handleMouseMove]: the position string passed to
    [onChange(index, 'position', ...)], [None] when the handler returns
    without calling it. *)
Definition handleMouseMove (container : option (num * num))
    (dragStart : DragStart) (clientX clientY : num) : option string :=
  option_map position_text (drag_anchor container dragStart clientX clientY).

(** The render button of the card: [disabled={isRegenerating || !frame.action}]. *)
Definition render_button_disabled (frame : Frame) (isRegenerating : bool) : bool :=
  isRegenerating || negb (truthy (action frame)).

End StoryboardCard.

Import StoryboardCard.

(** ** [App.tsx], with the local code of [services/geminiService.ts] *)

Module App.

(** *** The outside world *)

(** The calls that leave the program and are answered later. *)
Inductive request : Type :=
| ReadAsDataURL (name : string)
| AnalyzeProductionAssets (assets : list VisualAsset) (textContext : string)
| PlanStoryboardSequence (context : string)
| GenerateCinemaFrame (shotPrompt : string) (assets : list VisualAsset)
    (protocol : string) (resolution : ImageResolution)
| SetTimeout (ms : nat).

(** What comes back. [FileLoaded]: the reader's [result] and the token
    [Math.random] yields for the asset id. [Text]: [response.text] of the
    analysis. [Json]: the value of [JSON.parse(response.text || "[]")],
    [None] when parsing or slicing throws. [Parts]: for each part of the
    first candidate, its [inlineData.data] if it has one. [Error]: the
    promise is rejected with a message. *)
Inductive reply : Type :=
| FileLoaded (random_id : string) (result : string)
| Text (text : option string)
| Json (parsed : option (list FrameData))
| Parts (parts : list (option string))
| Elapsed
| Error (message : string).

Inductive outcome (A : Type) : Type :=
| Resolved (a : A)
| Rejected (message : string).
Arguments Resolved {A} a.
Arguments Rejected {A} message.

(** What the user or the console gets to see, and the calls made. *)
Inductive effect : Type :=
| Alert (message : string)
| RenderFailed (index : nat) (e : string)
| PlanningParseError
| Uncaught (e : string)
| Call (r : request).

(** *** State *)

Record AppState : Type := {
  assets : list VisualAsset;
  sceneDesc : string;
  productionProtocol : string;
  isGenerating : bool;
  isAnalyzing : bool;
  regeneratingIndices : gmap nat bool;
  targetResolution : ImageResolution;
  frames : list Frame
}.

Definition initial_frame : Frame :=
  {| image := None; shotType := "MS"; action := ""; dialogue := "";
     zoom := Some (of_Z 180); position := Some "center 20%" |}.

Definition initial_state : AppState :=
  {| assets := []; sceneDesc := ""; productionProtocol := "";
     isGenerating := false; isAnalyzing := false;
     regeneratingIndices := ∅; targetResolution := R4K;
     frames := replicate 27 initial_frame |}.

(** What remains to be done after [runAnalysisIfNeeded] settles. *)
Inductive analysis_cont : Type :=
| ThenRegenerate (index : nat)
| ThenPlan.

(** What remains to be done after [performRegeneration] settles: nothing,
    or the pacing delay of the rendering loop at shot [i]. [cl] is the
    state the running [generateFullStoryboard] was rendered with. *)
Inductive render_cont : Type :=
| Return
| ThenPace (cl : AppState) (i : nat) (initialFrames : list Frame)
    (protocol : string).

(** A handler suspended at an [await]. *)
Inductive task : Type :=
| AwaitFile (name : string)
| AwaitAnalysis (cl : AppState) (k : analysis_cont)
| AwaitPlan (cl : AppState) (protocol : string)
| AwaitRender (index : nat) (resolution : ImageResolution) (k : render_cont)
| AwaitTimeout (cl : AppState) (i : nat) (initialFrames : list Frame)
    (protocol : string).

Record World : Type := {
  state : AppState;
  parked : list task;
  effects : list effect
}.

Definition initial_world : World :=
  {| state := initial_state; parked := []; effects := [] |}.

Definition update (f : AppState -> AppState) (w : World) : World :=
  {| state := f (state w); parked := parked w; effects := effects w |}.

Definition emit (e : effect) (w : World) : World :=
  {| state := state w; parked := parked w; effects := effects w ++ [e] |}.

Definition park (t : task) (w : World) : World :=
  {| state := state w; parked := parked w ++ [t]; effects := effects w |}.

Definition unpark (k : nat) (w : World) : World :=
  {| state := state w; parked := delete k (parked w); effects := effects w |}.

Definition setAssets (f : list VisualAsset -> list VisualAsset) : World -> World :=
  update (fun s =>
    {| assets := f (assets s); sceneDesc := sceneDesc s;
       productionProtocol := productionProtocol s;
       isGenerating := isGenerating s; isAnalyzing := isAnalyzing s;
       regeneratingIndices := regeneratingIndices s;
       targetResolution := targetResolution s; frames := frames s |}).

Definition setSceneDesc (v : string) : World -> World :=
  update (fun s =>
    {| assets := assets s; sceneDesc := v;
       productionProtocol := productionProtocol s;
       isGenerating := isGenerating s; isAnalyzing := isAnalyzing s;
       regeneratingIndices := regeneratingIndices s;
       targetResolution := targetResolution s; frames := frames s |}).

Definition setProductionProtocol (v : string) : World -> World :=
  update (fun s =>
    {| assets := assets s; sceneDesc := sceneDesc s;
       productionProtocol := v;
       isGenerating := isGenerating s; isAnalyzing := isAnalyzing s;
       regeneratingIndices := regeneratingIndices s;
       targetResolution := targetResolution s; frames := frames s |}).

Definition setIsGenerating (v : bool) : World -> World :=
  update (fun s =>
    {| assets := assets s; sceneDesc := sceneDesc s;
       productionProtocol := productionProtocol s;
       isGenerating := v; isAnalyzing := isAnalyzing s;
       regeneratingIndices := regeneratingIndices s;
       targetResolution := targetResolution s; frames := frames s |}).

Definition setIsAnalyzing (v : bool) : World -> World :=
  update (fun s =>
    {| assets := assets s; sceneDesc := sceneDesc s;
       productionProtocol := productionProtocol s;
       isGenerating := isGenerating s; isAnalyzing := v;
       regeneratingIndices := regeneratingIndices s;
       targetResolution := targetResolution s; frames := frames s |}).

Definition setRegeneratingIndices (f : gmap nat bool -> gmap nat bool)
    : World -> World :=
  update (fun s =>
    {| assets := assets s; sceneDesc := sceneDesc s;
       productionProtocol := productionProtocol s;
       isGenerating := isGenerating s; isAnalyzing := isAnalyzing s;
       regeneratingIndices := f (regeneratingIndices s);
       targetResolution := targetResolution s; frames := frames s |}).

Definition setFrames (f : list Frame -> list Frame) : World -> World :=
  update (fun s =>
    {| assets := assets s; sceneDesc := sceneDesc s;
       productionProtocol := productionProtocol s;
       isGenerating := isGenerating s; isAnalyzing := isAnalyzing s;
       regeneratingIndices := regeneratingIndices s;
       targetResolution := targetResolution s; frames := f (frames s) |}).

Definition is_empty {A} (l : list A) : bool :=
  match l with
  | [] => true
  | _ :: _ => false
  end.

(** [!!regeneratingIndices[index]] *)
Definition isRegenerating (s : AppState) (index : nat) : bool :=
  default false (regeneratingIndices s !! index).

(** *** [services/geminiService.ts]: what the wrappers do with a reply *)

(** [analyzeProductionAssets]: [response.text || "Protocol synthesis failed."] *)
Definition analyzeProductionAssets (text : option string) : string :=
  or_else (default "" text) "Protocol synthesis failed.".

(** [generateCinemaFrame]: the first part with [inlineData] gives the
    image, none makes the call throw. *)
Definition generateCinemaFrame (resolution : ImageResolution)
    (parts : list (option string)) : outcome string :=
  match List.find (fun p => bool_decide (is_Some p)) parts with
  | Some (Some d) => Resolved ("data:image/png;base64," ++ d)
  | _ => Rejected (resolution_tag resolution
                     ++ " Rendering Error: Image not returned by engine.")
  end.

(** [planStoryboardSequence]: [plan.slice(0, 27)], and [[]] when parsing
    throws. The flag tells whether the parse error was logged. *)
Definition planStoryboardSequence (parsed : option (list FrameData))
    : list FrameData * bool :=
  match parsed with
  | Some plan => (take 27 plan, false)
  | None => ([], true)
  end.

(** *** [performRegeneration] *)

Definition nl : string := String (ascii_of_nat 10) EmptyString.
Definition indent : string := "                ".

(** The directive sent with the render call. *)
Definition shotPrompt (cl : AppState) (frame : Frame) : string :=
  let shotLabel :=
    match List.find (fun s => String.eqb (value s) (shotType frame)) SHOT_TYPES with
    | Some shotInfo => or_else (label shotInfo) (shotType frame)
    | None => shotType frame
    end in
  nl ++ indent ++ "[MANDATORY CINEMATIC DIRECTIVE]"
  ++ nl ++ indent ++ "SHOT_TYPE: " ++ shotLabel ++ " (" ++ shotType frame ++ ")"
  ++ nl ++ indent ++ "COMPOSITION: Strict " ++ shotType frame ++ " lens perspective."
  ++ nl ++ indent ++ "SCENE_ACTION: " ++ or_else (action frame) "主体在画面中央"
  ++ nl ++ indent ++ "CONTEXT: " ++ sceneDesc cl
  ++ nl ++ indent ++ "TECHNICAL: High-fidelity cinematic rendering, depth of field match for "
  ++ shotType frame ++ "."
  ++ nl ++ "            ".

(** The caller of [performRegeneration] goes on once its promise settles;
    the promise never rejects. *)
Definition resume (k : render_cont) (w : World) : World :=
  match k with
  | Return => w
  | ThenPace cl i initialFrames protocol =>
      park (AwaitTimeout cl i initialFrames protocol)
        (emit (Call (SetTimeout 600)) w)
  end.

(** [finally { setRegeneratingIndices(prev => ({ ...prev, [index]: false })) }] *)
Definition clear_flag (index : nat) : World -> World :=
  setRegeneratingIndices (fun prev => <[index := false]> prev).

(** [performRegeneration] up to its [await]. [cl] holds the [assets],
    [sceneDesc] and [targetResolution] the callback closed over. *)
Definition performRegeneration (cl : AppState) (index : nat)
    (currentFrames : list Frame) (currentProtocol : string)
    (res : option ImageResolution) (k : render_cont) (w : World) : World :=
  if negb (truthy currentProtocol) && is_empty (assets cl) then resume k w
  else
    let w1 := setRegeneratingIndices (fun prev => <[index := true]> prev) w in
    match currentFrames !! index with
    | None =>
        (* [frame] is undefined: reading [frame.shotType] throws *)
        resume k
          (clear_flag index
             (emit (RenderFailed index
                      "TypeError: Cannot read properties of undefined (reading 'shotType')")
                w1))
    | Some frame =>
        let resolution := default (targetResolution cl) res in
        park (AwaitRender index resolution k)
          (emit (Call (GenerateCinemaFrame (shotPrompt cl frame) (assets cl)
                         (or_else currentProtocol "保持视觉连续性与资产特征一致。")
                         resolution))
             w1)
    end.

(** [updated[index] = { ...updated[index], image: newImage }] on a copy of
    [prev]. Past the end a JavaScript array grows: the new object has the
    [image] property alone and the cells in between stay empty, which
    [Frame] cannot express; [None] stands for that array, and rendering
    its last record throws in [parsePosition]. *)
Definition with_image (newImage : string) (f : Frame) : Frame :=
  {| image := Some newImage; shotType := shotType f; action := action f;
     dialogue := dialogue f; zoom := zoom f; position := position f |}.

Definition store_image (index : nat) (newImage : string) (prev : list Frame)
    : option (list Frame) :=
  match prev !! index with
  | Some f => Some (<[index := with_image newImage f]> prev)
  | None => None
  end.

(** [performRegeneration] after its [await]. *)
Definition performRegeneration_settled (index : nat) (k : render_cont)
    (r : outcome string) (w : World) : World :=
  let w1 :=
    match r with
    | Resolved newImage =>
        match store_image index newImage (frames (state w)) with
        | Some updated => setFrames (fun _ => updated) w
        | None =>
            emit (Uncaught "TypeError: Cannot read properties of undefined (reading 'split')") w
        end
    | Rejected e => emit (RenderFailed index e) w
    end in
  resume k (clear_flag index w1).

(** *** [generateFullStoryboard], rendering loop *)

(** One turn of [for (let i = 0; i < initialFrames.length; i++)]. *)
Definition render_loop (cl : AppState) (i : nat) (initialFrames : list Frame)
    (protocol : string) (w : World) : World :=
  if Nat.ltb i (length initialFrames) then
    performRegeneration cl i initialFrames protocol None
      (ThenPace cl i initialFrames protocol) w
  else w.

(** The record built for shot [i] from the plan. *)
Definition planned_frame (plan : list FrameData) (i : nat) (f : Frame) : Frame :=
  let p := default {| plan_shotType := None; plan_action := None |} (plan !! i) in
  let sType := or_else (default "" (plan_shotType p)) "MS" in
  let '(z, pos) :=
    match get SHOT_TYPE_PRESETS sType with
    | Own preset => (Some (preset_zoom preset), Some (preset_position preset))
    | Inherited _ => (None, None)
    | Undefined => (Some (of_Z 100), Some "center center")
    end in
  {| image := None; shotType := sType;
     action := or_else (default "" (plan_action p)) "";
     dialogue := dialogue f; zoom := z; position := pos |}.

(** [catch (e) { alert("生成失败: " + e.message); setIsGenerating(false); }] *)
Definition generation_failed (message : string) (w : World) : World :=
  setIsGenerating false (emit (Alert ("生成失败: " ++ message)) w).

(** [generateFullStoryboard] from the answer of the planner on. *)
Definition plan_settled (cl : AppState) (protocol : string)
    (r : outcome (option (list FrameData))) (w : World) : World :=
  match r with
  | Rejected e => generation_failed e w
  | Resolved parsed =>
      let '(plan, logged) := planStoryboardSequence parsed in
      let w := if logged then emit PlanningParseError w else w in
      if is_empty plan then generation_failed "分镜规划失败，AI 引擎响应异常。" w
      else
        let initialFrames := imap (planned_frame plan) (frames cl) in
        render_loop cl 0 initialFrames protocol
          (setIsGenerating false (setFrames (fun _ => initialFrames) w))
  end.

(** *** [runAnalysisIfNeeded] and its two callers *)

Definition analysis_settled (cl : AppState) (k : analysis_cont)
    (r : outcome string) (w : World) : World :=
  match k, r with
  | ThenRegenerate index, Resolved protocol =>
      performRegeneration cl index (frames cl) protocol None Return w
  | ThenRegenerate _, Rejected e => emit (Alert e) w
  | ThenPlan, Resolved protocol =>
      park (AwaitPlan cl protocol)
        (emit (Call (PlanStoryboardSequence (sceneDesc cl))) w)
  | ThenPlan, Rejected e => generation_failed e w
  end.

(** [runAnalysisIfNeeded], followed by what its caller does with the
    result. (The early return of the service on an empty asset list is
    behind the check made here.) *)
Definition runAnalysisIfNeeded (cl : AppState) (k : analysis_cont)
    (w : World) : World :=
  if truthy (productionProtocol cl) then
    analysis_settled cl k (Resolved (productionProtocol cl)) w
  else if is_empty (assets cl) then
    analysis_settled cl k (Rejected "请上传至少一张视觉资产作为参考。") w
  else
    park (AwaitAnalysis cl k)
      (emit (Call (AnalyzeProductionAssets (assets cl) (sceneDesc cl)))
         (setIsAnalyzing true w)).

(** The rest of [runAnalysisIfNeeded] once the analysis call settles. *)
Definition analysis_replied (cl : AppState) (k : analysis_cont)
    (r : outcome (option string)) (w : World) : World :=
  match r with
  | Resolved text =>
      let protocol := analyzeProductionAssets text in
      analysis_settled cl k (Resolved protocol)
        (setIsAnalyzing false (setProductionProtocol protocol w))
  | Rejected e =>
      analysis_settled cl k (Rejected e) (setIsAnalyzing false w)
  end.

Definition generateFullStoryboard (w : World) : World :=
  let cl := state w in
  if negb (truthy (sceneDesc cl)) then
    emit (Alert "请先输入剧本或故事梗概。") w
  else runAnalysisIfNeeded cl ThenPlan (setIsGenerating true w).

Definition handleRegenerateFrame (index : nat) (w : World) : World :=
  let cl := state w in
  if is_empty (assets cl) then
    emit (Alert "请先上传参考图以保持视觉一致性。") w
  else runAnalysisIfNeeded cl (ThenRegenerate index) w.

(** *** Field updates *)

(** A field of a record with a value of its declared type, as the four
    call sites of [onChange] pass them. *)
Inductive field_value : Type :=
| Field_image (val : string)
| Field_shotType (val : string)
| Field_action (val : string)
| Field_dialogue (val : string)
| Field_zoom (val : num)
| Field_position (val : string).

(** [newFrames[idx][field] = val] *)
Definition assign (fv : field_value) (f : Frame) : Frame :=
  match fv with
  | Field_image v =>
      {| image := Some v; shotType := shotType f; action := action f;
         dialogue := dialogue f; zoom := zoom f; position := position f |}
  | Field_shotType v =>
      {| image := image f; shotType := v; action := action f;
         dialogue := dialogue f; zoom := zoom f; position := position f |}
  | Field_action v =>
      {| image := image f; shotType := shotType f; action := v;
         dialogue := dialogue f; zoom := zoom f; position := position f |}
  | Field_dialogue v =>
      {| image := image f; shotType := shotType f; action := action f;
         dialogue := v; zoom := zoom f; position := position f |}
  | Field_zoom v =>
      {| image := image f; shotType := shotType f; action := action f;
         dialogue := dialogue f; zoom := Some v; position := position f |}
  | Field_position v =>
      {| image := image f; shotType := shotType f; action := action f;
         dialogue := dialogue f; zoom := zoom f; position := Some v |}
  end.

(** [newFrames[idx].zoom = preset.zoom; newFrames[idx].position = preset.position]
    under [if (preset)]: an inherited member is truthy and has neither
    property. *)
Definition apply_preset (val : string) (f : Frame) : Frame :=
  match get SHOT_TYPE_PRESETS val with
  | Own preset =>
      {| image := image f; shotType := shotType f; action := action f;
         dialogue := dialogue f; zoom := Some (preset_zoom preset);
         position := Some (preset_position preset) |}
  | Inherited _ =>
      {| image := image f; shotType := shotType f; action := action f;
         dialogue := dialogue f; zoom := None; position := None |}
  | Undefined => f
  end.

(** [handleFrameChange]. The record is written in place in the program;
    here the state array gets the new record at [idx]. Out of range
    [newFrames[idx]] is undefined and the assignment throws. *)
Definition handleFrameChange (idx : nat) (fv : field_value) (w : World) : World :=
  let cl := state w in
  let prev := frames (state w) in
  match prev !! idx with
  | None =>
      emit (Uncaught "TypeError: Cannot set properties of undefined") w
  | Some f =>
      match fv with
      | Field_shotType val =>
          let newFrames := <[idx := apply_preset val (assign fv f)]> prev in
          let w1 :=
            if truthy (productionProtocol cl) || negb (is_empty (assets cl))
            then performRegeneration cl idx newFrames (productionProtocol cl)
                   None Return w
            else w in
          setFrames (fun _ => newFrames) w1
      | _ => setFrames (fun _ => <[idx := assign fv f]> prev) w
      end
  end.

(** *** Assets *)

(** [handleAssetUpload]: one reader per file. *)
Definition handleAssetUpload (files : list string) (w : World) : World :=
  foldl (fun w name => park (AwaitFile name) (emit (Call (ReadAsDataURL name)) w))
    w files.

(** [reader.onload] *)
Definition reader_onload (name : string) (random_id result : string)
    (w : World) : World :=
  if truthy result then
    let newAsset :=
      {| id := random_id; data := result; type := Other; asset_label := name |} in
    setAssets (fun prev => (prev ++ [newAsset])%list) w
  else w.

Definition removeAsset (asset_id : string) (w : World) : World :=
  setProductionProtocol ""
    (setAssets (fun prev =>
       List.filter (fun a => negb (String.eqb (id a) asset_id)) prev) w).

(** *** The event loop *)

(** A parked task receives its answer; [None] when the reply is not one
    the awaited call can give. *)
Definition settle (t : task) (r : reply) (w : World) : option World :=
  match t, r with
  | AwaitFile name, FileLoaded random_id result =>
      Some (reader_onload name random_id result w)
  | AwaitAnalysis cl k, Text text =>
      Some (analysis_replied cl k (Resolved text) w)
  | AwaitAnalysis cl k, Error e =>
      Some (analysis_replied cl k (Rejected e) w)
  | AwaitPlan cl protocol, Json parsed =>
      Some (plan_settled cl protocol (Resolved parsed) w)
  | AwaitPlan cl protocol, Error e =>
      Some (plan_settled cl protocol (Rejected e) w)
  | AwaitRender index resolution k, Parts parts =>
      Some (performRegeneration_settled index k
              (generateCinemaFrame resolution parts) w)
  | AwaitRender index resolution k, Error e =>
      Some (performRegeneration_settled index k (Rejected e) w)
  | AwaitTimeout cl i initialFrames protocol, Elapsed =>
      Some (render_loop cl (S i) initialFrames protocol w)
  | _, _ => None
  end.

(** What can happen next: the user acts on a control, or call number [k]
    among the pending ones is answered. *)
Inductive event : Type :=
| Upload (files : list string)
| ClickRemoveAsset (asset_id : string)
| EditScene (text : string)
| SelectShotType (index : nat) (val : string)
| EditAction (index : nat) (val : string)
| ClickRender (index : nat)
| ClickGenerate
| Answer (k : nat) (r : reply).

(** The render button of card [index] as last rendered. *)
Definition render_disabled (s : AppState) (index : nat) : bool :=
  match frames s !! index with
  | Some frame => render_button_disabled frame (isRegenerating s index)
  | None => true
  end.

(** [disabled={isGenerating || isAnalyzing || assets.length === 0}] *)
Definition generate_disabled (s : AppState) : bool :=
  isGenerating s || isAnalyzing s || is_empty (assets s).

(** One turn of the event loop; every turn ends with a render, so the
    controls reflect the state the turn leaves. A disabled control and a
    reply that does not fit leave the world as it is. *)
Definition step (w : World) (e : event) : World :=
  match e with
  | Upload files => handleAssetUpload files w
  | ClickRemoveAsset asset_id => removeAsset asset_id w
  | EditScene text => setSceneDesc text w
  | SelectShotType index val => handleFrameChange index (Field_shotType val) w
  | EditAction index val => handleFrameChange index (Field_action val) w
  | ClickRender index =>
      if render_disabled (state w) index then w
      else handleRegenerateFrame index w
  | ClickGenerate =>
      if generate_disabled (state w) then w else generateFullStoryboard w
  | Answer k r =>
      match parked w !! k with
      | Some t => default w (settle t r (unpark k w))
      | None => w
      end
  end.

Definition run (w : World) (es : list event) : World := foldl step w es.

(** The render calls for [index] that are awaiting their answer. *)
Definition renders_in_flight (index : nat) (w : World) : nat :=
  length (List.filter
            (fun t => match t with
                      | AwaitRender i _ _ => Nat.eqb i index
                      | _ => false
                      end)
            (parked w)).

(** The calls made so far that satisfy [p]. *)
Definition calls (p : request -> bool) (w : World) : list request :=
  omap (fun e => match e with
                 | Call r => if p r then Some r else None
                 | _ => None
                 end)
       (effects w).

Definition is_analysis (r : request) : bool :=
  match r with AnalyzeProductionAssets _ _ => true | _ => false end.

Definition is_render (r : request) : bool :=
  match r with GenerateCinemaFrame _ _ _ _ => true | _ => false end.

Definition alerts (w : World) : list string :=
  omap (fun e => match e with Alert m => Some m | _ => None end) (effects w).

End App.

Import App.

(** ** More of JavaScript: [split], [String(n)], [padStart] *)

Module Text.

Definition dq : string := String (ascii_of_nat 34) EmptyString.

(** [s.split(sep)] for a separator of one character. *)
Fixpoint split_on (sep : ascii) (s : string) : list string :=
  match s with
  | EmptyString => [EmptyString]
  | String c r =>
      if Ascii.eqb c sep then EmptyString :: split_on sep r
      else match split_on sep r with
           | t :: ts => String c t :: ts
           | [] => [String c EmptyString]
           end
  end.

(** [dataUrl.split(',')[1]]: what follows the first comma, up to the next
    one; [None] is [undefined], when there is no comma. *)
Definition payload (dataUrl : string) : option string :=
  split_on ","%char dataUrl !! 1%nat.

(** [String(n)] for a natural number. *)
Definition string_of_nat (n : nat) : string :=
  NilZero.string_of_uint (Nat.to_uint n).

(** [s.padStart(2, '0')] *)
Definition padStart2 (s : string) : string :=
  match String.length s with
  | 0%nat => "00"
  | 1%nat => "0" ++ s
  | _ => s
  end.

End Text.

Import Text.

(** ** [services/geminiService.ts]: what is sent *)

Module GeminiService.

(** A part of the [contents] of a request. The [data] of an inline part is
    [undefined] when the asset's data has no comma. *)
Inductive part : Type :=
| TextPart (text : string)
| InlineData (mimeType : string) (data : option string).

Definition type_name (t : AssetType) : string :=
  match t with
  | Environment => "environment"
  | Character => "character"
  | Prop_ => "prop"
  | Style => "style"
  | Other => "other"
  end.

Definition SEMANTIC_MODEL : string := "gemini-3-pro-preview".

Definition analysis_prompt (textContext : string) : string :=
  nl
  ++ "        Role: Senior Visual Continuity Director (资深视觉连续性导演)." ++ nl
  ++ "        Context: " ++ dq ++ textContext ++ dq ++ nl
  ++ "        " ++ nl
  ++ "        Task: Perform a deep forensic analysis of the attached visual reference images." ++ nl
  ++ "        Extract and define a " ++ dq ++ "VISUAL DNA PROTOCOL" ++ dq ++ " that MUST be followed for every frame in this production." ++ nl
  ++ "        " ++ nl
  ++ "        Structure your technical response into these keys:" ++ nl
  ++ "        1. MASTER_PALETTE: Define specific hex-range colors, saturation levels, and tonal mapping." ++ nl
  ++ "        2. LIGHT_SIGNATURE: Define the light source type (e.g., Rim lighting, Rembrandt, High-key), intensity, and shadows." ++ nl
  ++ "        3. CHARACTER_LOCKED_FEATURES: If characters exist, list exact features (eye color, scars, cloth texture, hair flow)." ++ nl
  ++ "        4. ENV_FIDELITY: Surface materials, atmospheric density (fog, dust), and lens style (anamorphic/spherical)." ++ nl
  ++ "        " ++ nl
  ++ "        OUTPUT FORMAT: Technical English descriptive protocol for an image generation engine." ++ nl
  ++ "    ".

(** The two parts pushed for the asset at [index]. *)
Definition asset_parts (index : nat) (asset : VisualAsset) : list part :=
  [ InlineData "image/jpeg" (payload (data asset));
    TextPart ("REFERENCE_ASSET_" ++ string_of_nat (index + 1)
              ++ ": [Type: " ++ type_name (type asset)
              ++ ", Label: " ++ asset_label asset ++ "]") ].

Fixpoint asset_parts_from (index : nat) (assets : list VisualAsset) : list part :=
  match assets with
  | [] => []
  | asset :: rest =>
      (asset_parts index asset ++ asset_parts_from (S index) rest)%list
  end.

(** [analyzeProductionAssets] up to its [await]: the text returned at once
    for an empty list, or the parts sent to the semantic model. *)
Definition analysis_request (assets : list VisualAsset) (textContext : string)
    : string + list part :=
  match assets with
  | [] => inl "No assets provided. Proceeding with general consistency."
  | _ :: _ =>
      inr (TextPart (analysis_prompt textContext) :: asset_parts_from 0 assets)
  end.




End GeminiService.

Import GeminiService.

(** ** [App.tsx]: the two exports and the card's shot number *)

Module Exports.

(** [`Shot_${String(i+1).padStart(2,'0')}_${frames[i].shotType}.png`] *)
Definition entry_name (i : nat) (f : Frame) : string :=
  "Shot_" ++ padStart2 (string_of_nat (i + 1)) ++ "_" ++ shotType f ++ ".png".

(** The loop of [exportHighResZip] from index [i] on: the files put into
    the folder, in order, each with the base64 text given to the archive. *)
Fixpoint zip_entries_from (i : nat) (frames : list Frame)
    : list (string * option string) :=
  match frames with
  | [] => []
  | f :: rest =>
      match image f with
      | Some img =>
          if truthy img
          then (entry_name i f, payload img) :: zip_entries_from (S i) rest
          else zip_entries_from (S i) rest
      | None => zip_entries_from (S i) rest
      end
  end.

Definition zip_entries (frames : list Frame) : list (string * option string) :=
  zip_entries_from 0 frames.

Definition zip_folder (projectTitle : string) (res : ImageResolution) : string :=
  projectTitle ++ "_" ++ resolution_tag res ++ "_STORYBOARD".

Definition zip_file (projectTitle : string) : string :=
  projectTitle ++ "_分镜序列包.zip".

(** The canvas of [export4KGrid]. All coordinates are integers far below
    2^53, on which JavaScript arithmetic is exact. *)
Definition canvas_width : Z := 3840.
Definition canvas_height : Z := 6480.

Record Rect : Type := {
  rect_left : Z;
  rect_top : Z;
  rect_width : Z;
  rect_height : Z
}.

(** What is drawn for shot [i]: the picture into its cell, the box behind
    the label, and the label. *)
Record CellDraw : Type := {
  draw_picture : string;
  draw_rect : Rect;
  draw_label_box : Rect;
  draw_label : string;
  draw_label_at : Z * Z
}.

Definition draw_cell (i : nat) (img : string) : CellDraw :=
  let col := Z.of_nat (i mod 3) in
  let row := Z.of_nat (i / 3) in
  {| draw_picture := img;
     draw_rect := {| rect_left := col * 1280; rect_top := row * 720;
                     rect_width := 1280; rect_height := 720 |};
     draw_label_box := {| rect_left := col * 1280 + 20; rect_top := row * 720 + 20;
                          rect_width := 120; rect_height := 40 |};
     draw_label := "SHOT " ++ string_of_nat (i + 1);
     draw_label_at := (col * 1280 + 35, row * 720 + 47) |}%Z.

(** The loop of [export4KGrid] from index [i] on: the cells drawn, and
    whether the loop reaches its end. [loads] tells which pictures the
    browser can load; the promise awaited for another one never settles,
    and the handler stays suspended at that shot. *)
Fixpoint grid_draws_from (loads : string -> bool) (i : nat) (frames : list Frame)
    : list CellDraw * bool :=
  match frames with
  | [] => ([], true)
  | f :: rest =>
      match image f with
      | Some img =>
          if truthy img then
            if loads img then
              let '(cells, done) := grid_draws_from loads (S i) rest in
              (draw_cell i img :: cells, done)
            else ([], false)
          else grid_draws_from loads (S i) rest
      | None => grid_draws_from loads (S i) rest
      end
  end.

(** What [export4KGrid] comes to. *)
Inductive GridExport : Type :=
| NoContext
| Stalled (drawn : list CellDraw)
| Finished (drawn : list CellDraw).

(** [export4KGrid]; [ctx] tells whether [canvas.getContext('2d')] gives a
    context. In [Finished], [canvas.toBlob] is called with the cells drawn. *)
Definition export4KGrid (ctx : bool) (loads : string -> bool)
    (frames : list Frame) : GridExport :=
  if ctx then
    let '(cells, done) := grid_draws_from loads 0 frames in
    if done then Finished cells else Stalled cells
  else NoContext.

(** [disabled={... || !frames.some(f => f.image)}] of both export buttons. *)
Definition nothing_to_export (frames : list Frame) : bool :=
  negb (existsb image_present frames).

(** The card's [SHOT #{String(index + 1).padStart(2, '0')}]. *)
Definition shot_number (index : nat) : string :=
  "SHOT #" ++ padStart2 (string_of_nat (index + 1)).

End Exports.

Import Exports.

(** ** Vocabulary of the statements *)

(** A decimal numeral as it can stand before the percent sign: an optional
    sign, integer digits and an optional fraction. *)
Inductive sign : Type := NoSign | Plus | Minus.

Record numeral : Type := {
  numeral_sign : sign;
  int_part : uint;
  frac_part : option uint
}.

Definition sign_string (s : sign) : string :=
  match s with
  | NoSign => ""
  | Plus => "+"
  | Minus => "-"
  end.

Definition is_minus (s : sign) : bool :=
  match s with
  | Minus => true
  | _ => false
  end.

Definition frac_string (f : option uint) : string :=
  match f with
  | Some d => String "."%char (NilEmpty.string_of_uint d)
  | None => ""
  end.

(** The numeral as written. *)
Definition numeral_string (n : numeral) : string :=
  sign_string (numeral_sign n)
  ++ NilEmpty.string_of_uint (int_part n)
  ++ frac_string (frac_part n).

(** The number the numeral denotes. *)
Definition numeral_value (n : numeral) : Q :=
  decimal_value (is_minus (numeral_sign n)) (int_part n)
    (default Nil (frac_part n)) 0.

(** A token holds no space. *)
Definition no_space (s : string) : Prop :=
  Forall (fun c => c <> " "%char) (list_ascii_of_string s).

(** The new anchor of a drag tick as the specification words it: nothing
    when [zoom / 100 - 1 <= 0.01]; otherwise, on each axis, the start
    anchor minus (pointer displacement / viewport extent) * 100
    / (zoom / 100 - 1), clamped to 0..100. The arithmetic is that of
    JavaScript numbers. *)
Definition drag_formula (start pointer pointer0 extent zoom : num) : num :=
  clamp_0_100
    (fsub start
       (fdiv (fmul (fdiv (fsub pointer pointer0) extent) (of_Z 100))
             (fsub (fdiv zoom (of_Z 100)) (of_Z 1)))).

Definition updateDrag (pointer : num * num) (snapshot : DragStart)
    (viewport : num * num) : option (num * num) :=
  if nle (fsub (fdiv (drag_zoom snapshot) (of_Z 100)) (of_Z 1)) (round64 (1 # 100))
  then None
  else Some (drag_formula (to_number (posX snapshot)) (fst pointer)
               (drag_x snapshot) (fst viewport) (drag_zoom snapshot),
             drag_formula (to_number (posY snapshot)) (snd pointer)
               (drag_y snapshot) (snd viewport) (drag_zoom snapshot)).

(** The values of the zoom slider: [min="100" max="350" step="5"]. *)
Definition slider_zooms : list Z :=
  List.map (fun k => (100 + 5 * Z.of_nat k)%Z) (seq 0 51).




(** The message of a failed synthesis call: the promise is rejected, or
    the answer holds no image and [generateCinemaFrame] throws. *)
Definition render_failure (res : ImageResolution) (r : reply) : option string :=
  match r with
  | Error e => Some e
  | Parts parts =>
      match generateCinemaFrame res parts with
      | Rejected e => Some e
      | Resolved _ => None
      end
  | _ => None
  end.

(** A session: one reference image is uploaded, scene and first action are
    typed in. *)
Definition scenario_ready : World :=
  run initial_world
    [ Upload ["a.png"];
      Answer 0 (FileLoaded "q1w2e3r4t" "data:image/png;base64,QUJD");
      EditScene "A storm at sea";
      EditAction 0 "A wave breaks over the bow" ].

(** The first shot is rendered on request; the analysis that precedes it
    leaves the protocol cached. *)
Definition scenario_rendering : World :=
  run scenario_ready [ ClickRender 0; Answer 0 (Text (Some "PROTOCOL")) ].

Definition scenario_cached : World :=
  run scenario_rendering [ Answer 0 (Parts [None; Some "AAAA"]) ].

(** Full generation is requested instead; the analysis has answered and
    the plan is awaited. *)
Definition scenario_planning : World :=
  run scenario_ready [ ClickGenerate; Answer 0 (Text (Some "PROTOCOL")) ].

Definition short_plan : list FrameData :=
  [ {| plan_shotType := Some "CU";
       plan_action := Some "Close on the helmsman" |} ].

(** The answers a render call can get. *)
Definition render_reply (r : reply) : bool :=
  match r with
  | Parts _ | Error _ => true
  | _ => false
  end.

(** Each render call is answered, then its pacing delay elapses. *)
Definition paced (rs : list reply) : list event :=
  flat_map (fun r => [Answer 0 r; Answer 0 Elapsed]) rs.

(** Every array of records around has the length of the storyboard, the
    one in the state and those captured by suspended handlers, and every
    render call in flight is for one of its records. *)
Definition wf_state (s : AppState) : Prop := length (frames s) = 27%nat.

Definition wf_cont (k : render_cont) : Prop :=
  match k with
  | Return => True
  | ThenPace cl _ initialFrames _ =>
      wf_state cl /\ length initialFrames = 27%nat
  end.

Definition wf_task (t : task) : Prop :=
  match t with
  | AwaitFile _ => True
  | AwaitAnalysis cl _ | AwaitPlan cl _ => wf_state cl
  | AwaitRender index _ k => (index < 27)%nat /\ wf_cont k
  | AwaitTimeout cl _ initialFrames _ =>
      wf_state cl /\ length initialFrames = 27%nat
  end.

Definition wf (w : World) : Prop :=
  wf_state (state w) /\ Forall wf_task (parked w).

(** The request made for a record during full generation. *)
Definition render_call (cl : AppState) (protocol : string) (f : Frame) : request :=
  GenerateCinemaFrame (shotPrompt cl f) (assets cl) protocol (targetResolution cl).

(** What the program may send: an analysis only with assets, a render
    only with a protocol text. *)
Definition sendable (e : effect) : Prop :=
  match e with
  | Call (AnalyzeProductionAssets a _) => a <> []
  | Call (GenerateCinemaFrame _ _ p _) => truthy p = true
  | _ => True
  end.

(** A suspended handler in the plan phase of a full generation. *)
Definition plan_phase (t : task) : bool :=
  match t with
  | AwaitAnalysis _ ThenPlan | AwaitPlan _ _ => true
  | _ => false
  end.

Definition plan_phases (w : World) : nat :=
  length (List.filter plan_phase (parked w)).

Definition no_comma (s : string) : Prop :=
  Forall (fun c => c <> ","%char) (list_ascii_of_string s).

(** Two rectangles of the canvas have no point in common. *)
Definition disjoint (a b : Rect) : Prop :=
  (rect_left a + rect_width a <= rect_left b
   \/ rect_left b + rect_width b <= rect_left a
   \/ rect_top a + rect_height a <= rect_top b
   \/ rect_top b + rect_height b <= rect_top a)%Z.

Definition inside (a b : Rect) : Prop :=
  (rect_left b <= rect_left a
   /\ rect_left a + rect_width a <= rect_left b + rect_width b
   /\ rect_top b <= rect_top a
   /\ rect_top a + rect_height a <= rect_top b + rect_height b)%Z.

Definition canvas : Rect :=
  {| rect_left := 0; rect_top := 0;
     rect_width := canvas_width; rect_height := canvas_height |}.

(** The digits [padStart2] yields for a number: one leading zero below
    ten. *)
Definition padded (n : nat) : uint :=
  match Nat.to_uint n with
  | (D0 Nil | D1 Nil | D2 Nil | D3 Nil | D4 Nil | D5 Nil | D6 Nil | D7 Nil
     | D8 Nil | D9 Nil) as u => D0 u
  | u => u
  end.

(** The generating flag counts the full generations in their plan phase. *)
Definition generating_inv (w : World) : Prop :=
  plan_phases w = if isGenerating (state w) then 1%nat else 0%nat.

(** [toFixed(1)] of a number that is not negative writes the tenths next
    to it, the larger ones on a tie. *)
Definition tenths (q : Q) : Z := Qfloor (q * 10 + (1 # 2))%Q.

Definition round1 (q : Q) : Q := (inject_Z (tenths q) / 10)%Q.

(** The crop rectangle lies inside the picture. *)
Definition within_image (c : CropRect) : Prop :=
  exists w h l t : Q,
    c = {| cropWidth := Fin w; cropHeight := Fin h;
           cropLeft := Fin l; cropTop := Fin t |}
    /\ (0 <= l /\ 0 <= t /\ l + w <= 100 /\ t + h <= 100)%Q.

(** An analysis call, a render call for [index], is awaited. *)
Definition analysing (w : World) : Prop :=
  exists n cl k, parked w !! n = Some (AwaitAnalysis cl k).

Definition rendering (index : nat) (w : World) : Prop :=
  exists n res k, parked w !! n = Some (AwaitRender index res k).

(** An indicator that is on has its call in flight. *)
Definition indicators_ok (w : World) : Prop :=
  (isAnalyzing (state w) = true -> analysing w)
  /\ forall i, isRegenerating (state w) i = true -> rendering i w.

(** From [w] to [w'] nothing awaited is dropped, and an indicator that
    has come on has its call in flight. *)
Definition grows (w w' : World) : Prop :=
  (exists l, parked w' = (parked w ++ l)%list)
  /\ (isAnalyzing (state w') = true ->
      isAnalyzing (state w) = true \/ analysing w')
  /\ (forall i, isRegenerating (state w') i = true ->
        isRegenerating (state w) i = true \/ rendering i w').

(** The quotient of two integers in the Standard Library's specification
    of IEEE 754 binary64 (53 bits, exponents up to 1024), as a [num]. *)
Definition of_spec_float (f : SpecFloat.spec_float) : num :=
  match f with
  | SpecFloat.S754_zero _ => Fin 0
  | SpecFloat.S754_infinity s => if s then NInf else PInf
  | SpecFloat.S754_nan => NaN
  | SpecFloat.S754_finite s m e =>
      Fin (Qred ((if s then -1 else 1) * inject_Z (Zpos m) * pow2 e))
  end.

Definition spec_round64 (q : Q) : num :=
  match Qnum (Qred q) with
  | Z0 => Fin 0
  | Zpos n =>
      of_spec_float
        (SpecFloat.SFdiv 53 1024 (SpecFloat.S754_finite false n 0)
           (SpecFloat.S754_finite false (Qden (Qred q)) 0))
  | Zneg n =>
      of_spec_float
        (SpecFloat.SFdiv 53 1024 (SpecFloat.S754_finite true n 0)
           (SpecFloat.S754_finite false (Qden (Qred q)) 0))
  end.

Definition binary64_samples : list Q :=
  (List.map (fun n => Z.of_nat n # 10) (seq 0 1001)
   ++ List.map (fun n => Z.of_nat n # 100) (seq 0 400)
   ++ [ 1 # 3; - (2 # 3); 9007199254740993 # 1; 9007199254740995 # 1;
        99999999999999999999 # 1;
        pow2 (-1074); pow2 (-1075); 3 * pow2 (-1075); pow2 (-1076);
        5 * pow2 (-1076); (pow2 53 + 1) * pow2 (-1075);
        pow2 1024; pow2 1024 - pow2 970; pow2 1024 - pow2 969;
        pow2 1024 - pow2 971; - pow2 1024; pow2 1023;
        Qpower 10 400; Qpower 10 (-400);
        31249999999999996 # 1000000000000000 ])%Q%list.

(** * Properties *)

(** ** Rounding to binary64 *)

Section Binary64.
Local Open Scope Q_scope.

Lemma pow2_pos (e : Z) : 0 < pow2 e.
Proof. apply Qpower_0_lt. reflexivity. Qed.

Lemma pow2_Z (k : Z) : (0 <= k)%Z -> pow2 k == inject_Z (2 ^ k).
Proof. intros Hk. unfold pow2. now rewrite Zpower_Qpower. Qed.

Lemma pow2_add (a b : Z) : pow2 (a + b) == pow2 a * pow2 b.
Proof. unfold pow2. apply Qpower_plus. discriminate. Qed.

Lemma pow2_lt (a b : Z) : (a < b)%Z -> pow2 a < pow2 b.
Proof.
  intros Hab. replace b with (a + (b - a))%Z by lia.
  rewrite pow2_add, (pow2_Z (b - a)) by lia.
  pose proof (pow2_pos a) as Ha.
  assert (H2 : (2 <= 2 ^ (b - a))%Z).
  { change 2%Z with (2 ^ 1)%Z at 1. apply Z.pow_le_mono_r; lia. }
  assert (H2' : 2 <= inject_Z (2 ^ (b - a))).
  { change 2 with (inject_Z 2). now rewrite <- Zle_Qle. }
  nra.
Qed.

Lemma pow2_le (a b : Z) : (a <= b)%Z -> pow2 a <= pow2 b.
Proof.
  intros Hab. destruct (Z.eq_dec a b) as [->|Hne]; [apply Qle_refl|].
  apply Qlt_le_weak, pow2_lt. lia.
Qed.

Lemma pow2_inv_le (a b : Z) : pow2 a <= pow2 b -> (a <= b)%Z.
Proof.
  intros H. destruct (Z_le_gt_dec a b) as [Hle|Hgt]; [exact Hle|].
  assert (pow2 b < pow2 a) by (apply pow2_lt; lia). lra.
Qed.

Lemma Q_as_fraction (q : Q) : q * inject_Z (Zpos (Qden q)) == inject_Z (Qnum q).
Proof.
  destruct q as [n d]. unfold Qeq, Qmult, inject_Z. cbn. lia.
Qed.

Lemma floor_log2_spec (q : Q) :
  0 < q -> pow2 (floor_log2 q) <= q < pow2 (floor_log2 q + 1).
Proof.
  intros Hq. unfold floor_log2.
  set (n := Qnum q). set (d := Zpos (Qden q)).
  assert (Hn : (0 < n)%Z).
  { unfold n. destruct q as [qn qd]. unfold Qlt in Hq. cbn in *. lia. }
  assert (Hd : (0 < d)%Z) by (unfold d; lia).
  pose proof (Z.log2_spec n Hn) as [Hn1 Hn2].
  pose proof (Z.log2_spec d Hd) as [Hd1 Hd2].
  pose proof (Z.log2_nonneg n) as Ha. pose proof (Z.log2_nonneg d) as Hb.
  set (a := Z.log2 n) in *. set (b := Z.log2 d) in *.
  pose proof (Q_as_fraction q) as Hfrac. fold n d in Hfrac.
  assert (Qn1 : inject_Z (2 ^ a) <= inject_Z n) by (now rewrite <- Zle_Qle).
  assert (Qn2 : inject_Z n < inject_Z (2 ^ Z.succ a)) by (now rewrite <- Zlt_Qlt).
  assert (Qd1 : inject_Z (2 ^ b) <= inject_Z d) by (now rewrite <- Zle_Qle).
  assert (Qd2 : inject_Z d < inject_Z (2 ^ Z.succ b)) by (now rewrite <- Zlt_Qlt).
  rewrite <- (pow2_Z a) in Qn1 by lia. rewrite <- (pow2_Z (Z.succ a)) in Qn2 by lia.
  rewrite <- (pow2_Z b) in Qd1 by lia. rewrite <- (pow2_Z (Z.succ b)) in Qd2 by lia.
  assert (Hd0 : 0 < inject_Z d) by (change 0 with (inject_Z 0); now rewrite <- Zlt_Qlt).
  pose proof (pow2_pos b) as Hpb. pose proof (pow2_pos (a - b)) as Hpab.
  pose proof (pow2_pos (a - b - 1)) as Hpab1. pose proof (pow2_pos (a - b + 1)) as Hpab2.
  (* upper: q < 2^(a-b+1) *)
  assert (Hup : q < pow2 (a - b + 1)).
  { assert (E : pow2 (Z.succ a) == pow2 (a - b + 1) * pow2 b).
    { rewrite <- pow2_add. replace (a - b + 1 + b)%Z with (Z.succ a) by lia. reflexivity. }
    (* q * d = n < 2^(a+1) = 2^(a-b+1) * 2^b <= 2^(a-b+1) * d *)
    assert (q * inject_Z d < pow2 (a - b + 1) * inject_Z d) by (rewrite Hfrac; nra).
    nra. }
  (* lower: 2^(a-b-1) < q *)
  assert (Hlo : pow2 (a - b - 1) < q).
  { assert (E : pow2 a == pow2 (a - b - 1) * pow2 (Z.succ b)).
    { rewrite <- pow2_add. replace (a - b - 1 + Z.succ b)%Z with a by lia. reflexivity. }
    assert (pow2 (a - b - 1) * inject_Z d < q * inject_Z d) by (rewrite Hfrac; nra).
    nra. }
  destruct (Qlt_le_dec q (pow2 (a - b))) as [Hlt|Hle].
  - replace (a - b - 1 + 1)%Z with (a - b)%Z by lia. split; [lra|exact Hlt].
  - split; [exact Hle|exact Hup].
Qed.

Lemma round_half_even_le (x : Q) (N : Z) : x <= inject_Z N -> (round_half_even x <= N)%Z.
Proof.
  intros Hx. unfold round_half_even.
  pose proof (Qfloor_le x) as Hf. pose proof (Qlt_floor x) as Hf'.
  set (f := Qfloor x) in *.
  rewrite inject_Z_plus in Hf'. change (inject_Z 1) with 1 in Hf'.
  assert (HfN : (f <= N)%Z) by (rewrite Zle_Qle; lra).
  destruct (Z.eq_dec f N) as [E|E].
  - assert (Hx' : x == inject_Z f) by (rewrite E in *; lra).
    assert (Hc : (x - inject_Z f ?= 1 # 2) = Lt).
    { rewrite <- Qlt_alt. lra. }
    rewrite Hc. lia.
  - destruct (x - inject_Z f ?= 1 # 2); [destruct (Z.even f)|..]; lia.
Qed.

Lemma round_half_even_ge (x : Q) (N : Z) : inject_Z N <= x -> (N <= round_half_even x)%Z.
Proof.
  intros Hx. unfold round_half_even.
  pose proof (Qfloor_le x) as Hf. pose proof (Qlt_floor x) as Hf'.
  set (f := Qfloor x) in *.
  rewrite inject_Z_plus in Hf'. change (inject_Z 1) with 1 in Hf'.
  assert (HfN : (N <= f)%Z).
  { assert (inject_Z N < inject_Z (f + 1)) by (rewrite inject_Z_plus; change (inject_Z 1) with 1; lra).
    rewrite <- Zlt_Qlt in H. lia. }
  destruct (x - inject_Z f ?= 1 # 2); [destruct (Z.even f)|..]; lia.
Qed.

Lemma round_half_even_Z (x : Q) (N : Z) : x == inject_Z N -> round_half_even x = N.
Proof.
  intros Hx. apply Z.le_antisymm.
  - apply round_half_even_le. rewrite Hx. apply Qle_refl.
  - apply round_half_even_ge. rewrite Hx. apply Qle_refl.
Qed.

(** A positive number is rounded to a number that is not negative, or
    overflows. *)
Lemma round64_pos_nonneg (q : Q) :
  0 < q -> round64_pos q = PInf \/ exists v, round64_pos q = Fin v /\ 0 <= v.
Proof.
  intros Hq. unfold round64_pos.
  set (e := Z.max (floor_log2 q - 52) (-1074)).
  set (m := round_half_even (q / pow2 e)).
  destruct (Qle_bool (pow2 1024) (inject_Z m * pow2 e)); [now left|right].
  eexists; split; [reflexivity|]. rewrite Qred_correct.
  pose proof (pow2_pos e) as He.
  assert (Hm : (0 <= m)%Z).
  { apply round_half_even_ge. change (inject_Z 0) with 0.
    apply Qle_shift_div_l; [exact He|]. lra. }
  assert (0 <= inject_Z m) by (change 0 with (inject_Z 0); now rewrite <- Zle_Qle).
  nra.
Qed.

(** Rounding does not cross a power of two. *)
Lemma round64_pos_le_pow2 (q : Q) (k : Z) :
  0 < q -> q <= pow2 k -> (-1074 <= k <= 1023)%Z ->
  exists v, round64_pos q = Fin v /\ 0 <= v <= pow2 k.
Proof.
  intros Hq Hk Hrange.
  destruct (floor_log2_spec q Hq) as [Hfl _].
  assert (Hflk : (floor_log2 q <= k)%Z) by (apply pow2_inv_le; lra).
  unfold round64_pos.
  set (e := Z.max (floor_log2 q - 52) (-1074)).
  assert (Hek : (e <= k)%Z) by (unfold e; lia).
  set (m := round_half_even (q / pow2 e)).
  pose proof (pow2_pos e) as He.
  assert (Hke : pow2 k == inject_Z (2 ^ (k - e)) * pow2 e).
  { rewrite <- pow2_Z by lia. rewrite <- pow2_add. now replace (k - e + e)%Z with k by lia. }
  assert (Hm : (m <= 2 ^ (k - e))%Z).
  { apply round_half_even_le. apply Qle_shift_div_r; [exact He|]. lra. }
  assert (Hm0 : (0 <= m)%Z).
  { apply round_half_even_ge. change (inject_Z 0) with 0.
    apply Qle_shift_div_l; [exact He|]. lra. }
  assert (Qm : inject_Z m <= inject_Z (2 ^ (k - e))) by (now rewrite <- Zle_Qle).
  assert (Qm0 : 0 <= inject_Z m) by (change 0 with (inject_Z 0); now rewrite <- Zle_Qle).
  assert (Hv : 0 <= inject_Z m * pow2 e <= pow2 k) by (split; nra).
  assert (Hno : Qle_bool (pow2 1024) (inject_Z m * pow2 e) = false).
  { destruct (Qle_bool (pow2 1024) (inject_Z m * pow2 e)) eqn:E; [|reflexivity].
    apply Qle_bool_iff in E.
    assert (pow2 k < pow2 1024) by (apply pow2_lt; lia). lra. }
  rewrite Hno. eexists; split; [reflexivity|]. now rewrite Qred_correct.
Qed.

Lemma Qred_sign (q : Q) :
  match Qnum (Qred q) with
  | Z0 => q == 0
  | Zpos _ => 0 < q
  | Zneg _ => q < 0
  end.
Proof.
  pose proof (Qred_correct q) as H.
  destruct (Qred q) as [n d] eqn:E. cbn [Qnum].
  destruct n; rewrite <- H; unfold Qeq, Qlt; cbn; lia.
Qed.

Lemma round64_not_NaN (q : Q) : round64 q <> NaN.
Proof.
  unfold round64. pose proof (Qred_sign q) as Hs.
  destruct (Qnum (Qred q)) eqn:E; [discriminate|..].
  - assert (Hp : 0 < Qred q) by (now rewrite Qred_correct).
    destruct (round64_pos_nonneg _ Hp) as [->|(v & -> & _)]; discriminate.
  - assert (Hp : 0 < - Qred q) by (rewrite Qred_correct; lra).
    destruct (round64_pos_nonneg _ Hp) as [->|(v & -> & _)]; discriminate.
Qed.

(** What is not positive stays so. *)
Lemma round64_nonpos (q : Q) :
  q <= 0 -> round64 q = NInf \/ exists v, round64 q = Fin v /\ v <= 0.
Proof.
  intros Hq. unfold round64. pose proof (Qred_sign q) as Hs.
  destruct (Qnum (Qred q)) eqn:E.
  - right. exists 0. split; [reflexivity|lra].
  - lra.
  - assert (Hp : 0 < - Qred q) by (rewrite Qred_correct; lra).
    destruct (round64_pos_nonneg _ Hp) as [->|(v & -> & Hv)]; [now left|right].
    exists (- v). split; [reflexivity|lra].
Qed.

Lemma round64_le_pow2 (q : Q) (k : Z) :
  q <= pow2 k -> (-1074 <= k <= 1023)%Z ->
  round64 q = NInf \/ exists v, round64 q = Fin v /\ v <= pow2 k.
Proof.
  intros Hq Hk. pose proof (pow2_pos k) as Hpk.
  destruct (Qlt_le_dec 0 q) as [Hpos|Hneg].
  - right. unfold round64. pose proof (Qred_sign q) as Hs.
    destruct (Qnum (Qred q)) eqn:E; try lra.
    assert (Hp : 0 < Qred q) by (now rewrite Qred_correct).
    assert (Hle : Qred q <= pow2 k) by (now rewrite Qred_correct).
    destruct (round64_pos_le_pow2 _ k Hp Hle Hk) as (v & -> & Hv).
    exists v. split; [reflexivity|apply Hv].
  - destruct (round64_nonpos q Hneg) as [->|(v & -> & Hv)]; [now left|right].
    exists v. split; [reflexivity|lra].
Qed.

(** Integers of up to 53 bits are numbers. *)
Lemma round64_pos_Z (n : Z) :
  (0 < n < 2 ^ 53)%Z -> round64_pos (inject_Z n) = Fin (inject_Z n).
Proof.
  intros [Hn0 Hn53].
  pose proof (Z.log2_spec n Hn0) as [Hl1 Hl2]. pose proof (Z.log2_nonneg n) as Hl0.
  assert (Hl : (Z.log2 n < 53)%Z) by (apply Z.log2_lt_pow2; lia).
  assert (Hfl : floor_log2 (inject_Z n) = Z.log2 n).
  { unfold floor_log2. cbn [inject_Z Qnum Qden]. change (Z.log2 1) with 0%Z.
    rewrite Z.sub_0_r.
    destruct (Qlt_le_dec (inject_Z n) (pow2 (Z.log2 n))) as [H|H]; [|reflexivity].
    exfalso. rewrite pow2_Z in H by lia.
    rewrite <- Zlt_Qlt in H. lia. }
  unfold round64_pos. rewrite Hfl.
  set (e := Z.max (Z.log2 n - 52) (-1074)).
  assert (He : (-1074 <= e <= 0)%Z) by (unfold e; lia).
  pose proof (pow2_pos e) as Hpe.
  assert (Hinv : pow2 (- e) * pow2 e == 1).
  { rewrite <- pow2_add. now replace (- e + e)%Z with 0%Z by lia. }
  assert (Hopp : pow2 (- e) == / pow2 e) by (unfold pow2; apply Qpower_opp).
  assert (Hx : inject_Z n / pow2 e == inject_Z (n * 2 ^ (- e))).
  { rewrite inject_Z_mult, <- pow2_Z by lia. unfold Qdiv. now rewrite Hopp. }
  rewrite (round_half_even_Z _ _ Hx).
  assert (Hv : inject_Z (n * 2 ^ (- e)) * pow2 e == inject_Z n).
  { rewrite inject_Z_mult, <- pow2_Z by lia. rewrite <- Qmult_assoc, Hinv. ring. }
  assert (Hno : Qle_bool (pow2 1024) (inject_Z (n * 2 ^ (- e)) * pow2 e) = false).
  { destruct (Qle_bool _ _) eqn:E; [|reflexivity].
    apply Qle_bool_iff in E. rewrite Hv, pow2_Z in E by lia.
    rewrite <- Zle_Qle in E.
    assert (2 ^ 53 < 2 ^ 1024)%Z by (apply Z.pow_lt_mono_r; lia). lia. }
  rewrite Hno. f_equal.
  rewrite (Qred_complete _ _ Hv). apply Qcanon.Qred_identity. cbn. apply Z.gcd_1_r.
Qed.

Lemma round64_Z (n : Z) :
  (- 2 ^ 53 < n < 2 ^ 53)%Z -> round64 (inject_Z n) = Fin (inject_Z n).
Proof.
  intros Hn. unfold round64.
  assert (Hred : Qred (inject_Z n) = inject_Z n)
    by (apply Qcanon.Qred_identity; cbn; apply Z.gcd_1_r).
  rewrite Hred. cbn [inject_Z Qnum]. destruct n as [|p|p].
  - reflexivity.
  - apply (round64_pos_Z (Zpos p)). lia.
  - change (nneg (round64_pos (inject_Z (Zpos p))) = Fin (inject_Z (Z.neg p))).
    rewrite (round64_pos_Z (Zpos p)) by lia. reflexivity.
Qed.

Lemma round64_Qeq (q q' : Q) : q == q' -> round64 q = round64 q'.
Proof. intros H. unfold round64. now rewrite (Qred_complete _ _ H). Qed.

(** [round64] and the division of the Standard Library's specification
    of binary64 give the same numbers: on tenths and hundredths, next to
    the smallest and the largest number, on ties and beyond the range. *)
Lemma round64_agrees_with_SpecFloat :
  List.map round64 binary64_samples = List.map spec_round64 binary64_samples.
Proof. vm_compute. reflexivity. Qed.

(** [0.1], [1.01 - 1] and [0.01] in binary64. *)
Lemma round64_examples :
  round64 (1 # 10) = Fin (3602879701896397 # 36028797018963968)
  /\ fsub (round64 (101 # 100)) (of_Z 1) = Fin (45035996273705 # 4503599627370496)
  /\ round64 (1 # 100) = Fin (5764607523034235 # 576460752303423488)
  /\ round64 (Qpower 10 309) = PInf
  /\ round64 (99999999999999999999 # 1) = Fin (100000000000000000000 # 1).
Proof. vm_compute. repeat split. Qed.

End Binary64.

(** ** Arithmetic on [num] *)

Section Arithmetic.
Local Open Scope Q_scope.

Lemma ndiv_Fin (a b : Q) : 0 < b -> ndiv (Fin a) (Fin b) = Fin (a / b).
Proof.
  intros Hb. unfold ndiv.
  apply Qgt_alt in Hb. now rewrite Hb.
Qed.

Lemma ndiv_Fin_100 (a : Q) : ndiv (Fin a) (Fin 100) = Fin (a / 100).
Proof. apply ndiv_Fin. reflexivity. Qed.

Lemma nle_Fin (a b : Q) : nle (Fin a) (Fin b) = Qle_bool a b.
Proof. reflexivity. Qed.

Lemma Qle_bool_false (a b : Q) : b < a -> Qle_bool a b = false.
Proof.
  intros H. destruct (Qle_bool a b) eqn:E; [|reflexivity].
  apply Qle_bool_iff in E. lra.
Qed.

Lemma Qle_bool_true (a b : Q) : a <= b -> Qle_bool a b = true.
Proof. apply Qle_bool_iff. Qed.

(** The crop width as a rational, for a zoom of at least 100. *)
Lemma crop_width_bounds (z w : Q) :
  100 <= z -> w == 100 / (z / 100) -> 0 < w /\ w <= 100 /\ w * z == 10000.
Proof.
  intros Hz Hw.
  assert (Hwz : w * z == 10000) by (rewrite Hw; field; lra).
  repeat split; [nra | nra | exact Hwz].
Qed.

End Arithmetic.

(** ** The crop rectangle *)

Section Crop.
Local Open Scope Q_scope.

(** C5. For a zoom in [100, 350] and an anchor with both components in
    [0, 100], the crop rectangle has width = height = 100 / (zoom / 100),
    left = x * (1 - width / 100), top = y * (1 - height / 100); it lies
    inside the image (0 <= left, 0 <= top, left + width <= 100,
    top + height <= 100), and at zoom 100 it is the whole image whatever
    the anchor. Numbers are exact rationals. *)
Theorem crop_stays_within_image (z ax ay : Q) :
  100 <= z <= 350 -> 0 <= ax <= 100 -> 0 <= ay <= 100 ->
  exists w h l t : Q,
    crop (Fin z) {| x := Number (Fin ax); y := Number (Fin ay) |}
    = {| cropWidth := Fin w; cropHeight := Fin h;
         cropLeft := Fin l; cropTop := Fin t |}
    /\ w == 100 / (z / 100) /\ h == 100 / (z / 100)
    /\ l == ax * (1 - w / 100) /\ t == ay * (1 - h / 100)
    /\ 0 <= l /\ 0 <= t /\ l + w <= 100 /\ t + h <= 100
    /\ (z == 100 -> w == 100 /\ h == 100 /\ l == 0 /\ t == 0).
Proof.
  intros [Hz1 Hz2] [Hx1 Hx2] [Hy1 Hy2].
  set (w := 100 / (z / 100)).
  exists w, w, (ax * (1 - w / 100)), (ay * (1 - w / 100)).
  destruct (crop_width_bounds z w Hz1 (Qeq_refl _)) as (Hw0 & Hw100 & Hwz).
  split.
  { unfold crop, of_Z; cbn [x y to_number inject_Z].
    rewrite ndiv_Fin_100.
    rewrite (ndiv_Fin _ (z / 100)) by (apply Qlt_shift_div_l; lra).
    rewrite ndiv_Fin_100. reflexivity. }
  assert (Hfrac : 1 - w / 100 == (100 - w) / 100) by field.
  assert (Hpos : 0 <= (100 - w) / 100 <= 1)
    by (split; [apply Qle_shift_div_l | apply Qle_shift_div_r]; lra).
  split; [reflexivity|]. split; [reflexivity|].
  split; [reflexivity|]. split; [reflexivity|].
  assert (Hd : w == 100 - 100 * ((100 - w) / 100)) by field.
  rewrite !Hfrac.
  set (d := (100 - w) / 100) in *.
  split; [nra|]. split; [nra|].
  split; [nra|]. split; [nra|].
  intros Hz. assert (Hw : w == 100) by nra.
  assert (Hd0 : d == 0) by lra.
  rewrite Hd0. repeat split; try exact Hw; ring.
Qed.

Lemma crop_stays_within_image_witness :
  100 <= 240 <= 350 /\ 0 <= 50 <= 100 /\ 0 <= 15 <= 100 /\
  exists w h l t : Q,
    crop (Fin 240) {| x := Number (Fin 50); y := Number (Fin 15) |}
    = {| cropWidth := Fin w; cropHeight := Fin h;
         cropLeft := Fin l; cropTop := Fin t |}
    /\ w == 100 / (240 / 100) /\ h == 100 / (240 / 100)
    /\ l == 50 * (1 - w / 100) /\ t == 15 * (1 - h / 100)
    /\ 0 <= l /\ 0 <= t /\ l + w <= 100 /\ t + h <= 100
    /\ (240 == 100 -> w == 100 /\ h == 100 /\ l == 0 /\ t == 0).
Proof.
  assert (H1 : 100 <= 240 <= 350) by (split; discriminate).
  assert (H2 : 0 <= 50 <= 100) by (split; discriminate).
  assert (H3 : 0 <= 15 <= 100) by (split; discriminate).
  exact (conj H1 (conj H2 (conj H3 (crop_stays_within_image 240 50 15 H1 H2 H3)))).
Defined.

End Crop.

(** ** Strings *)

Section Strings.

Lemma append_cons (c : ascii) (a r : string) :
  String c a ++ r = String c (a ++ r).
Proof. reflexivity. Qed.

Lemma append_nil (r : string) : "" ++ r = r.
Proof. reflexivity. Qed.

Lemma split_space_no_space (a : string) :
  no_space a -> split_space a = [a].
Proof.
  unfold no_space. induction a as [|c a IH]; cbn; [reflexivity|].
  intros H. inversion_clear H as [|? ? Hc Ha].
  destruct (Ascii.eqb_spec c " "%char) as [->|_]; [congruence|].
  now rewrite (IH Ha).
Qed.

Lemma split_space_app (a b : string) :
  no_space a -> split_space (a ++ String " "%char b) = a :: split_space b.
Proof.
  unfold no_space. induction a as [|c a IH]; [reflexivity|].
  rewrite append_cons. cbn [split_space list_ascii_of_string].
  intros H. inversion_clear H as [|? ? Hc Ha].
  destruct (Ascii.eqb_spec c " "%char) as [->|_]; [congruence|].
  now rewrite (IH Ha).
Qed.

Lemma no_space_app (a b : string) :
  no_space a -> no_space b -> no_space (a ++ b).
Proof.
  unfold no_space. induction a as [|c a IH]; [auto|].
  rewrite append_cons. cbn [list_ascii_of_string].
  intros H Hb. inversion_clear H. constructor; auto.
Qed.

Lemma no_space_digits (u : uint) : no_space (NilEmpty.string_of_uint u).
Proof.
  unfold no_space. induction u; cbn; constructor; try discriminate; assumption.
Qed.

Lemma ends_with_percent_app (a rest : string) :
  ends_with_percent (a ++ String "%"%char rest)
  = ends_with_percent (String "%"%char rest).
Proof.
  induction a as [|c a IH]; [reflexivity|].
  rewrite append_cons. cbn [ends_with_percent]. rewrite IH.
  destruct a; reflexivity.
Qed.

Lemma take_digits_digits (u : uint) (r : string) :
  take_digits r = (Nil, r) ->
  take_digits (NilEmpty.string_of_uint u ++ r) = (u, r).
Proof.
  intros Hr. induction u; cbn [NilEmpty.string_of_uint];
    rewrite ?append_nil, ?append_cons; cbn [take_digits digit_of];
    rewrite ?IHu; auto.
Qed.

End Strings.

(** ** [parsePosition] *)

Section ParsePosition.

Lemma append_assoc (a b c : string) : (a ++ b) ++ c = a ++ b ++ c.
Proof.
  induction a as [|x a IH]; [reflexivity|].
  rewrite !append_cons. now rewrite IH.
Qed.

Lemma truthy_app_r (a b : string) : truthy b = true -> truthy (a ++ b) = true.
Proof. destruct a; [now rewrite append_nil | reflexivity]. Qed.

Lemma ends_with_percent_truthy (s : string) :
  ends_with_percent s = true -> truthy s = true.
Proof. now destruct s. Qed.

(** No key of [map] and no member of [Object.prototype] ends in a
    percent sign. *)
Lemma get_map_percent (p : string) :
  ends_with_percent p = true -> get StoryboardCard.map p = Undefined.
Proof.
  intros Hp. unfold get, StoryboardCard.map, is_prototype_name, object_prototype_names.
  cbn [assoc existsb].
  repeat match goal with
         | |- context [String.eqb p ?k] =>
             destruct (String.eqb_spec p k) as [->|_]; [discriminate Hp|]
         end.
  reflexivity.
Qed.

Lemma parse_percent (p : string) :
  ends_with_percent p = true -> parse p = Number (parseFloat p).
Proof.
  intros Hp. unfold parse. now rewrite (get_map_percent p Hp), Hp.
Qed.

(** The keywords. *)
Lemma parse_keywords :
  parse "left" = Number (Fin 0) /\ parse "center" = Number (Fin 50)
  /\ parse "right" = Number (Fin 100) /\ parse "top" = Number (Fin 0)
  /\ parse "bottom" = Number (Fin 100).
Proof. repeat split. Qed.

(** A token that is no keyword, no inherited member and has no percent
    sign at its end gives 50. *)
Lemma parse_fallback (p : string) :
  get StoryboardCard.map p = Undefined -> ends_with_percent p = false ->
  parse p = Number (Fin 50).
Proof. intros H1 H2. unfold parse. now rewrite H1, H2. Qed.

Lemma parsePosition_examples :
  parsePosition "left top" = {| x := Number (Fin 0); y := Number (Fin 0) |}
  /\ parsePosition "center" = {| x := Number (Fin 50); y := Number (Fin 50) |}
  /\ parsePosition "30% 70%" = {| x := Number (Fin 30); y := Number (Fin 70) |}.
Proof. repeat split. Qed.

(** An empty or missing second token reads as [center]. *)
Lemma parsePosition_single (t : string) :
  no_space t -> parsePosition t = {| x := parse (or_else t "center"); y := Number (Fin 50) |}.
Proof.
  intros Ht. unfold parsePosition. now rewrite (split_space_no_space t Ht).
Qed.





End ParsePosition.

(** ** Percentages are read as written *)

Section Percentages.

Lemma digits_head (i : uint) (r : string) :
  i <> Nil ->
  exists c s, NilEmpty.string_of_uint i ++ r = String c s
    /\ is_white c = false /\ c <> "-"%char /\ c <> "+"%char
    /\ c <> "I"%char /\ c <> " "%char.
Proof.
  intros Hi. destruct i; [congruence|..];
    cbn [NilEmpty.string_of_uint]; rewrite append_cons;
    eexists _, _; (split; [reflexivity|]); repeat split; discriminate.
Qed.

Lemma take_digits_frac (f : option uint) (rest : string) :
  take_digits (frac_string f ++ String "%"%char rest)
  = (Nil, frac_string f ++ String "%"%char rest).
Proof. destruct f; reflexivity. Qed.

Lemma unsigned_literal_numeral (neg : bool) (i : uint) (f : option uint)
    (rest : string) :
  i <> Nil ->
  unsigned_literal neg
    (NilEmpty.string_of_uint i ++ frac_string f ++ String "%"%char rest)
  = round64 (decimal_value neg i (default Nil f) 0).
Proof.
  intros Hi. unfold unsigned_literal.
  destruct (digits_head i (frac_string f ++ String "%"%char rest) Hi)
    as (c & s & Hs & _ & _ & _ & HI & _).
  assert (Hinf : starts_with "Infinity"
                   (NilEmpty.string_of_uint i ++ frac_string f ++ String "%"%char rest)
                 = false).
  { rewrite Hs. cbn [starts_with].
    destruct (Ascii.eqb_spec "I"%char c) as [E|_]; [congruence|reflexivity]. }
  rewrite Hinf, (take_digits_digits i _ (take_digits_frac f rest)).
  destruct f as [d|]; cbn [frac_string default].
  - rewrite append_cons.
    rewrite (take_digits_digits d (String "%"%char rest) eq_refl).
    cbn [exponent Ascii.eqb orb]. now destruct i, d.
  - rewrite append_nil. cbn [exponent]. now destruct i.
Qed.

Lemma parseFloat_numeral (n : numeral) (rest : string) :
  int_part n <> Nil ->
  parseFloat (numeral_string n ++ String "%"%char rest)
  = round64 (numeral_value n).
Proof.
  destruct n as [s i f]; cbn [int_part]. intros Hi.
  unfold numeral_string, numeral_value, parseFloat;
    cbn [numeral_sign int_part frac_part].
  rewrite !append_assoc.
  destruct (digits_head i (frac_string f ++ String "%"%char rest) Hi)
    as (c & r & Hs & Hw & Hm & Hp & _ & _).
  destruct s; cbn [sign_string is_minus].
  - rewrite append_nil, Hs. cbn [skip_white]. rewrite Hw.
    assert (Hsign : take_sign (String c r) = (false, String c r)).
    { unfold take_sign.
      destruct (Ascii.eqb_spec c "-"%char) as [->|_]; [congruence|].
      destruct (Ascii.eqb_spec c "+"%char) as [->|_]; [congruence|].
      destruct c as [[] [] [] [] [] [] [] []]; try reflexivity; congruence. }
    rewrite Hsign, <- Hs. now apply unsigned_literal_numeral.
  - rewrite append_cons, append_nil. cbn [skip_white is_white take_sign].
    now apply unsigned_literal_numeral.
  - rewrite append_cons, append_nil. cbn [skip_white is_white take_sign].
    now apply unsigned_literal_numeral.
Qed.

Lemma no_space_numeral (n : numeral) (rest : string) :
  no_space rest -> no_space (numeral_string n ++ rest).
Proof.
  intros Hr. unfold numeral_string. rewrite !append_assoc.
  apply no_space_app.
  { destruct (numeral_sign n); repeat constructor; discriminate. }
  apply no_space_app; [apply no_space_digits|].
  apply no_space_app; [|exact Hr].
  destruct (frac_part n) as [d|]; [|constructor].
  constructor; [discriminate|apply no_space_digits].
Qed.

(** What [decimal_value] computes, read off the digits: the integer part
    plus the fraction digits over the matching power of ten, with the
    sign. *)
Lemma usize_nb_digits (d : uint) :
  DecimalPos.Unsigned.usize d = N.of_nat (nb_digits d).
Proof.
  induction d; cbn [DecimalPos.Unsigned.usize nb_digits]; rewrite ?IHd; lia.
Qed.

Lemma of_uint_app (i f : uint) :
  Z.of_uint (Decimal.app i f)
  = (Z.of_uint i * 10 ^ Z.of_nat (nb_digits f) + Z.of_uint f)%Z.
Proof.
  rewrite <- (DecimalFacts.rev_rev (Decimal.app i f)),
    <- (of_list_to_list (Decimal.rev (Decimal.app i f))).
  rewrite rev_spec, app_spec, List.rev_app_distr.
  rewrite <- !rev_spec, <- app_spec, of_list_to_list.
  unfold Z.of_uint. rewrite Unsigned.of_lu_rev.
  unfold Decimal.app. rewrite Unsigned.of_lu_revapp, !DecimalFacts.rev_rev.
  rewrite <- !Unsigned.of_lu_rev, !DecimalFacts.rev_rev.
  rewrite usize_nb_digits, N2Z.inj_add, N2Z.inj_mul, N2Z.inj_pow, nat_N_Z.
  change (Z.of_N 10) with 10%Z. ring.
Qed.

Lemma numeral_value_spec (n : numeral) :
  let f := default Nil (frac_part n) in
  (numeral_value n
   == (if is_minus (numeral_sign n) then -1 else 1)
      * (inject_Z (Z.of_uint (int_part n))
         + inject_Z (Z.of_uint f) / inject_Z (10 ^ Z.of_nat (nb_digits f))))%Q.
Proof.
  intros f. unfold numeral_value, decimal_value. fold f.
  rewrite Qred_correct, of_uint_app.
  set (k := Z.of_nat (nb_digits f)).
  assert (Hk : (0 <= k)%Z) by (unfold k; lia).
  replace (0 - k)%Z with (- k)%Z by lia.
  rewrite Qpower_opp.
  assert (Hpow : (10 ^ k == inject_Z (10 ^ k))%Q)
    by (now rewrite Zpower_Qpower).
  rewrite Hpow.
  assert (Hnz : ~ (inject_Z (10 ^ k) == 0)%Q).
  { intros H. unfold Qeq in H; cbn in H.
    assert (0 < 10 ^ k)%Z by (apply Z.pow_pos_nonneg; lia). lia. }
  destruct (is_minus (numeral_sign n));
    rewrite ?inject_Z_opp, inject_Z_plus, inject_Z_mult; field; exact Hnz.
Qed.

(** C10. An explicit percentage is not clamped: for every pair of tokens
    [<numeral>%] the anchor holds the two numbers the numerals denote, as
    JavaScript numbers (the binary64 numbers next to them), whatever
    their size or sign; integers of up to 53 bits are returned as they
    are. So ["150% -20%"] gives x = 150 and y = -20, outside the range
    0..100 of the data model. *)
Theorem parsePosition_keeps_percentages (nx ny : numeral) :
  int_part nx <> Nil -> int_part ny <> Nil ->
  let anchor := parsePosition (numeral_string nx ++ "% " ++ numeral_string ny ++ "%") in
  anchor = {| x := Number (round64 (numeral_value nx));
              y := Number (round64 (numeral_value ny)) |}
  /\ forall a b : Z,
       (numeral_value nx == inject_Z a)%Q -> (numeral_value ny == inject_Z b)%Q ->
       (- 2 ^ 53 < a < 2 ^ 53)%Z -> (- 2 ^ 53 < b < 2 ^ 53)%Z ->
       anchor = {| x := Number (of_Z a); y := Number (of_Z b) |}.
Proof.
  intros Hx Hy anchor.
  assert (Ha : anchor = {| x := Number (round64 (numeral_value nx));
                           y := Number (round64 (numeral_value ny)) |}).
  { unfold anchor.
    set (tx := numeral_string nx ++ "%").
    set (ty := numeral_string ny ++ "%").
    assert (Hsx : no_space tx) by (apply no_space_numeral; repeat constructor; discriminate).
    assert (Hsy : no_space ty) by (apply no_space_numeral; repeat constructor; discriminate).
    assert (Hex : ends_with_percent tx = true) by apply ends_with_percent_app.
    assert (Hey : ends_with_percent ty = true) by apply ends_with_percent_app.
    replace (numeral_string nx ++ "% " ++ ty) with (tx ++ String " "%char ty)
      by (unfold tx; now rewrite append_assoc).
    unfold parsePosition.
    rewrite (split_space_app tx ty Hsx), (split_space_no_space ty Hsy).
    change ([tx; ty] !! 0%nat) with (Some tx).
    change ([tx; ty] !! 1%nat) with (Some ty).
    cbn [default]. unfold or_else, Datatypes.id.
    rewrite (ends_with_percent_truthy tx Hex), (ends_with_percent_truthy ty Hey).
    rewrite (parse_percent tx Hex), (parse_percent ty Hey).
    unfold tx, ty. now rewrite !parseFloat_numeral. }
  split; [exact Ha|].
  intros a b Ea Eb Hra Hrb. rewrite Ha.
  rewrite (round64_Qeq _ _ Ea), (round64_Qeq _ _ Eb).
  now rewrite (round64_Z a Hra), (round64_Z b Hrb).
Qed.

Lemma parsePosition_keeps_percentages_witness :
  D1 (D5 (D0 Nil)) <> Nil /\ D2 (D0 Nil) <> Nil /\
  parsePosition "150% -20%"
  = {| x := Number (Fin 150); y := Number (Fin (-20)) |}.
Proof.
  split; [discriminate|]. split; [discriminate|].
  refine (proj2 (parsePosition_keeps_percentages
           {| numeral_sign := NoSign; int_part := D1 (D5 (D0 Nil)); frac_part := None |}
           {| numeral_sign := Minus; int_part := D2 (D0 Nil); frac_part := None |}
           _ _) 150%Z (-20)%Z _ _ _ _);
    try discriminate; try reflexivity; split; reflexivity.
Defined.

End Percentages.

(** ** Dragging *)

Section Drag.
Local Open Scope Q_scope.

Lemma clamp_Fin (v : Q) :
  exists v', clamp_0_100 (Fin v) = Fin v' /\ v' == Qmax 0 (Qmin 100 v).
Proof.
  pose proof (Q.min_spec 100 v) as Hmin.
  pose proof (Q.max_spec 0 (Qmin 100 v)) as Hmax.
  unfold clamp_0_100, math_min, math_max, of_Z, nle.
  change (inject_Z 100) with 100. change (inject_Z 0) with 0.
  destruct (Qle_bool 100 v) eqn:E1.
  - apply Qle_bool_iff in E1.
    exists 100; split; [reflexivity|]. lra.
  - assert (Hv : v < 100).
    { destruct (Qlt_le_dec v 100) as [H|H]; [exact H|].
      apply Qle_bool_iff in H. congruence. }
    destruct (Qle_bool 0 v) eqn:E2.
    + apply Qle_bool_iff in E2. exists v; split; [reflexivity|]. lra.
    + exists 0; split; [reflexivity|].
      assert (Hv0 : v < 0).
      { destruct (Qlt_le_dec v 0) as [H|H]; [exact H|].
        apply Qle_bool_iff in H. congruence. }
      lra.
Qed.

(** Whatever is clamped is a number from 0 to 100, or [NaN]. *)
Lemma clamp_in_range (a : num) :
  clamp_0_100 a = NaN \/ exists v, clamp_0_100 a = Fin v /\ 0 <= v <= 100.
Proof.
  destruct a as [q| | |].
  - right. destruct (clamp_Fin q) as (v & Hv & Hq). exists v. split; [exact Hv|].
    pose proof (Q.min_spec 100 q). pose proof (Q.max_spec 0 (Qmin 100 q)). lra.
  - right. exists 100. split; [reflexivity|lra].
  - right. exists 0. split; [reflexivity|lra].
  - now left.
Qed.

Lemma toFixed1_Qeq (q q' : Q) : q == q' -> toFixed1 (Fin q) = toFixed1 (Fin q').
Proof.
  intros H. unfold toFixed1, fixed1_nonneg.
  destruct (Qlt_le_dec q 0), (Qlt_le_dec q' 0); try lra.
  - now rewrite H.
  - now rewrite H.
Qed.

(** A drag session does not begin at a zoom of 100 or less. *)
Lemma handleMouseDown_needs_zoom (frame : Frame) (pos : anchor)
    (isGenerating isRegenerating on_button : bool) (clientX clientY : num)
    (z : Q) :
  zoom frame = Some (Fin z) -> z <= 100 ->
  handleMouseDown frame pos isGenerating isRegenerating on_button clientX clientY
  = None.
Proof.
  intros Hz Hle. unfold handleMouseDown. rewrite Hz.
  cbn [default from_option Datatypes.id].
  unfold of_Z. rewrite nle_Fin, (Qle_bool_true z (inject_Z 100) Hle).
  now rewrite orb_true_r.
Qed.

Lemma fdiv_100 (z : Q) : fdiv (Fin z) (of_Z 100) = round64 (z / 100).
Proof. unfold fdiv. now rewrite ndiv_Fin_100. Qed.

(** At a zoom of 100 or less the zoom factor is at most 0.01, with the
    rounding of every operation taken into account. *)
Lemma zoomFactor_at_most_100 (z : Q) :
  z <= 100 ->
  nle (fsub (fdiv (Fin z) (of_Z 100)) (of_Z 1)) (round64 (1 # 100)) = true.
Proof.
  intros Hz. rewrite fdiv_100.
  destruct round64_examples as (_ & _ & -> & _).
  assert (Hq : z / 100 <= pow2 0).
  { change (pow2 0) with 1. apply Qle_shift_div_r; lra. }
  destruct (round64_le_pow2 _ 0 Hq ltac:(lia)) as [->|(v & -> & Hv)];
    [reflexivity|].
  change (pow2 0) with 1 in Hv.
  unfold fsub, of_Z; cbn [nsub nneg nadd fround inject_Z].
  change (inject_Z 1) with 1.
  assert (Hneg : v + - (1) <= 0) by lra.
  destruct (round64_nonpos _ Hneg) as [->|(u & -> & Hu)]; [reflexivity|].
  cbn [nle]. apply Qle_bool_iff. unfold Qle in *. cbn in *. lia.
Qed.

(** On a viewport of width zero the horizontal displacement is infinite
    or undefined: the anchor jumps to an end of the range, or is [NaN]
    when the pointer has not moved. *)
Lemma drag_on_collapsed_viewport :
  let start :=
    {| drag_x := Fin 10; drag_y := Fin 10;
       posX := Number (Fin 50); posY := Number (Fin 50);
       drag_zoom := Fin 200 |} in
  handleMouseMove (Some (Fin 0, Fin 100)) start (Fin 11) (Fin 10)
  = Some "0.0% 50.0%"%string
  /\ handleMouseMove (Some (Fin 0, Fin 100)) start (Fin 9) (Fin 10)
     = Some "100.0% 50.0%"%string
  /\ handleMouseMove (Some (Fin 0, Fin 100)) start (Fin 10) (Fin 10)
     = Some "NaN% 50.0%"%string.
Proof. repeat split. Qed.

(** C7. A tick of a drag is the [updateDrag] of the specification: it is
    suppressed when [zoom / 100 - 1 <= 0.01], in particular at every zoom
    of 100 or less; otherwise the new anchor is, on each axis, the start
    anchor minus (pointer displacement / viewport extent) * 100
    / (zoom / 100 - 1), clamped to 0..100, a function of the start
    snapshot and the pointer alone. The position passed to [onChange] is
    that anchor, each component written with one digit after the point. *)
Theorem drag_tick_from_snapshot (dragStart : DragStart)
    (clientX clientY width height : num) :
  let tick := updateDrag (clientX, clientY) dragStart (width, height) in
  let zoomFactor := fsub (fdiv (drag_zoom dragStart) (of_Z 100)) (of_Z 1) in
  drag_anchor (Some (width, height)) dragStart clientX clientY = tick
  /\ handleMouseMove (Some (width, height)) dragStart clientX clientY
     = option_map position_text tick
  /\ (nle zoomFactor (round64 (1 # 100)) = true ->
      handleMouseMove (Some (width, height)) dragStart clientX clientY = None)
  /\ (forall z, drag_zoom dragStart = Fin z -> z <= 100 ->
        handleMouseMove (Some (width, height)) dragStart clientX clientY = None)
  /\ (nle zoomFactor (round64 (1 # 100)) = false ->
      exists newX newY,
        drag_anchor (Some (width, height)) dragStart clientX clientY
        = Some (newX, newY)
        /\ newX = drag_formula (to_number (posX dragStart)) clientX
                    (drag_x dragStart) width (drag_zoom dragStart)
        /\ newY = drag_formula (to_number (posY dragStart)) clientY
                    (drag_y dragStart) height (drag_zoom dragStart)
        /\ (newX = NaN \/ exists v, newX = Fin v /\ 0 <= v <= 100)
        /\ (newY = NaN \/ exists v, newY = Fin v /\ 0 <= v <= 100)
        /\ handleMouseMove (Some (width, height)) dragStart clientX clientY
           = Some (toFixed1 newX ++ "% " ++ toFixed1 newY ++ "%")%string).
Proof.
  intros tick zoomFactor.
  assert (Ha : drag_anchor (Some (width, height)) dragStart clientX clientY = tick).
  { unfold tick, updateDrag, drag_anchor, drag_formula. cbn [fst snd].
    now destruct (nle _ (round64 (1 # 100))). }
  assert (Hsup : nle zoomFactor (round64 (1 # 100)) = true ->
                 handleMouseMove (Some (width, height)) dragStart clientX clientY
                 = None).
  { intros Hg. unfold handleMouseMove, drag_anchor. fold zoomFactor.
    now rewrite Hg. }
  split; [exact Ha|]. split; [unfold handleMouseMove; now rewrite Ha|].
  split; [exact Hsup|]. split.
  - intros z Hz Hle. apply Hsup. unfold zoomFactor. rewrite Hz.
    now apply zoomFactor_at_most_100.
  - intros Hg. eexists _, _. split.
    { unfold drag_anchor. fold zoomFactor. rewrite Hg. reflexivity. }
    split; [reflexivity|]. split; [reflexivity|].
    split; [apply clamp_in_range|]. split; [apply clamp_in_range|].
    unfold handleMouseMove, drag_anchor. fold zoomFactor. now rewrite Hg.
Qed.

(** The tick of a session begun at the preset zoom of 120 with the anchor
    in the middle, on a viewport of 400 x 225, the pointer 15 pixels to
    the right of where it was pressed. *)
Lemma drag_tick_from_snapshot_witness :
  let dragStart :=
    {| drag_x := Fin 0; drag_y := Fin 0;
       posX := Number (Fin 50); posY := Number (Fin 50);
       drag_zoom := Fin 120 |} in
  drag_anchor (Some (Fin 400, Fin 225)) dragStart (Fin 15) (Fin 0)
  = Some (Fin (8796093022207999 # 281474976710656), Fin 50)
  /\ handleMouseMove (Some (Fin 400, Fin 225)) dragStart (Fin 15) (Fin 0)
     = Some "31.2% 50.0%"%string.
Proof.
  intros dragStart.
  pose proof (drag_tick_from_snapshot dragStart (Fin 15) (Fin 0) (Fin 400) (Fin 225))
    as (H1 & H2 & _).
  rewrite H1, H2. vm_compute. split; reflexivity.
Defined.

(** Binary64 at work: at a zoom of 101 the zoom factor is
    0.010000000000000009, above the bound of the guard, and the tick goes
    through. *)
Lemma drag_at_zoom_101 :
  handleMouseMove (Some (Fin 300, Fin 300))
    {| drag_x := Fin 0; drag_y := Fin 0;
       posX := Number (Fin 50); posY := Number (Fin 50);
       drag_zoom := Fin 101 |} (Fin 1) (Fin 0)
  = Some "16.7% 50.0%"%string.
Proof. vm_compute. reflexivity. Qed.

End Drag.

(** ** The shot sequence controller *)

Section Controller.

Lemma step_answer (w w' : World) (n : nat) (t : task) (r : reply) :
  parked w !! n = Some t -> settle t r (unpark n w) = Some w' ->
  step w (Answer n r) = w'.
Proof. intros Hn Hs. unfold step. now rewrite Hn, Hs. Qed.

(** What [performRegeneration] leaves untouched. *)
Lemma resume_state (k : render_cont) (w : World) :
  state (resume k w) = state w.
Proof. now destruct k. Qed.

Lemma resume_alerts (k : render_cont) (w : World) :
  alerts (resume k w) = alerts w.
Proof.
  destruct k; [reflexivity|].
  unfold alerts; cbn. rewrite omap_app. cbn. apply app_nil_r.
Qed.

Lemma performRegeneration_frames cl index currentFrames currentProtocol res k w :
  frames (state (performRegeneration cl index currentFrames currentProtocol res k w))
  = frames (state w).
Proof.
  unfold performRegeneration.
  destruct (negb (truthy currentProtocol) && is_empty (assets cl));
    [now rewrite resume_state|].
  destruct (currentFrames !! index); [reflexivity|].
  now rewrite resume_state.
Qed.

Lemma preset_of_table (val : string) :
  In val (List.map fst SHOT_TYPE_PRESETS) ->
  exists p, get SHOT_TYPE_PRESETS val = Own p /\ In (val, p) SHOT_TYPE_PRESETS.
Proof.
  cbn. intros H.
  repeat (destruct H as [<-|H]; [eexists; split; [reflexivity|cbn; tauto]|]).
  destruct H.
Qed.

(** C8. Updating [shotType] of a record to a value of the preset table
    sets the record's zoom and position to the pair registered for that
    value, whatever they were; the other fields keep their values. *)
Theorem shotType_resets_zoom_and_position (w : World) (idx : nat) (f : Frame)
    (val : string) :
  frames (state w) !! idx = Some f ->
  In val (List.map fst SHOT_TYPE_PRESETS) ->
  exists p,
    In (val, p) SHOT_TYPE_PRESETS
    /\ frames (state (handleFrameChange idx (Field_shotType val) w)) !! idx
       = Some {| image := image f; shotType := val; action := action f;
                 dialogue := dialogue f; zoom := Some (preset_zoom p);
                 position := Some (preset_position p) |}.
Proof.
  intros Hf Hval.
  destruct (preset_of_table val Hval) as (p & Hget & Hin).
  exists p; split; [exact Hin|].
  unfold handleFrameChange. rewrite Hf.
  set (newFrames := <[idx := _]> (frames (state w))).
  assert (Hnew : newFrames !! idx
                 = Some {| image := image f; shotType := val; action := action f;
                           dialogue := dialogue f; zoom := Some (preset_zoom p);
                           position := Some (preset_position p) |}).
  { unfold newFrames, apply_preset. rewrite Hget. cbn.
    apply list_lookup_insert_eq. now apply lookup_lt_Some in Hf. }
  destruct (truthy (productionProtocol (state w)) || negb (is_empty (assets (state w))));
    exact Hnew.
Qed.

Lemma shotType_resets_zoom_and_position_witness :
  frames (state initial_world) !! 3%nat = Some initial_frame
  /\ In "ECU" (List.map fst SHOT_TYPE_PRESETS)
  /\ exists p,
       In ("ECU", p) SHOT_TYPE_PRESETS
       /\ frames (state (handleFrameChange 3 (Field_shotType "ECU") initial_world)) !! 3%nat
          = Some {| image := None; shotType := "ECU"; action := "";
                    dialogue := ""; zoom := Some (preset_zoom p);
                    position := Some (preset_position p) |}.
Proof.
  assert (H1 : frames (state initial_world) !! 3%nat = Some initial_frame)
    by reflexivity.
  assert (H2 : In "ECU" (List.map fst SHOT_TYPE_PRESETS)) by (cbn; tauto).
  exact (conj H1 (conj H2
           (shotType_resets_zoom_and_position initial_world 3 initial_frame "ECU" H1 H2))).
Defined.

(** C9. When the render call of a regeneration for index i is answered
    with an image, record i gets that image and keeps its shotType,
    action, dialogue, zoom and position; every other record, and the
    length of the sequence, is as before. *)
Theorem regeneration_replaces_image_only (w : World) (n index : nat)
    (res : ImageResolution) (k : render_cont) (parts : list (option string))
    (newImage : string) (f : Frame) :
  parked w !! n = Some (AwaitRender index res k) ->
  generateCinemaFrame res parts = Resolved newImage ->
  frames (state w) !! index = Some f ->
  let w' := step w (Answer n (Parts parts)) in
  frames (state w') !! index
  = Some {| image := Some newImage; shotType := shotType f; action := action f;
            dialogue := dialogue f; zoom := zoom f; position := position f |}
  /\ (forall j, j <> index -> frames (state w') !! j = frames (state w) !! j)
  /\ length (frames (state w')) = length (frames (state w)).
Proof.
  intros Hn Himg Hf w'.
  assert (Hfr : frames (state w')
                = <[index := with_image newImage f]> (frames (state w))).
  { unfold w'.
    rewrite (step_answer w _ n _ (Parts parts) Hn eq_refl).
    rewrite Himg. unfold performRegeneration_settled.
    rewrite resume_state. unfold store_image.
    cbn [unpark state]. now rewrite Hf. }
  rewrite Hfr. split; [|split].
  - apply list_lookup_insert_eq. now apply lookup_lt_Some in Hf.
  - intros j Hj. now apply list_lookup_insert_ne.
  - apply length_insert.
Qed.

Lemma regeneration_replaces_image_only_witness :
  parked scenario_rendering !! 0%nat = Some (AwaitRender 0 R4K Return)
  /\ generateCinemaFrame R4K [None; Some "AAAA"]
     = Resolved "data:image/png;base64,AAAA"
  /\ frames (state scenario_rendering) !! 0%nat
     = Some {| image := None; shotType := "MS";
               action := "A wave breaks over the bow"; dialogue := "";
               zoom := Some (Fin 180); position := Some "center 20%" |}
  /\ frames (state scenario_cached) !! 0%nat
     = Some {| image := Some "data:image/png;base64,AAAA"; shotType := "MS";
               action := "A wave breaks over the bow"; dialogue := "";
               zoom := Some (Fin 180); position := Some "center 20%" |}.
Proof.
  assert (H1 : parked scenario_rendering !! 0%nat = Some (AwaitRender 0 R4K Return))
    by reflexivity.
  assert (H2 : generateCinemaFrame R4K [None; Some "AAAA"]
               = Resolved "data:image/png;base64,AAAA") by reflexivity.
  assert (H3 : frames (state scenario_rendering) !! 0%nat
               = Some {| image := None; shotType := "MS";
                         action := "A wave breaks over the bow"; dialogue := "";
                         zoom := Some (Fin 180); position := Some "center 20%" |})
    by reflexivity.
  split; [exact H1|]. split; [exact H2|]. split; [exact H3|].
  exact (proj1 (regeneration_replaces_image_only scenario_rendering 0 0 R4K
                  Return _ _ _ H1 H2 H3)).
Defined.

End Controller.

(** ** Assets and the cached protocol *)

Section Protocol.

Lemma handleAssetUpload_state (files : list string) (w : World) :
  state (handleAssetUpload files w) = state w.
Proof.
  unfold handleAssetUpload. revert w.
  induction files as [|name files IH]; intros w; [reflexivity|].
  cbn [foldl]. now rewrite IH.
Qed.

Lemma reader_onload_protocol (name random_id result : string) (w : World) :
  productionProtocol (state (reader_onload name random_id result w))
  = productionProtocol (state w).
Proof. unfold reader_onload. now destruct (truthy result). Qed.

Lemma removeAsset_protocol (asset_id : string) (w : World) :
  productionProtocol (state (removeAsset asset_id w)) = "".
Proof. reflexivity. Qed.

(** With a protocol in the cache [runAnalysisIfNeeded] makes no call. *)
Lemma cached_protocol_is_reused (w : World) (index : nat) :
  truthy (productionProtocol (state w)) = true ->
  calls is_analysis (handleRegenerateFrame index w) = calls is_analysis w.
Proof.
  intros Hp. unfold handleRegenerateFrame.
  destruct (is_empty (assets (state w))).
  { unfold calls; cbn. rewrite omap_app. cbn. apply app_nil_r. }
  unfold runAnalysisIfNeeded. rewrite Hp. cbn [analysis_settled].
  unfold performRegeneration. rewrite Hp. cbn [negb andb].
  destruct (frames (state w) !! index);
    unfold calls; cbn; rewrite omap_app; cbn; apply app_nil_r.
Qed.

(** C1. Removing an asset clears the cached protocol, adding one does
    not: neither [handleAssetUpload] nor the reader's [onload] touches
    [productionProtocol]. After an upload into a session with a cached
    protocol, the next regeneration makes no analysis call and renders
    the two assets under the protocol computed for the first one; after
    a removal it analyses again. *)
Theorem upload_keeps_cached_protocol :
  (forall w files,
     productionProtocol (state (handleAssetUpload files w))
     = productionProtocol (state w))
  /\ (forall w name random_id result,
        productionProtocol (state (reader_onload name random_id result w))
        = productionProtocol (state w))
  /\ (forall w asset_id,
        productionProtocol (state (removeAsset asset_id w)) = "")
  /\ (let w := run scenario_cached
                 [ Upload ["b.png"];
                   Answer 0 (FileLoaded "z9y8x7w6v" "data:image/png;base64,REVG") ] in
      List.map asset_label (assets (state w)) = ["a.png"; "b.png"]
      /\ productionProtocol (state w) = "PROTOCOL"
      /\ calls is_analysis (step w (ClickRender 0)) = calls is_analysis w
      /\ exists prompt,
           last (calls is_render (step w (ClickRender 0)))
           = Some (GenerateCinemaFrame prompt (assets (state w)) "PROTOCOL" R4K))
  /\ (let w := run scenario_cached [ ClickRemoveAsset "none" ] in
      productionProtocol (state w) = ""
      /\ length (calls is_analysis (step w (ClickRender 0)))
         = S (length (calls is_analysis w))).
Proof.
  split; [|split; [|split; [|split]]].
  - intros w files. now rewrite handleAssetUpload_state.
  - intros. apply reader_onload_protocol.
  - intros. apply removeAsset_protocol.
  - vm_compute. repeat split. eexists. reflexivity.
  - vm_compute. repeat split.
Qed.

End Protocol.

(** ** Planning *)

Section Planning.
Local Open Scope list_scope.

Lemma alerts_emit (e : effect) (w : World) :
  alerts (emit e w)
  = alerts w ++ match e with Alert m => [m] | _ => [] end.
Proof. unfold alerts; cbn. rewrite omap_app. now destruct e. Qed.

Lemma calls_emit (p : request -> bool) (e : effect) (w : World) :
  calls p (emit e w)
  = calls p w ++ match e with
                 | Call r => if p r then [r] else []
                 | _ => []
                 end.
Proof.
  unfold calls; cbn. rewrite omap_app. destruct e; try reflexivity.
  cbn. now destruct (p r).
Qed.

Lemma performRegeneration_alerts cl index currentFrames currentProtocol res k w :
  alerts (performRegeneration cl index currentFrames currentProtocol res k w)
  = alerts w.
Proof.
  unfold performRegeneration.
  destruct (negb (truthy currentProtocol) && is_empty (assets cl));
    [apply resume_alerts|].
  destruct (currentFrames !! index).
  - change (alerts (park ?t ?w)) with (alerts w).
    rewrite alerts_emit. apply app_nil_r.
  - rewrite resume_alerts.
    change (alerts (clear_flag ?i ?w)) with (alerts w).
    rewrite alerts_emit. apply app_nil_r.
Qed.

Lemma render_loop_frames cl i initialFrames protocol w :
  frames (state (render_loop cl i initialFrames protocol w)) = frames (state w).
Proof.
  unfold render_loop. destruct (i <? length initialFrames)%nat; [|reflexivity].
  apply performRegeneration_frames.
Qed.

Lemma render_loop_alerts cl i initialFrames protocol w :
  alerts (render_loop cl i initialFrames protocol w) = alerts w.
Proof.
  unfold render_loop. destruct (i <? length initialFrames)%nat; [|reflexivity].
  apply performRegeneration_alerts.
Qed.

(** A record without a plan entry gets the default shot type, an empty
    action and the preset of that type. *)
Lemma planned_frame_default (plan : list FrameData) (i : nat) (f : Frame) :
  plan !! i = None ->
  planned_frame plan i f
  = {| image := None; shotType := "MS"; action := ""; dialogue := dialogue f;
       zoom := Some (Fin 180); position := Some "center 20%" |}.
Proof. intros H. unfold planned_frame. now rewrite H. Qed.

Lemma or_else_empty (s : string) : or_else s "" = s.
Proof. now destruct s. Qed.

Lemma assoc_In {A} (k : string) (l : list (string * A)) (a : A) :
  assoc k l = Some a -> In (k, a) l.
Proof.
  induction l as [|[k' a'] l IH]; [discriminate|]. cbn [assoc].
  destruct (String.eqb_spec k k') as [->|_].
  - intros [= ->]. now left.
  - intros H. right. now apply IH.
Qed.

Lemma get_of_table (k : string) (ps : ShotPreset) :
  In (k, ps) SHOT_TYPE_PRESETS -> get SHOT_TYPE_PRESETS k = Own ps.
Proof.
  cbn. intros H.
  repeat (destruct H as [[= <- <-]|H]; [reflexivity|]). destruct H.
Qed.

(** The record built for a shot, read off the plan entry and the table
    of presets. *)
Lemma planned_frame_record (plan : list FrameData) (i : nat) (f : Frame) :
  let r := planned_frame plan i f in
  image r = None /\ dialogue r = dialogue f
  /\ shotType r = match plan !! i with
                  | Some p => or_else (default "" (plan_shotType p)) "MS"
                  | None => "MS"
                  end
  /\ action r = match plan !! i with
                | Some p => default "" (plan_action p)
                | None => ""
                end
  /\ (forall ps, In (shotType r, ps) SHOT_TYPE_PRESETS ->
        zoom r = Some (preset_zoom ps) /\ position r = Some (preset_position ps))
  /\ (~ In (shotType r) (List.map fst SHOT_TYPE_PRESETS) ->
      is_prototype_name (shotType r) = false ->
      zoom r = Some (Fin 100) /\ position r = Some "center center").
Proof.
  intros r. unfold r, planned_frame.
  set (p := default {| plan_shotType := None; plan_action := None |} (plan !! i)).
  set (sType := or_else (default "" (plan_shotType p)) "MS").
  assert (Hs : sType = match plan !! i with
                       | Some p => or_else (default "" (plan_shotType p)) "MS"
                       | None => "MS"
                       end)
    by (unfold sType, p; now destruct (plan !! i)).
  assert (Ha : or_else (default "" (plan_action p)) ""
               = match plan !! i with
                 | Some p => default "" (plan_action p)
                 | None => ""
                 end)
    by (rewrite or_else_empty; unfold p; now destruct (plan !! i)).
  assert (Hget : forall ps, In (sType, ps) SHOT_TYPE_PRESETS ->
                   get SHOT_TYPE_PRESETS sType = Own ps)
    by (intros ps; apply get_of_table).
  assert (Hund : ~ In sType (List.map fst SHOT_TYPE_PRESETS) ->
                 is_prototype_name sType = false ->
                 get SHOT_TYPE_PRESETS sType = Undefined).
  { intros Hn Hp. unfold get. rewrite Hp.
    destruct (assoc sType SHOT_TYPE_PRESETS) as [ps|] eqn:E; [|reflexivity].
    exfalso. apply Hn. apply assoc_In in E.
    change sType with (fst (sType, ps)). now apply in_map. }
  destruct (get SHOT_TYPE_PRESETS sType) as [q|name|] eqn:E;
    cbn [image dialogue shotType action zoom position];
    (split; [reflexivity|]); (split; [reflexivity|]); (split; [exact Hs|]);
    (split; [exact Ha|]); split.
  - intros ps Hin. specialize (Hget ps Hin). now injection Hget as ->.
  - intros Hn Hp. specialize (Hund Hn Hp). discriminate.
  - intros ps Hin. specialize (Hget ps Hin). discriminate.
  - intros Hn Hp. specialize (Hund Hn Hp). discriminate.
  - intros ps Hin. specialize (Hget ps Hin). discriminate.
  - intros _ _. split; reflexivity.
Qed.

(** C3, as the code has it. Only an empty plan (an empty array, or an
    answer that does not parse) fails: the planning error is alerted, the
    records stay as they are and nothing is rendered. Every other plan,
    cut to its first 27 entries, overwrites the sequence, also when it
    has fewer entries than there are records. Record [i] is built from
    entry [i]: it has no picture, the dialogue it had, the shot type of
    the entry ([MS] when the entry has none), the action of the entry,
    and the zoom and position the table of presets has for that shot
    type (100 and the centre when the table has none). Where the plan has
    no entry, the record is the default one of type [MS]. *)
Theorem plan_overwrites_unless_empty (w : World) (n : nat) (cl : AppState)
    (protocol : string) (parsed : option (list FrameData)) :
  parked w !! n = Some (AwaitPlan cl protocol) ->
  let plan := take 27 (default [] parsed) in
  let w' := step w (Answer n (Json parsed)) in
  (plan = [] ->
   frames (state w') = frames (state w)
   /\ alerts w' = alerts w ++ ["生成失败: 分镜规划失败，AI 引擎响应异常。"]
   /\ calls is_render w' = calls is_render w
   /\ isGenerating (state w') = false)
  /\ (plan <> [] ->
      frames (state w') = imap (planned_frame plan) (frames cl)
      /\ alerts w' = alerts w
      /\ isGenerating (state w') = false
      /\ length (frames (state w')) = length (frames cl)
      /\ forall i f,
           frames cl !! i = Some f ->
           exists r,
             frames (state w') !! i = Some r
             /\ image r = None /\ dialogue r = dialogue f
             /\ shotType r = match plan !! i with
                             | Some p => or_else (default "" (plan_shotType p)) "MS"
                             | None => "MS"
                             end
             /\ action r = match plan !! i with
                           | Some p => default "" (plan_action p)
                           | None => ""
                           end
             /\ (forall ps, In (shotType r, ps) SHOT_TYPE_PRESETS ->
                   zoom r = Some (preset_zoom ps)
                   /\ position r = Some (preset_position ps))
             /\ (~ In (shotType r) (List.map fst SHOT_TYPE_PRESETS) ->
                 is_prototype_name (shotType r) = false ->
                 zoom r = Some (Fin 100) /\ position r = Some "center center"))
  /\ (forall i f,
        plan !! i = None ->
        planned_frame plan i f
        = {| image := None; shotType := "MS"; action := "";
             dialogue := dialogue f; zoom := Some (Fin 180);
             position := Some "center 20%" |}).
Proof.
  intros Hn plan w'.
  assert (Hw' : w' = plan_settled cl protocol (Resolved parsed) (unpark n w))
    by (apply (step_answer w _ n _ (Json parsed) Hn eq_refl)).
  assert (Hplan : planStoryboardSequence parsed
                  = (plan, match parsed with Some _ => false | None => true end))
    by (unfold plan; now destruct parsed).
  rewrite Hw'. unfold plan_settled. rewrite Hplan. clear Hw' Hplan.
  split; [|split; [|intros i f Hi; now apply planned_frame_default]].
  - intros ->. cbn [is_empty]. unfold generation_failed.
    destruct parsed; repeat split; cbn;
      rewrite ?omap_app; cbn; rewrite ?app_nil_r; reflexivity.
  - intros Hne. destruct plan as [|p0 plan0] eqn:Eplan; [congruence|].
    cbn [is_empty]. rewrite <- Eplan.
    rewrite render_loop_frames, render_loop_alerts.
    assert (Hfr : frames (state (setIsGenerating false
                    (setFrames (fun _ => imap (planned_frame plan) (frames cl))
                       (if match parsed with Some _ => false | None => true end
                        then emit PlanningParseError (unpark n w)
                        else unpark n w))))
                  = imap (planned_frame plan) (frames cl)) by reflexivity.
    split; [exact Hfr|]. split.
    { destruct parsed; [reflexivity|]. exfalso. discriminate Eplan. }
    split.
    { unfold render_loop.
      destruct (0 <? length (imap (planned_frame plan) (frames cl)))%nat;
        [|reflexivity].
      unfold performRegeneration.
      destruct (negb (truthy protocol) && is_empty (assets cl));
        [now rewrite resume_state|].
      destruct (imap (planned_frame plan) (frames cl) !! 0%nat);
        [reflexivity|now rewrite resume_state]. }
    rewrite Hfr. split; [apply length_imap|].
    intros i f Hi. exists (planned_frame plan i f).
    split; [rewrite list_lookup_imap, Hi; reflexivity|].
    apply planned_frame_record.
Qed.

End Planning.

Section PlanningCases.
Local Open Scope list_scope.

Lemma plan_overwrites_unless_empty_witness :
  parked scenario_planning !! 0%nat
  = Some (AwaitPlan (state scenario_ready) "PROTOCOL")
  /\ let w' := step scenario_planning (Answer 0 (Json (Some short_plan))) in
     frames (state w')
     = imap (planned_frame short_plan) (frames (state scenario_ready))
     /\ alerts w' = alerts scenario_planning
     /\ isGenerating (state w') = false
     /\ length (frames (state w')) = 27%nat
     /\ exists r,
          frames (state w') !! 0%nat = Some r
          /\ image r = None /\ dialogue r = ""
          /\ shotType r = "CU" /\ action r = "Close on the helmsman"
          /\ zoom r = Some (Fin 240) /\ position r = Some "center 15%".
Proof.
  assert (H : parked scenario_planning !! 0%nat
              = Some (AwaitPlan (state scenario_ready) "PROTOCOL"))
    by reflexivity.
  split; [exact H|].
  assert (Hne : take 27 (default [] (Some short_plan)) <> []) by discriminate.
  destruct (proj1 (proj2 (plan_overwrites_unless_empty scenario_planning 0
                            (state scenario_ready) "PROTOCOL" (Some short_plan) H))
              Hne) as (H1 & H2 & H3 & H4 & H5).
  split; [exact H1|]. split; [exact H2|]. split; [exact H3|].
  split; [exact H4|].
  destruct (H5 0%nat {| image := None; shotType := "MS";
                        action := "A wave breaks over the bow"; dialogue := "";
                        zoom := Some (Fin 180); position := Some "center 20%" |}
              eq_refl) as (r & Hr & Hi & Hd & Hs & Ha & Hp & _).
  exists r. split; [exact Hr|]. split; [exact Hi|]. split; [exact Hd|].
  split; [exact Hs|]. split; [exact Ha|].
  apply (Hp (preset 240 "center 15%")). rewrite Hs. cbn. tauto.
Defined.

(** C3, as the spec has it, fails: a plan of one entry is no failure. No
    error is alerted, record 0 is rewritten from the plan and the first
    render call is made. *)
Lemma short_plan_is_accepted :
  let w' := step scenario_planning (Answer 0 (Json (Some short_plan))) in
  (length short_plan < 27)%nat
  /\ alerts w' = []
  /\ frames (state w') <> frames (state scenario_planning)
  /\ frames (state w') !! 0%nat
     = Some {| image := None; shotType := "CU";
               action := "Close on the helmsman"; dialogue := "";
               zoom := Some (Fin 240); position := Some "center 15%" |}
  /\ length (calls is_render w') = 1%nat.
Proof.
  split; [cbn; lia|]. split; [reflexivity|]. split; [|split; reflexivity].
  intros H. apply (f_equal (fun l => shotType <$> l !! 0%nat)) in H.
  vm_compute in H. discriminate H.
Qed.

End PlanningCases.

(** ** Render failures *)

Section RenderFailure.
Local Open Scope list_scope.

Lemma performRegeneration_settled_failure (index : nat) (k : render_cont)
    (e : string) (w : World) :
  let w' := performRegeneration_settled index k (Rejected e) w in
  alerts w' = alerts w
  /\ frames (state w') = frames (state w)
  /\ isRegenerating (state w') index = false
  /\ In (RenderFailed index e) (effects w')
  /\ parked w' = parked w ++ match k with
                             | Return => []
                             | ThenPace cl i initialFrames protocol =>
                                 [AwaitTimeout cl i initialFrames protocol]
                             end.
Proof.
  unfold performRegeneration_settled. cbn zeta.
  rewrite resume_alerts, resume_state.
  split; [|split; [reflexivity|split]].
  - change (alerts (clear_flag ?i ?w)) with (alerts w).
    rewrite alerts_emit. apply app_nil_r.
  - unfold isRegenerating; cbn. now rewrite lookup_insert_eq.
  - destruct k; cbn; (split; [|now rewrite ?app_nil_r]);
      rewrite ?in_app_iff; cbn; tauto.
Qed.

(** C4, as the code has it. A failed synthesis call, be it a rejection or
    an answer without image, is caught inside [performRegeneration] on
    every path: the failure is logged to the console, nothing is alerted
    and nothing reaches the caller, [handleRegenerateFrame] included; the
    records are as before and the in-progress flag of the shot is
    cleared. Inside the rendering loop the pacing delay is started, and
    when it has elapsed the next shot is requested. *)
Theorem render_failure_is_caught (w : World) (n index : nat)
    (res : ImageResolution) (k : render_cont) (r : reply) (e : string) :
  parked w !! n = Some (AwaitRender index res k) ->
  render_failure res r = Some e ->
  let w' := step w (Answer n r) in
  alerts w' = alerts w
  /\ In (RenderFailed index e) (effects w')
  /\ frames (state w') = frames (state w)
  /\ isRegenerating (state w') index = false
  /\ match k with
     | Return => parked w' = delete n (parked w)
     | ThenPace cl i initialFrames protocol =>
         parked w' = delete n (parked w)
                     ++ [AwaitTimeout cl i initialFrames protocol]
         /\ forall f, initialFrames !! S i = Some f ->
              truthy protocol = true ->
              parked (step w' (Answer (length (delete n (parked w))) Elapsed))
              = delete n (parked w)
                ++ [AwaitRender (S i) (targetResolution cl)
                      (ThenPace cl (S i) initialFrames protocol)]
     end.
Proof.
  intros Hn Hr w'.
  assert (Hw' : w' = performRegeneration_settled index k (Rejected e) (unpark n w)).
  { unfold w'. destruct r as [| | |parts| |m]; try discriminate Hr.
    - cbn in Hr. rewrite (step_answer w _ n _ (Parts parts) Hn eq_refl).
      destruct (generateCinemaFrame res parts); [discriminate Hr|].
      now injection Hr as ->.
    - injection Hr as ->.
      now rewrite (step_answer w _ n _ (Error e) Hn eq_refl). }
  destruct (performRegeneration_settled_failure index k e (unpark n w))
    as (Ha & Hf & Hflag & Hin & Hp).
  rewrite <- Hw' in Ha, Hf, Hflag, Hin, Hp.
  split; [exact Ha|]. split; [exact Hin|]. split; [exact Hf|].
  split; [exact Hflag|].
  destruct k as [|cl i initialFrames protocol].
  - rewrite Hp. apply app_nil_r.
  - split; [exact Hp|]. intros f Hf' Htruthy.
    assert (Hlook : parked w' !! length (delete n (parked w))
                    = Some (AwaitTimeout cl i initialFrames protocol)).
    { rewrite Hp. cbn [unpark parked]. now rewrite list_lookup_middle. }
    rewrite (step_answer w' _ _ _ Elapsed Hlook eq_refl).
    unfold render_loop.
    apply lookup_lt_Some in Hf' as Hlt.
    apply Nat.ltb_lt in Hlt. rewrite Hlt.
    unfold performRegeneration. rewrite Htruthy, Hf'. cbn [negb andb].
    cbn [park parked emit setRegeneratingIndices update unpark].
    rewrite Hp. cbn [unpark parked].
    now rewrite delete_middle, app_nil_r.
Qed.

End RenderFailure.

Section RenderFailureCases.

Lemma render_failure_is_caught_witness :
  parked scenario_rendering !! 0%nat = Some (AwaitRender 0 R4K Return)
  /\ render_failure R4K (Parts [None])
     = Some "4K Rendering Error: Image not returned by engine."
  /\ let w' := step scenario_rendering (Answer 0 (Parts [None])) in
     alerts w' = alerts scenario_rendering
     /\ In (RenderFailed 0 "4K Rendering Error: Image not returned by engine.")
          (effects w')
     /\ frames (state w') = frames (state scenario_rendering)
     /\ isRegenerating (state w') 0 = false
     /\ parked w' = delete 0%nat (parked scenario_rendering).
Proof.
  assert (H1 : parked scenario_rendering !! 0%nat = Some (AwaitRender 0 R4K Return))
    by reflexivity.
  assert (H2 : render_failure R4K (Parts [None])
               = Some "4K Rendering Error: Image not returned by engine.")
    by reflexivity.
  exact (conj H1 (conj H2
           (render_failure_is_caught scenario_rendering 0 0 R4K Return
              (Parts [None]) _ H1 H2))).
Defined.

(** C4, as the spec has it, fails: the regeneration requested with the
    render button ends without any alert when the synthesis call is
    rejected, and likewise when it returns no image; the handler has
    finished and only the console has the error. *)
Lemma direct_regeneration_failure_is_silent :
  let rejected := step scenario_rendering (Answer 0 (Error "503 Service Unavailable")) in
  let no_image := step scenario_rendering (Answer 0 (Parts [None; None])) in
  alerts rejected = [] /\ parked rejected = []
  /\ last (effects rejected) = Some (RenderFailed 0 "503 Service Unavailable")
  /\ alerts no_image = [] /\ parked no_image = []
  /\ last (effects no_image)
     = Some (RenderFailed 0 "4K Rendering Error: Image not returned by engine.").
Proof. vm_compute. repeat split. Qed.

End RenderFailureCases.

(** ** Regenerations of one shot *)

Section Exclusivity.
Local Open Scope list_scope.

Lemma renders_in_flight_park (index : nat) (t : task) (w : World) :
  renders_in_flight index (park t w)
  = (renders_in_flight index w
     + match t with
       | AwaitRender i _ _ => if Nat.eqb i index then 1 else 0
       | _ => 0
       end)%nat.
Proof.
  unfold renders_in_flight; cbn [park parked].
  rewrite List.filter_app, length_app. f_equal.
  destruct t; try reflexivity. cbn. now destruct (Nat.eqb index0 index).
Qed.

(** [performRegeneration] consults no flag: past its guard it makes the
    render call whenever the record exists. *)
Lemma performRegeneration_adds_render cl index currentFrames currentProtocol
    res k w f :
  currentFrames !! index = Some f ->
  truthy currentProtocol || negb (is_empty (assets cl)) = true ->
  renders_in_flight index
    (performRegeneration cl index currentFrames currentProtocol res k w)
  = S (renders_in_flight index w).
Proof.
  intros Hf Hguard. unfold performRegeneration. rewrite Hf.
  replace (negb (truthy currentProtocol) && is_empty (assets cl)) with false
    by (destruct (truthy currentProtocol), (is_empty (assets cl)); auto; discriminate).
  rewrite renders_in_flight_park, Nat.eqb_refl.
  change (renders_in_flight index (emit ?e (setRegeneratingIndices ?g w)))
    with (renders_in_flight index w).
  lia.
Qed.

(** C2, as the code has it. While the in-progress flag of shot i is set,
    the render button of card i is disabled, so a click on it starts
    nothing. Neither [performRegeneration] nor [handleRegenerateFrame]
    looks at the flag: a shot-type change of record i, or the handler
    called again with the protocol cached, starts one more render call
    for i next to those in flight. *)
Theorem regeneration_gated_by_button_only (w : World) (index : nat)
    (f : Frame) (val : string) :
  isRegenerating (state w) index = true ->
  frames (state w) !! index = Some f ->
  is_empty (assets (state w)) = false ->
  step w (ClickRender index) = w
  /\ renders_in_flight index (step w (SelectShotType index val))
     = S (renders_in_flight index w)
  /\ (truthy (productionProtocol (state w)) = true ->
      renders_in_flight index (handleRegenerateFrame index w)
      = S (renders_in_flight index w)).
Proof.
  intros Hflag Hf Hassets. split; [|split].
  - unfold step, render_disabled, render_button_disabled.
    now rewrite Hf, Hflag.
  - unfold step, handleFrameChange. rewrite Hf, Hassets.
    rewrite orb_true_r.
    change (renders_in_flight index (setFrames ?g ?w0))
      with (renders_in_flight index w0).
    eapply performRegeneration_adds_render.
    + apply list_lookup_insert_eq. now apply lookup_lt_Some in Hf.
    + rewrite Hassets. apply orb_true_r.
  - intros Hp. unfold handleRegenerateFrame, runAnalysisIfNeeded.
    rewrite Hassets, Hp. cbn [analysis_settled].
    eapply performRegeneration_adds_render; [exact Hf|].
    now rewrite Hp.
Qed.

Lemma regeneration_gated_by_button_only_witness :
  isRegenerating (state scenario_rendering) 0 = true
  /\ is_empty (assets (state scenario_rendering)) = false
  /\ step scenario_rendering (ClickRender 0) = scenario_rendering
  /\ renders_in_flight 0 (step scenario_rendering (SelectShotType 0 "CU")) = 2%nat.
Proof.
  assert (H1 : isRegenerating (state scenario_rendering) 0 = true) by reflexivity.
  assert (H3 : is_empty (assets (state scenario_rendering)) = false) by reflexivity.
  pose proof (regeneration_gated_by_button_only scenario_rendering 0 _ "CU"
                H1 eq_refl H3) as (Hclick & Hselect & _).
  exact (conj H1 (conj H3 (conj Hclick Hselect))).
Defined.

(** C2, as the spec has it, fails: with one render call for shot 0 in
    flight and its flag set, the user picks another shot type for card 0
    and a second render call for shot 0 is in flight; calling the
    regenerate handler again does the same. *)
Lemma second_regeneration_runs_concurrently :
  isRegenerating (state scenario_rendering) 0 = true
  /\ renders_in_flight 0 scenario_rendering = 1%nat
  /\ parked (step scenario_rendering (SelectShotType 0 "CU"))
     = [AwaitRender 0 R4K Return; AwaitRender 0 R4K Return]
  /\ renders_in_flight 0 (step scenario_rendering (SelectShotType 0 "CU")) = 2%nat
  /\ renders_in_flight 0 (handleRegenerateFrame 0 scenario_rendering) = 2%nat.
Proof. vm_compute. repeat split. Qed.

End Exclusivity.

(** ** The rendering loop as a whole *)

Section RenderPhase.
Local Open Scope list_scope.

Lemma performRegeneration_settled_effects (index : nat) (k : render_cont)
    (r : outcome string) (w : World) :
  let w' := performRegeneration_settled index k r w in
  alerts w' = alerts w
  /\ calls is_render w' = calls is_render w
  /\ parked w' = parked w ++ match k with
                             | Return => []
                             | ThenPace cl i initialFrames protocol =>
                                 [AwaitTimeout cl i initialFrames protocol]
                             end.
Proof.
  unfold performRegeneration_settled. cbn zeta.
  set (w1 := match r with Resolved _ => _ | Rejected _ => _ end).
  assert (H1 : alerts w1 = alerts w /\ calls is_render w1 = calls is_render w
               /\ parked w1 = parked w).
  { unfold w1. destruct r as [newImage|e].
    - destruct (store_image index newImage (frames (state w))).
      + repeat split.
      + rewrite alerts_emit, calls_emit, !app_nil_r. repeat split.
    - rewrite alerts_emit, calls_emit, !app_nil_r. repeat split. }
  destruct H1 as (Ha & Hc & Hp).
  rewrite resume_alerts.
  change (alerts (clear_flag index w1)) with (alerts w1).
  split; [exact Ha|].
  destruct k; cbn [resume].
  - change (calls is_render (clear_flag index w1)) with (calls is_render w1).
    change (parked (clear_flag index w1)) with (parked w1).
    rewrite Hc, Hp, app_nil_r. split; reflexivity.
  - change (calls is_render (park ?t ?w0)) with (calls is_render w0).
    rewrite calls_emit, app_nil_r.
    change (calls is_render (clear_flag index w1)) with (calls is_render w1).
    split; [exact Hc|]. cbn [park parked emit]. 
    change (parked (clear_flag index w1)) with (parked w1). now rewrite Hp.
Qed.

Lemma unpark_park (t : task) (w : World) :
  parked w = [] -> unpark 0 (park t w) = w.
Proof. destruct w as [s p e]. cbn. now intros ->. Qed.

(** From shot [i] on, with nothing else pending, the loop makes one render
    call per remaining shot whatever the answers are, failures included,
    alerts nothing and then ends. *)
Lemma render_loop_visits_every_shot (cl : AppState) (initialFrames : list Frame)
    (protocol : string) :
  truthy protocol = true ->
  forall (rs : list reply) (i : nat) (w : World),
    parked w = [] ->
    forallb render_reply rs = true ->
    length rs = (length initialFrames - i)%nat ->
    let w' := run (render_loop cl i initialFrames protocol w) (paced rs) in
    length (calls is_render w') = (length (calls is_render w) + length rs)%nat
    /\ parked w' = []
    /\ alerts w' = alerts w.
Proof.
  intros Hp rs. induction rs as [|r rs IH]; intros i w Hw Hrs Hlen.
  - cbn [length] in Hlen. unfold render_loop.
    replace (i <? length initialFrames)%nat with false
      by (symmetry; apply Nat.ltb_ge; lia).
    cbn. rewrite Nat.add_0_r. auto.
  - cbn [length] in Hlen. cbn [forallb] in Hrs.
    apply andb_true_iff in Hrs as [Hr Hrs].
    assert (Hi : (i < length initialFrames)%nat) by lia.
    destruct (lookup_lt_is_Some_2 initialFrames i Hi) as [f Hf].
    set (k := ThenPace cl i initialFrames protocol).
    set (req := GenerateCinemaFrame (shotPrompt cl f) (assets cl)
                  (or_else protocol "保持视觉连续性与资产特征一致。")
                  (targetResolution cl)).
    set (w0 := emit (Call req)
                 (setRegeneratingIndices (fun prev => <[i:=true]> prev) w)).
    set (w1 := park (AwaitRender i (targetResolution cl) k) w0).
    assert (Hstart : render_loop cl i initialFrames protocol w = w1).
    { unfold render_loop. apply Nat.ltb_lt in Hi as ->.
      unfold performRegeneration. now rewrite Hp, Hf. }
    rewrite Hstart. clear Hstart.
    assert (Hw0 : parked w0 = []) by exact Hw.
    assert (Hc0 : calls is_render w0 = calls is_render w ++ [req])
      by (unfold w0; now rewrite calls_emit).
    assert (Hunpark : unpark 0 w1 = w0) by (apply unpark_park, Hw0).
    change (run w1 (paced (r :: rs)))
      with (run (step (step w1 (Answer 0 r)) (Answer 0 Elapsed)) (paced rs)).
    assert (Hlook : parked w1 !! 0%nat
                    = Some (AwaitRender i (targetResolution cl) k))
      by (unfold w1; cbn [park parked]; now rewrite Hw0).
    assert (Hstep1 : exists o, step w1 (Answer 0 r)
                               = performRegeneration_settled i k o w0).
    { destruct r; try discriminate Hr.
      - eexists. rewrite (step_answer w1 _ 0 _ (Parts parts) Hlook eq_refl).
        now rewrite Hunpark.
      - eexists. rewrite (step_answer w1 _ 0 _ (Error message) Hlook eq_refl).
        now rewrite Hunpark. }
    destruct Hstep1 as [o ->].
    destruct (performRegeneration_settled_effects i k o w0) as (Ha & Hc & Hpk).
    set (w2 := performRegeneration_settled i k o w0) in *.
    rewrite Hw0 in Hpk. cbn [app] in Hpk. unfold k in Hpk.
    assert (Hlook2 : parked w2 !! 0%nat
                     = Some (AwaitTimeout cl i initialFrames protocol))
      by now rewrite Hpk.
    rewrite (step_answer w2 _ 0 _ Elapsed Hlook2 eq_refl).
    assert (Hw3 : parked (unpark 0 w2) = [])
      by (cbn [unpark parked]; now rewrite Hpk).
    destruct (IH (S i) (unpark 0 w2) Hw3 Hrs ltac:(lia)) as (IHc & IHp & IHa).
    split; [|split].
    + rewrite IHc.
      change (calls is_render (unpark 0 w2)) with (calls is_render w2).
      rewrite Hc, Hc0, length_app. cbn [length]. lia.
    + exact IHp.
    + rewrite IHa. change (alerts (unpark 0 w2)) with (alerts w2).
      rewrite Ha. unfold w0. rewrite alerts_emit. apply app_nil_r.
Qed.

(** A protocol that comes out of the analysis is never empty. *)
Lemma analyzeProductionAssets_truthy (text : option string) :
  truthy (analyzeProductionAssets text) = true.
Proof.
  unfold analyzeProductionAssets, or_else.
  destruct (truthy (default "" text)) eqn:E; [exact E|reflexivity].
Qed.

(** Full generation from the planner's answer on: a non-empty plan is
    followed by one render call per record, in spite of any failed one,
    and by no alert. *)
Lemma generation_renders_every_shot (w : World) (cl : AppState)
    (protocol : string) (plan : list FrameData) (rs : list reply) :
  parked w = [AwaitPlan cl protocol] ->
  truthy protocol = true ->
  take 27 plan <> [] ->
  forallb render_reply rs = true ->
  length rs = length (frames cl) ->
  let w' := run w (Answer 0 (Json (Some plan)) :: paced rs) in
  length (calls is_render w')
  = (length (calls is_render w) + length (frames cl))%nat
  /\ parked w' = []
  /\ alerts w' = alerts w.
Proof.
  intros Hw Hp Hplan Hrs Hlen.
  assert (Hlook : parked w !! 0%nat = Some (AwaitPlan cl protocol))
    by now rewrite Hw.
  change (run w (Answer 0 (Json (Some plan)) :: paced rs))
    with (run (step w (Answer 0 (Json (Some plan)))) (paced rs)).
  rewrite (step_answer w _ 0 _ (Json (Some plan)) Hlook eq_refl).
  unfold plan_settled. cbn [planStoryboardSequence].
  destruct (take 27 plan) as [|p0 ps] eqn:E; [congruence|].
  cbn [is_empty]. rewrite <- E.
  set (initialFrames := imap (planned_frame (take 27 plan)) (frames cl)).
  set (w0 := setIsGenerating false (setFrames (fun _ => initialFrames) (unpark 0 w))).
  assert (Hw0 : parked w0 = [])
    by (unfold w0; cbn [setIsGenerating setFrames update unpark parked];
        now rewrite Hw).
  assert (Hlen' : length rs = (length initialFrames - 0)%nat)
    by (unfold initialFrames; rewrite length_imap; lia).
  destruct (render_loop_visits_every_shot cl initialFrames protocol Hp rs 0 w0
              Hw0 Hrs Hlen') as (Hc & Hpk & Ha).
  split; [|split]; [|exact Hpk|exact Ha].
  rewrite Hc, Hlen. reflexivity.
Qed.

End RenderPhase.

(** ** The storyboard keeps its 27 records *)

Section Invariant.
Local Open Scope list_scope.

Lemma wf_same (w w' : World) :
  length (frames (state w')) = length (frames (state w)) ->
  parked w' = parked w -> wf w -> wf w'.
Proof. intros Hf Hp [Hs Ht]. split; [unfold wf_state; congruence|now rewrite Hp]. Qed.

Lemma wf_park (t : task) (w : World) : wf_task t -> wf w -> wf (park t w).
Proof.
  intros Ht [Hs Hp]. split; [exact Hs|].
  cbn [park parked]. apply Forall_app; split; [exact Hp|now constructor].
Qed.

Lemma wf_unpark (k : nat) (w : World) : wf w -> wf (unpark k w).
Proof.
  intros [Hs Hp]. split; [exact Hs|].
  cbn [unpark parked]. now apply Forall_delete.
Qed.

Lemma wf_lookup (k : nat) (t : task) (w : World) :
  wf w -> parked w !! k = Some t -> wf_task t.
Proof.
  intros [_ Hp] Hk. rewrite Forall_forall in Hp.
  apply Hp. eapply list_elem_of_lookup_2, Hk.
Qed.

Lemma wf_resume (k : render_cont) (w : World) :
  wf_cont k -> wf w -> wf (resume k w).
Proof.
  intros Hk Hw. destruct k; [exact Hw|].
  cbn [resume]. apply wf_park; [exact Hk|].
  now apply (wf_same w).
Qed.

Lemma wf_performRegeneration cl index currentFrames currentProtocol res k w :
  length currentFrames = 27%nat -> wf_cont k -> wf w ->
  wf (performRegeneration cl index currentFrames currentProtocol res k w).
Proof.
  intros Hlen Hk Hw. unfold performRegeneration.
  destruct (negb (truthy currentProtocol) && is_empty (assets cl));
    [now apply wf_resume|].
  destruct (currentFrames !! index) eqn:Hf.
  - apply wf_park; [|now apply (wf_same w)].
    split; [|exact Hk]. apply lookup_lt_Some in Hf. lia.
  - apply wf_resume; [exact Hk|]. now apply (wf_same w).
Qed.

Lemma wf_performRegeneration_settled index k r w :
  wf_cont k -> wf w -> wf (performRegeneration_settled index k r w).
Proof.
  intros Hk Hw. unfold performRegeneration_settled.
  apply wf_resume; [exact Hk|].
  destruct r as [newImage|e]; [|now apply (wf_same w)].
  unfold store_image. destruct (frames (state w) !! index);
    [|now apply (wf_same w)].
  apply (wf_same w); [|reflexivity|exact Hw].
  cbn. apply length_insert.
Qed.

Lemma wf_render_loop cl i initialFrames protocol w :
  wf_state cl -> length initialFrames = 27%nat -> wf w ->
  wf (render_loop cl i initialFrames protocol w).
Proof.
  intros Hcl Hfr Hw. unfold render_loop.
  destruct (i <? length initialFrames)%nat; [|exact Hw].
  apply wf_performRegeneration; [exact Hfr|split; assumption|exact Hw].
Qed.

Lemma wf_generation_failed message w : wf w -> wf (generation_failed message w).
Proof. now apply (wf_same w). Qed.

Lemma wf_plan_settled cl protocol r w :
  wf_state cl -> wf w -> wf (plan_settled cl protocol r w).
Proof.
  intros Hcl Hw. unfold plan_settled.
  destruct r as [parsed|e]; [|now apply wf_generation_failed].
  destruct (planStoryboardSequence parsed) as [plan logged].
  assert (Hw1 : wf (if logged then emit PlanningParseError w else w))
    by (destruct logged; [now apply (wf_same w)|exact Hw]).
  destruct (is_empty plan); [now apply wf_generation_failed|].
  assert (Hlen : length (imap (planned_frame plan) (frames cl)) = 27%nat)
    by (rewrite length_imap; exact Hcl).
  apply wf_render_loop; [exact Hcl|exact Hlen|].
  destruct Hw1 as [_ Hp]. split; [exact Hlen|exact Hp].
Qed.

Lemma wf_analysis_settled cl k r w :
  wf_state cl -> wf w -> wf (analysis_settled cl k r w).
Proof.
  intros Hcl Hw. destruct k, r; cbn [analysis_settled].
  - now apply wf_performRegeneration.
  - now apply (wf_same w).
  - apply wf_park; [exact Hcl|]. now apply (wf_same w).
  - now apply wf_generation_failed.
Qed.

Lemma wf_runAnalysisIfNeeded cl k w :
  wf_state cl -> wf w -> wf (runAnalysisIfNeeded cl k w).
Proof.
  intros Hcl Hw. unfold runAnalysisIfNeeded.
  destruct (truthy (productionProtocol cl)); [now apply wf_analysis_settled|].
  destruct (is_empty (assets cl)); [now apply wf_analysis_settled|].
  apply wf_park; [exact Hcl|]. now apply (wf_same w).
Qed.

Lemma wf_handleFrameChange idx fv w : wf w -> wf (handleFrameChange idx fv w).
Proof.
  intros Hw. unfold handleFrameChange.
  destruct (frames (state w) !! idx) as [f|]; [|now apply (wf_same w)].
  assert (Hset : forall new w0, wf w0 -> length new = 27%nat ->
                   wf (setFrames (fun _ => new) w0)).
  { intros new w0 [_ Hp] Hlen. split; [exact Hlen|exact Hp]. }
  destruct Hw as [Hs Hp].
  destruct fv; apply Hset;
    try (split; assumption); try (rewrite length_insert; exact Hs).
  destruct (truthy (productionProtocol (state w))
            || negb (is_empty (assets (state w))));
    [|split; assumption].
  apply wf_performRegeneration;
    [rewrite length_insert; exact Hs|exact I|split; assumption].
Qed.

Lemma wf_handleAssetUpload files w : wf w -> wf (handleAssetUpload files w).
Proof.
  unfold handleAssetUpload. revert w.
  induction files as [|name files IH]; intros w Hw; [exact Hw|].
  cbn [foldl]. apply IH. apply wf_park; [exact I|]. now apply (wf_same w).
Qed.

Lemma wf_settle t r w w' :
  wf_task t -> wf w -> settle t r w = Some w' -> wf w'.
Proof.
  intros Ht Hw Hs.
  destruct t as [name|cl k|cl protocol|index resolution k|cl i initialFrames protocol],
    r as [random_id result|text|parsed|parts| |e];
    try discriminate Hs; injection Hs as <-.
  - unfold reader_onload. destruct (truthy result); [now apply (wf_same w)|exact Hw].
  - unfold analysis_replied. apply wf_analysis_settled; [exact Ht|].
    now apply (wf_same w).
  - unfold analysis_replied. apply wf_analysis_settled; [exact Ht|].
    now apply (wf_same w).
  - exact (wf_plan_settled cl protocol (Resolved parsed) w Ht Hw).
  - exact (wf_plan_settled cl protocol (Rejected e) w Ht Hw).
  - exact (wf_performRegeneration_settled index k
             (generateCinemaFrame resolution parts) w (proj2 Ht) Hw).
  - exact (wf_performRegeneration_settled index k (Rejected e) w (proj2 Ht) Hw).
  - destruct Ht as [Hcl Hfr].
    exact (wf_render_loop cl (S i) initialFrames protocol w Hcl Hfr Hw).
Qed.

(** Every turn of the event loop keeps the sequence at 27 records, in the
    state and in whatever suspended handlers hold. *)
Lemma step_wf (w : World) (e : event) : wf w -> wf (step w e).
Proof.
  intros Hw. destruct e; cbn [step].
  - now apply wf_handleAssetUpload.
  - now apply (wf_same w).
  - now apply (wf_same w).
  - now apply wf_handleFrameChange.
  - now apply wf_handleFrameChange.
  - destruct (render_disabled (state w) index); [exact Hw|].
    unfold handleRegenerateFrame.
    destruct (is_empty (assets (state w))); [now apply (wf_same w)|].
    apply wf_runAnalysisIfNeeded; [apply Hw|exact Hw].
  - destruct (generate_disabled (state w)); [exact Hw|].
    unfold generateFullStoryboard.
    destruct (negb (truthy (sceneDesc (state w)))); [now apply (wf_same w)|].
    apply wf_runAnalysisIfNeeded; [apply Hw|]. now apply (wf_same w).
  - destruct (parked w !! k) as [t|] eqn:Hk; [|exact Hw].
    destruct (settle t r (unpark k w)) as [w'|] eqn:Hs; [|exact Hw].
    cbn. eapply wf_settle; [eapply wf_lookup; eassumption| |exact Hs].
    now apply wf_unpark.
Qed.

Lemma run_wf (es : list event) (w : World) : wf w -> wf (run w es).
Proof.
  revert w. induction es as [|e es IH]; intros w Hw; [exact Hw|].
  apply IH. now apply step_wf.
Qed.

Lemma reachable_wf (es : list event) : wf (run initial_world es).
Proof. apply run_wf. split; [reflexivity|constructor]. Qed.

(** In every world reachable from the initial one the answer to a render
    call finds its record: the image is never stored past the end of the
    array. *)
Lemma reachable_render_in_range (es : list event) (n index : nat)
    (res : ImageResolution) (k : render_cont) :
  parked (run initial_world es) !! n = Some (AwaitRender index res k) ->
  is_Some (frames (state (run initial_world es)) !! index).
Proof.
  intros Hn. pose proof (reachable_wf es) as Hw.
  destruct (wf_lookup n _ _ Hw Hn) as [Hi _].
  apply lookup_lt_is_Some_2. destruct Hw as [Hs _].
  unfold wf_state in Hs. lia.
Qed.

End Invariant.

(** * Further properties of the code *)

(** ** The sequence and the calls in flight *)

Section Reachable.
Local Open Scope list_scope.

(** X1. Whatever the user does and whatever the services answer, the
    storyboard keeps its 27 records, and every render call in flight is
    for one of them. *)
Theorem storyboard_keeps_27_records (es : list event) :
  let w := run initial_world es in
  length (frames (state w)) = 27%nat
  /\ forall n index res k,
       parked w !! n = Some (AwaitRender index res k) ->
       (index < 27)%nat /\ is_Some (frames (state w) !! index).
Proof.
  intros w. pose proof (reachable_wf es) as Hw. fold w in Hw.
  destruct Hw as [Hs Hp]. split; [exact Hs|].
  intros n index res k Hn.
  assert (Ht : wf_task (AwaitRender index res k)).
  { rewrite Forall_forall in Hp. apply Hp. eapply list_elem_of_lookup_2, Hn. }
  destruct Ht as [Hi _]. split; [exact Hi|].
  apply lookup_lt_is_Some_2. unfold wf_state in Hs. lia.
Qed.

End Reachable.

(** ** What the render service returns *)

Section RenderAnswer.

Lemma find_inline_skip (n : nat) (rest : list (option string)) :
  List.find (fun p => bool_decide (is_Some p)) (replicate n None ++ rest)%list
  = List.find (fun p => bool_decide (is_Some p)) rest.
Proof. induction n as [|n IH]; [reflexivity|exact IH]. Qed.

Lemma generateCinemaFrame_inline (res : ImageResolution) (n : nat)
    (d : string) (rest : list (option string)) :
  generateCinemaFrame res (replicate n None ++ Some d :: rest)%list
  = Resolved ("data:image/png;base64," ++ d).
Proof. unfold generateCinemaFrame. now rewrite find_inline_skip. Qed.

(** X2. [generateCinemaFrame] returns the first inline picture of the
    answer as a PNG data URL, whatever follows it, and throws the
    rendering error of its resolution when no part of the answer holds a
    picture (an empty answer included). *)
Theorem generateCinemaFrame_first_picture (res : ImageResolution) (n : nat)
    (d : string) (rest : list (option string)) :
  generateCinemaFrame res (replicate n None ++ Some d :: rest)%list
  = Resolved ("data:image/png;base64," ++ d)
  /\ generateCinemaFrame res (replicate n None)
     = Rejected (resolution_tag res
                 ++ " Rendering Error: Image not returned by engine.").
Proof.
  split; [apply generateCinemaFrame_inline|].
  unfold generateCinemaFrame.
  rewrite <- (app_nil_r (replicate n None)), find_inline_skip. reflexivity.
Qed.

Lemma split_on_no_sep (sep : ascii) (s : string) :
  Forall (fun c => c <> sep) (list_ascii_of_string s) ->
  split_on sep s = [s].
Proof.
  induction s as [|c s IH]; [reflexivity|].
  cbn [list_ascii_of_string split_on]. intros H.
  inversion_clear H as [|? ? Hc Hs].
  destruct (Ascii.eqb_spec c sep) as [->|_]; [congruence|].
  now rewrite (IH Hs).
Qed.

Lemma split_on_app (sep : ascii) (a b : string) :
  Forall (fun c => c <> sep) (list_ascii_of_string a) ->
  split_on sep (a ++ String sep b) = a :: split_on sep b.
Proof.
  induction a as [|c a IH].
  - intros _. rewrite append_nil. cbn [split_on]. now rewrite Ascii.eqb_refl.
  - rewrite append_cons. cbn [list_ascii_of_string split_on]. intros H.
    inversion_clear H as [|? ? Hc Ha].
    destruct (Ascii.eqb_spec c sep) as [->|_]; [congruence|].
    now rewrite (IH Ha).
Qed.

Lemma payload_data_url (header d : string) :
  no_comma header -> no_comma d ->
  payload (header ++ String ","%char d) = Some d.
Proof.
  intros Hh Hd. unfold payload.
  now rewrite (split_on_app _ header d Hh), (split_on_no_sep _ d Hd).
Qed.

(** X3. The picture survives the way into the archive: when the engine's
    base64 text has no comma, a record that holds the picture made from
    it is exported under its shot number with exactly that text. *)
Theorem exported_payload_is_engine_data (res : ImageResolution) (n i : nat)
    (d : string) (rest : list (option string)) (f : Frame) (fs : list Frame) :
  no_comma d ->
  generateCinemaFrame res (replicate n None ++ Some d :: rest)%list
  = Resolved ("data:image/png;base64," ++ d)
  /\ zip_entries_from i (with_image ("data:image/png;base64," ++ d) f :: fs)
     = (entry_name i f, Some d) :: zip_entries_from (S i) fs.
Proof.
  intros Hd. split.
  - apply generateCinemaFrame_inline.
  - cbn [zip_entries_from with_image image].
    change (truthy ("data:image/png;base64," ++ d)) with true. cbn iota.
    f_equal. f_equal.
    apply (payload_data_url "data:image/png;base64" d); [|exact Hd].
    repeat constructor; discriminate.
Qed.

Lemma exported_payload_is_engine_data_witness :
  no_comma "QUJD"
  /\ zip_entries [with_image "data:image/png;base64,QUJD" initial_frame]
     = [("Shot_01_MS.png", Some "QUJD")].
Proof.
  assert (H : no_comma "QUJD") by (repeat constructor; discriminate).
  split; [exact H|].
  exact (proj2 (exported_payload_is_engine_data R4K 0 0 "QUJD" [] initial_frame [] H)).
Defined.

End RenderAnswer.

(** ** More on positions and the crop *)

Section PositionsAndCrop.
Local Open Scope Q_scope.

(** X4. [parsePosition] reads the first two tokens only: whatever follows
    a second space is ignored. *)
Theorem parsePosition_ignores_further_tokens (a b rest : string) :
  no_space a -> no_space b ->
  parsePosition (a ++ " " ++ b ++ " " ++ rest)%string
  = parsePosition (a ++ " " ++ b)%string.
Proof.
  intros Ha Hb. unfold parsePosition.
  change (a ++ " " ++ b ++ " " ++ rest)%string
    with (a ++ String " "%char (b ++ String " "%char rest))%string.
  change (a ++ " " ++ b)%string with (a ++ String " "%char b)%string.
  rewrite !(split_space_app a _ Ha), (split_space_app b rest Hb),
    (split_space_no_space b Hb).
  reflexivity.
Qed.

Lemma parsePosition_ignores_further_tokens_witness :
  no_space "30%" /\ no_space "70%"
  /\ parsePosition "30% 70% / cover" = parsePosition "30% 70%".
Proof.
  assert (Ha : no_space "30%") by (repeat constructor; discriminate).
  assert (Hb : no_space "70%") by (repeat constructor; discriminate).
  exact (conj Ha (conj Hb
           (parsePosition_ignores_further_tokens "30%" "70%" "/ cover" Ha Hb))).
Defined.

(** X5. For every positive zoom the visible share of the picture is the
    inverse of the zoom (width * zoom = 100 * 100), and the anchor point
    sits at the same relative place in the crop window as in the picture:
    left + x * width / 100 = x, and likewise for top. For a zoom below 100
    the window is wider than the picture and its left edge is not
    positive. *)
Theorem crop_aligns_anchor (z ax ay : Q) :
  0 < z -> 0 <= ax -> 0 <= ay ->
  exists w l t : Q,
    crop (Fin z) {| x := Number (Fin ax); y := Number (Fin ay) |}
    = {| cropWidth := Fin w; cropHeight := Fin w;
         cropLeft := Fin l; cropTop := Fin t |}
    /\ w * z == 10000
    /\ l + ax * (w / 100) == ax
    /\ t + ay * (w / 100) == ay
    /\ (z < 100 -> 100 < w /\ l <= 0 /\ t <= 0).
Proof.
  intros Hz Hx Hy.
  set (w := 100 / (z / 100)).
  exists w, (ax * (1 - w / 100)), (ay * (1 - w / 100)).
  assert (Hwz : w * z == 10000) by (unfold w; field; lra).
  split.
  { unfold crop, of_Z; cbn [x y to_number inject_Z].
    rewrite ndiv_Fin_100.
    rewrite (ndiv_Fin _ (z / 100)) by (apply Qlt_shift_div_l; lra).
    rewrite ndiv_Fin_100. reflexivity. }
  split; [exact Hwz|]. split; [field|]. split; [field|].
  intros Hlt. assert (Hw : 100 < w) by nra.
  assert (Hfrac : 1 - w / 100 == (100 - w) / 100) by field.
  assert (Hneg : (100 - w) / 100 <= 0).
  { apply Qle_shift_div_r; lra. }
  split; [exact Hw|]. rewrite !Hfrac. split; nra.
Qed.

Lemma crop_aligns_anchor_witness :
  0 < 50 /\ 0 <= 20 /\ 0 <= 80
  /\ exists w l t : Q,
       crop (Fin 50) {| x := Number (Fin 20); y := Number (Fin 80) |}
       = {| cropWidth := Fin w; cropHeight := Fin w;
            cropLeft := Fin l; cropTop := Fin t |}
       /\ w * 50 == 10000
       /\ l + 20 * (w / 100) == 20
       /\ t + 80 * (w / 100) == 80
       /\ (50 < 100 -> 100 < w /\ l <= 0 /\ t <= 0).
Proof.
  assert (H1 : 0 < 50) by reflexivity.
  assert (H2 : 0 <= 20) by discriminate.
  assert (H3 : 0 <= 80) by discriminate.
  exact (conj H1 (conj H2 (conj H3 (crop_aligns_anchor 50 20 80 H1 H2 H3)))).
Defined.

End PositionsAndCrop.

(** ** The exports *)

Section ExportProperties.
Local Open Scope list_scope.

Lemma to_uint_not_Nil (n : nat) : Nat.to_uint n <> Nil.
Proof.
  intros H. pose proof (DecimalNat.Unsigned.to_of (Nat.to_uint n)) as Hu.
  rewrite DecimalNat.Unsigned.of_to, H in Hu. discriminate Hu.
Qed.

Lemma string_of_nat_digits (n : nat) :
  string_of_nat n = NilEmpty.string_of_uint (Nat.to_uint n).
Proof.
  unfold string_of_nat, NilZero.string_of_uint.
  pose proof (to_uint_not_Nil n). now destruct (Nat.to_uint n).
Qed.

Lemma padStart2_digits (n : nat) :
  padStart2 (string_of_nat n) = NilEmpty.string_of_uint (padded n).
Proof.
  rewrite string_of_nat_digits. unfold padded.
  pose proof (to_uint_not_Nil n) as Hn.
  destruct (Nat.to_uint n) as [|u|u|u|u|u|u|u|u|u|u]; try congruence;
    destruct u; reflexivity.
Qed.

Lemma padded_value (n : nat) : Nat.of_uint (padded n) = n.
Proof.
  rewrite <- (DecimalNat.Unsigned.of_to n) at 2. unfold padded.
  destruct (Nat.to_uint n) as [|u|u|u|u|u|u|u|u|u|u]; try reflexivity;
    destruct u; reflexivity.
Qed.

Lemma append_inv_head (a r r' : string) :
  (a ++ r = a ++ r')%string -> r = r'.
Proof.
  induction a as [|c a IH]; [now rewrite !append_nil|].
  rewrite !append_cons. intros H. injection H as H. now apply IH.
Qed.

Lemma entry_name_index (i j : nat) (f g : Frame) :
  entry_name i f = entry_name j g -> i = j.
Proof.
  unfold entry_name. rewrite !padStart2_digits.
  intros H.
  assert (Hd : forall u r, take_digits (NilEmpty.string_of_uint u ++ "_" ++ r)%string
                           = (u, ("_" ++ r)%string))
    by (intros u r; now apply take_digits_digits).
  apply append_inv_head in H.
  apply (f_equal take_digits) in H. rewrite !Hd in H.
  injection H as Hu _.
  apply (f_equal Nat.of_uint) in Hu. rewrite !padded_value in Hu. lia.
Qed.

Lemma zip_entries_from_names (i : nat) (frames : list Frame) (name : string) :
  In name (List.map fst (zip_entries_from i frames)) ->
  exists j f, (i <= j)%nat /\ name = entry_name j f.
Proof.
  revert i. induction frames as [|f frames IH]; intros i; cbn; [tauto|].
  assert (Hrest : In name (List.map fst (zip_entries_from (S i) frames)) ->
                  exists j g, (i <= j)%nat /\ name = entry_name j g).
  { intros H. destruct (IH _ H) as (j & g & Hj & ->). exists j, g. split; [lia|reflexivity]. }
  destruct (image f) as [img|]; [|exact Hrest].
  destruct (truthy img); [|exact Hrest].
  cbn. intros [<-|H]; [|now apply Hrest].
  exists i, f. split; [lia|reflexivity].
Qed.

(** X6. The archive gets one file per record that has a picture, and no
    two files share a name, so no picture replaces another: the name
    carries the shot number, whatever the shot types are. *)
Theorem zip_entries_have_their_own_names (frames : list Frame) :
  NoDup (List.map fst (zip_entries frames))
  /\ length (zip_entries frames)
     = length (List.filter image_present frames).
Proof.
  unfold zip_entries. generalize 0%nat as i.
  induction frames as [|f frames IH]; intros i; cbn [zip_entries_from List.filter].
  - split; [constructor|reflexivity].
  - destruct (IH (S i)) as [Hnd Hlen].
    unfold image_present at 1.
    destruct (image f) as [img|]; [|split; assumption].
    destruct (truthy img); [|split; assumption].
    cbn [List.map fst length]. split; [|now rewrite Hlen].
    apply NoDup_cons. split; [|exact Hnd].
    rewrite list_elem_of_In. intros Hin.
    destruct (zip_entries_from_names _ _ _ Hin) as (j & g & Hj & Heq).
    apply entry_name_index in Heq. lia.
Qed.

(** X7. The overview grid is 3 cells wide: for each of the 27 shots the
    cell lies inside the 3840 x 6480 canvas and the label box inside the
    cell, the cells of two different shots never overlap, and a shot
    beyond the 27th would be drawn below the canvas. *)
Theorem grid_cells_tile_the_canvas (i j : nat) (img img' : string) :
  ((i < 27)%nat ->
   inside (draw_rect (draw_cell i img)) canvas
   /\ inside (draw_label_box (draw_cell i img)) (draw_rect (draw_cell i img)))
  /\ (i <> j -> disjoint (draw_rect (draw_cell i img)) (draw_rect (draw_cell j img')))
  /\ ((27 <= i)%nat -> (canvas_height <= rect_top (draw_rect (draw_cell i img)))%Z).
Proof.
  unfold inside, disjoint, canvas, canvas_width, canvas_height, draw_cell;
    cbn [draw_rect draw_label_box rect_left rect_top rect_width rect_height].
  pose proof (Nat.mod_upper_bound i 3 ltac:(lia)) as Hi.
  pose proof (Nat.mod_upper_bound j 3 ltac:(lia)) as Hj.
  pose proof (Nat.div_mod_eq i 3) as Ei.
  pose proof (Nat.div_mod_eq j 3) as Ej.
  split; [|split].
  - intros Hlt. lia.
  - intros Hne.
    destruct (Nat.eq_dec (i mod 3) (j mod 3)) as [Hc|Hc];
      destruct (Nat.eq_dec (i / 3) (j / 3)) as [Hr|Hr]; lia.
  - intros Hge. lia.
Qed.

End ExportProperties.

(** ** What the service wrappers send *)

Section Requests.
Local Open Scope list_scope.





End Requests.

(** ** The order of the render calls *)

Section RenderOrder.
Local Open Scope list_scope.

Lemma render_loop_calls_in_order (cl : AppState) (initialFrames : list Frame)
    (protocol : string) :
  truthy protocol = true ->
  forall (rs : list reply) (i : nat) (w : World),
    parked w = [] ->
    forallb render_reply rs = true ->
    length rs = (length initialFrames - i)%nat ->
    calls is_render (run (render_loop cl i initialFrames protocol w) (paced rs))
    = calls is_render w
      ++ List.map (render_call cl protocol) (drop i initialFrames).
Proof.
  intros Hp rs. induction rs as [|r rs IH]; intros i w Hw Hrs Hlen.
  - cbn [length] in Hlen. unfold render_loop.
    replace (i <? length initialFrames)%nat with false
      by (symmetry; apply Nat.ltb_ge; lia).
    rewrite drop_ge by lia. cbn. now rewrite app_nil_r.
  - cbn [length] in Hlen. cbn [forallb] in Hrs.
    apply andb_true_iff in Hrs as [Hr Hrs].
    assert (Hi : (i < length initialFrames)%nat) by lia.
    destruct (lookup_lt_is_Some_2 initialFrames i Hi) as [f Hf].
    set (k := ThenPace cl i initialFrames protocol).
    set (w0 := emit (Call (render_call cl protocol f))
                 (setRegeneratingIndices (fun prev => <[i:=true]> prev) w)).
    set (w1 := park (AwaitRender i (targetResolution cl) k) w0).
    assert (Hstart : render_loop cl i initialFrames protocol w = w1).
    { unfold render_loop. apply Nat.ltb_lt in Hi as ->.
      unfold performRegeneration. rewrite Hp, Hf.
      unfold w1, w0, render_call, or_else. now rewrite Hp. }
    rewrite Hstart. clear Hstart.
    assert (Hw0 : parked w0 = []) by exact Hw.
    assert (Hc0 : calls is_render w0
                  = calls is_render w ++ [render_call cl protocol f])
      by (unfold w0; now rewrite calls_emit).
    assert (Hunpark : unpark 0 w1 = w0) by (apply unpark_park, Hw0).
    change (run w1 (paced (r :: rs)))
      with (run (step (step w1 (Answer 0 r)) (Answer 0 Elapsed)) (paced rs)).
    assert (Hlook : parked w1 !! 0%nat
                    = Some (AwaitRender i (targetResolution cl) k))
      by (unfold w1; cbn [park parked]; now rewrite Hw0).
    assert (Hstep1 : exists o, step w1 (Answer 0 r)
                               = performRegeneration_settled i k o w0).
    { destruct r as [| | |ps| |m]; try discriminate Hr.
      - eexists. rewrite (step_answer w1 _ 0 _ (Parts ps) Hlook eq_refl).
        now rewrite Hunpark.
      - eexists. rewrite (step_answer w1 _ 0 _ (Error m) Hlook eq_refl).
        now rewrite Hunpark. }
    destruct Hstep1 as [o ->].
    destruct (performRegeneration_settled_effects i k o w0) as (_ & Hc & Hpk).
    set (w2 := performRegeneration_settled i k o w0) in *.
    rewrite Hw0 in Hpk. cbn [app] in Hpk. unfold k in Hpk.
    assert (Hlook2 : parked w2 !! 0%nat
                     = Some (AwaitTimeout cl i initialFrames protocol))
      by now rewrite Hpk.
    rewrite (step_answer w2 _ 0 _ Elapsed Hlook2 eq_refl).
    assert (Hw3 : parked (unpark 0 w2) = [])
      by (cbn [unpark parked]; now rewrite Hpk).
    rewrite (IH (S i) (unpark 0 w2) Hw3 Hrs ltac:(lia)).
    change (calls is_render (unpark 0 w2)) with (calls is_render w2).
    rewrite Hc, Hc0, <- app_assoc. f_equal.
    rewrite (drop_S initialFrames f i Hf). reflexivity.
Qed.

(** X9. Once a non-empty plan has arrived, full generation requests the
    planned records one after the other in index order, each with the
    assets, scene and resolution of the session the generation was
    started in and with its protocol; this holds whatever the answers to
    the render calls are, and the run ends with nothing pending and
    nothing alerted. *)
Theorem generation_renders_in_order (w : World) (cl : AppState)
    (protocol : string) (plan : list FrameData) (rs : list reply) :
  parked w = [AwaitPlan cl protocol] ->
  truthy protocol = true ->
  take 27 plan <> [] ->
  forallb render_reply rs = true ->
  length rs = length (frames cl) ->
  let w' := run w (Answer 0 (Json (Some plan)) :: paced rs) in
  calls is_render w'
  = calls is_render w
    ++ List.map (render_call cl protocol)
         (imap (planned_frame (take 27 plan)) (frames cl))
  /\ parked w' = []
  /\ alerts w' = alerts w.
Proof.
  intros Hw Hp Hplan Hrs Hlen w'.
  destruct (generation_renders_every_shot w cl protocol plan rs Hw Hp Hplan Hrs Hlen)
    as (_ & Hpk & Ha).
  split; [|split; assumption].
  assert (Hlook : parked w !! 0%nat = Some (AwaitPlan cl protocol))
    by now rewrite Hw.
  unfold w'.
  change (run w (Answer 0 (Json (Some plan)) :: paced rs))
    with (run (step w (Answer 0 (Json (Some plan)))) (paced rs)).
  rewrite (step_answer w _ 0 _ (Json (Some plan)) Hlook eq_refl).
  unfold plan_settled. cbn [planStoryboardSequence].
  destruct (take 27 plan) as [|p0 ps] eqn:E; [congruence|].
  cbn [is_empty]. rewrite <- E.
  set (initialFrames := imap (planned_frame (take 27 plan)) (frames cl)).
  set (w0 := setIsGenerating false (setFrames (fun _ => initialFrames) (unpark 0 w))).
  assert (Hw0 : parked w0 = [])
    by (unfold w0; cbn [setIsGenerating setFrames update unpark parked];
        now rewrite Hw).
  assert (Hlen' : length rs = (length initialFrames - 0)%nat)
    by (unfold initialFrames; rewrite length_imap; lia).
  rewrite (render_loop_calls_in_order cl initialFrames protocol Hp rs 0 w0
             Hw0 Hrs Hlen').
  reflexivity.
Qed.

Lemma generation_renders_in_order_witness :
  let rs := replicate 27 (Error "busy") in
  parked scenario_planning = [AwaitPlan (state scenario_ready) "PROTOCOL"]
  /\ truthy "PROTOCOL" = true
  /\ take 27 short_plan <> []
  /\ forallb render_reply rs = true
  /\ length rs = length (frames (state scenario_ready))
  /\ parked (run scenario_planning (Answer 0 (Json (Some short_plan)) :: paced rs))
     = []
  /\ alerts (run scenario_planning (Answer 0 (Json (Some short_plan)) :: paced rs))
     = alerts scenario_planning.
Proof.
  intros rs.
  assert (H1 : parked scenario_planning
               = [AwaitPlan (state scenario_ready) "PROTOCOL"]) by reflexivity.
  assert (H2 : truthy "PROTOCOL" = true) by reflexivity.
  assert (H3 : take 27 short_plan <> []) by discriminate.
  assert (H4 : forallb render_reply rs = true) by reflexivity.
  assert (H5 : length rs = length (frames (state scenario_ready))) by reflexivity.
  repeat (split; [assumption|]).
  exact (proj2 (generation_renders_in_order scenario_planning
                  (state scenario_ready) "PROTOCOL" short_plan rs
                  H1 H2 H3 H4 H5)).
Defined.

End RenderOrder.

(** ** The protocol cache and the flags *)

Section CacheAndFlags.
Local Open Scope list_scope.

Lemma performRegeneration_state cl index currentFrames currentProtocol res k w :
  productionProtocol (state (performRegeneration cl index currentFrames currentProtocol res k w))
  = productionProtocol (state w)
  /\ isAnalyzing (state (performRegeneration cl index currentFrames currentProtocol res k w))
     = isAnalyzing (state w)
  /\ isGenerating (state (performRegeneration cl index currentFrames currentProtocol res k w))
     = isGenerating (state w).
Proof.
  unfold performRegeneration.
  destruct (negb (truthy currentProtocol) && is_empty (assets cl));
    [now rewrite resume_state|].
  destruct (currentFrames !! index); [repeat split|].
  rewrite resume_state. repeat split.
Qed.

Lemma analysis_settled_resolved_state cl k protocol w :
  productionProtocol (state (analysis_settled cl k (Resolved protocol) w))
  = productionProtocol (state w)
  /\ isAnalyzing (state (analysis_settled cl k (Resolved protocol) w))
     = isAnalyzing (state w).
Proof.
  destruct k; cbn [analysis_settled]; [|repeat split].
  destruct (performRegeneration_state cl index (frames cl) protocol None Return w)
    as (H1 & H2 & _).
  split; assumption.
Qed.

(** X10. When the analysis answers, its text (or the fixed fallback text
    when the answer has none) becomes the cached protocol, which is
    therefore never empty, and the analysing flag is cleared; from then on
    a regeneration of any shot makes no further analysis call. *)
Theorem analysis_answer_is_cached (w : World) (n : nat) (cl : AppState)
    (k : analysis_cont) (text : option string) :
  parked w !! n = Some (AwaitAnalysis cl k) ->
  let w' := step w (Answer n (Text text)) in
  productionProtocol (state w') = or_else (default "" text) "Protocol synthesis failed."
  /\ truthy (productionProtocol (state w')) = true
  /\ isAnalyzing (state w') = false
  /\ forall index,
       calls is_analysis (handleRegenerateFrame index w') = calls is_analysis w'.
Proof.
  intros Hn w'.
  assert (Hw' : w' = analysis_replied cl k (Resolved text) (unpark n w))
    by (apply (step_answer w _ n _ (Text text) Hn eq_refl)).
  assert (Hp : productionProtocol (state w') = analyzeProductionAssets text
               /\ isAnalyzing (state w') = false).
  { rewrite Hw'. unfold analysis_replied.
    destruct (analysis_settled_resolved_state cl k (analyzeProductionAssets text)
                (setIsAnalyzing false
                   (setProductionProtocol (analyzeProductionAssets text) (unpark n w))))
      as [H1 H2].
    rewrite H1, H2. split; reflexivity. }
  destruct Hp as [Hp Ha].
  assert (Ht : truthy (productionProtocol (state w')) = true)
    by (rewrite Hp; apply analyzeProductionAssets_truthy).
  split; [exact Hp|]. split; [exact Ht|]. split; [exact Ha|].
  intros index. now apply cached_protocol_is_reused.
Qed.

Lemma analysis_answer_is_cached_witness :
  let w := run scenario_ready [ ClickRender 0 ] in
  parked w !! 0%nat = Some (AwaitAnalysis (state scenario_ready) (ThenRegenerate 0))
  /\ productionProtocol (state (step w (Answer 0 (Text None))))
     = "Protocol synthesis failed."
  /\ isAnalyzing (state (step w (Answer 0 (Text None)))) = false.
Proof.
  intros w.
  assert (H : parked w !! 0%nat
              = Some (AwaitAnalysis (state scenario_ready) (ThenRegenerate 0)))
    by reflexivity.
  split; [exact H|].
  pose proof (analysis_answer_is_cached w 0 _ _ None H) as (H1 & _ & H3 & _).
  exact (conj H1 H3).
Defined.

(** X11. When the analysis call fails, the cache is left as it was and the
    analysing flag is cleared; the records are untouched and no further
    call is made. The message is alerted as it is after a regenerate
    request; after a generate request it is alerted behind the prefix of
    a failed generation and the generating flag is cleared. *)
Theorem analysis_failure_is_alerted (w : World) (n : nat) (cl : AppState)
    (k : analysis_cont) (e : string) :
  parked w !! n = Some (AwaitAnalysis cl k) ->
  let w' := step w (Answer n (Error e)) in
  productionProtocol (state w') = productionProtocol (state w)
  /\ isAnalyzing (state w') = false
  /\ frames (state w') = frames (state w)
  /\ parked w' = delete n (parked w)
  /\ match k with
     | ThenRegenerate _ =>
         effects w' = effects w ++ [Alert e]
         /\ isGenerating (state w') = isGenerating (state w)
     | ThenPlan =>
         effects w' = effects w ++ [Alert ("生成失败: " ++ e)%string]
         /\ isGenerating (state w') = false
     end.
Proof.
  intros Hn w'.
  assert (Hw' : w' = analysis_replied cl k (Rejected e) (unpark n w))
    by (apply (step_answer w _ n _ (Error e) Hn eq_refl)).
  rewrite Hw'. destruct k; repeat split.
Qed.

Lemma analysis_failure_is_alerted_witness :
  let w := run scenario_ready [ ClickGenerate ] in
  parked w !! 0%nat = Some (AwaitAnalysis (state scenario_ready) ThenPlan)
  /\ productionProtocol (state (step w (Answer 0 (Error "quota")))) = ""
  /\ isAnalyzing (state (step w (Answer 0 (Error "quota")))) = false
  /\ alerts (step w (Answer 0 (Error "quota"))) = ["生成失败: quota"]
  /\ isGenerating (state (step w (Answer 0 (Error "quota")))) = false.
Proof.
  intros w.
  assert (H : parked w !! 0%nat
              = Some (AwaitAnalysis (state scenario_ready) ThenPlan))
    by reflexivity.
  split; [exact H|].
  pose proof (analysis_failure_is_alerted w 0 _ _ "quota" H)
    as (H1 & H2 & _ & _ & H5 & H6).
  split; [exact H1|]. split; [exact H2|]. split; [|exact H6].
  unfold alerts. rewrite H5. reflexivity.
Defined.

Lemma filter_lookup_pos {A} (p : A -> bool) (l : list A) (n : nat) (a : A) :
  l !! n = Some a -> p a = true -> (1 <= length (List.filter p l))%nat.
Proof.
  intros Hn Ha.
  assert (Hin : In a (List.filter p l)).
  { apply filter_In. split; [|exact Ha].
    apply list_elem_of_In. eapply list_elem_of_lookup_2, Hn. }
  destruct (List.filter p l); [destruct Hin|cbn; lia].
Qed.

Lemma filter_delete_length {A} (p : A -> bool) (l : list A) (n : nat) (a : A) :
  l !! n = Some a ->
  length (List.filter p (delete n l))
  = (length (List.filter p l) - (if p a then 1 else 0))%nat.
Proof.
  revert n. induction l as [|b l IH]; intros [|n] Hn; try discriminate Hn.
  - injection Hn as ->. cbn. destruct (p a); cbn; lia.
  - change ((b :: l) !! S n) with (l !! n) in Hn.
    change (delete (S n) (b :: l)) with (b :: delete n l).
    pose proof (filter_lookup_pos p l n a Hn) as Hpos.
    specialize (IH n Hn). cbn [List.filter].
    destruct (p b); cbn [length]; rewrite IH; [|reflexivity].
    destruct (p a); [specialize (Hpos eq_refl)|]; lia.
Qed.

(** X12. The answer to a render call for shot i, picture or failure,
    clears the in-progress flag of i, also while other render calls for i
    are still in flight: one call less is pending, and the flag no longer
    tells whether any is. *)
Theorem render_answer_clears_flag (w : World) (n index : nat)
    (res : ImageResolution) (k : render_cont) (r : reply) :
  parked w !! n = Some (AwaitRender index res k) ->
  render_reply r = true ->
  let w' := step w (Answer n r) in
  isRegenerating (state w') index = false
  /\ S (renders_in_flight index w') = renders_in_flight index w.
Proof.
  intros Hn Hr w'.
  assert (Hw' : exists o, w' = performRegeneration_settled index k o (unpark n w)).
  { unfold w'. destruct r as [| | |ps| |m]; try discriminate Hr.
    - eexists. apply (step_answer w _ n _ (Parts ps) Hn eq_refl).
    - eexists. apply (step_answer w _ n _ (Error m) Hn eq_refl). }
  destruct Hw' as [o Hw'].
  destruct (performRegeneration_settled_effects index k o (unpark n w))
    as (_ & _ & Hpk).
  rewrite <- Hw' in Hpk. split.
  - rewrite Hw'. unfold performRegeneration_settled. rewrite resume_state.
    unfold isRegenerating; cbn. now rewrite lookup_insert_eq.
  - unfold renders_in_flight. rewrite Hpk. cbn [unpark parked].
    rewrite List.filter_app, length_app.
    rewrite (filter_delete_length _ _ n _ Hn). rewrite Nat.eqb_refl.
    assert (Hpos : (1 <= length (List.filter
                      (fun t => match t with
                                | AwaitRender i _ _ => Nat.eqb i index
                                | _ => false
                                end) (parked w)))%nat).
    { assert (Hin : In (AwaitRender index res k)
                      (List.filter (fun t => match t with
                                             | AwaitRender i _ _ => Nat.eqb i index
                                             | _ => false
                                             end) (parked w))).
      { apply filter_In. split; [|apply Nat.eqb_refl].
        apply list_elem_of_In. eapply list_elem_of_lookup_2, Hn. }
      destruct (List.filter _ (parked w)); [destruct Hin|cbn; lia]. }
    destruct k; cbn; lia.
Qed.

Lemma render_answer_clears_flag_witness :
  let w := step scenario_rendering (SelectShotType 0 "CU") in
  parked w !! 0%nat = Some (AwaitRender 0 R4K Return)
  /\ render_reply (Error "busy") = true
  /\ isRegenerating (state (step w (Answer 0 (Error "busy")))) 0 = false
  /\ renders_in_flight 0 (step w (Answer 0 (Error "busy"))) = 1%nat.
Proof.
  intros w.
  assert (H1 : parked w !! 0%nat = Some (AwaitRender 0 R4K Return)) by reflexivity.
  assert (H2 : render_reply (Error "busy") = true) by reflexivity.
  split; [exact H1|]. split; [exact H2|].
  pose proof (render_answer_clears_flag w 0 0 R4K Return (Error "busy") H1 H2)
    as [Hf Hc].
  split; [exact Hf|].
  change (renders_in_flight 0 w) with 2%nat in Hc.
  exact (Nat.succ_inj _ _ Hc).
Defined.

End CacheAndFlags.

(** ** What is never sent, and when the generating flag is up *)

Section Sendable.
Local Open Scope list_scope.

Lemma sendable_emit (e : effect) (w : World) :
  sendable e -> Forall sendable (effects w) -> Forall sendable (effects (emit e w)).
Proof.
  intros He Hw. cbn [emit effects]. apply Forall_app. split; [exact Hw|].
  now constructor.
Qed.

Lemma sendable_resume (k : render_cont) (w : World) :
  Forall sendable (effects w) -> Forall sendable (effects (resume k w)).
Proof.
  intros Hw. destruct k; [exact Hw|]. cbn [resume park effects].
  now apply sendable_emit.
Qed.

Lemma or_else_truthy (s d : string) : truthy d = true -> truthy (or_else s d) = true.
Proof. intros Hd. unfold or_else. now destruct (truthy s) eqn:E. Qed.

Lemma sendable_performRegeneration cl index currentFrames currentProtocol res k w :
  Forall sendable (effects w) ->
  Forall sendable
    (effects (performRegeneration cl index currentFrames currentProtocol res k w)).
Proof.
  intros Hw. unfold performRegeneration.
  destruct (negb (truthy currentProtocol) && is_empty (assets cl));
    [now apply sendable_resume|].
  destruct (currentFrames !! index).
  - cbn [park effects]. apply sendable_emit; [|exact Hw].
    cbn [sendable]. now apply or_else_truthy.
  - apply sendable_resume. cbn [clear_flag setRegeneratingIndices update effects].
    now apply sendable_emit.
Qed.

Lemma sendable_performRegeneration_settled index k r w :
  Forall sendable (effects w) ->
  Forall sendable (effects (performRegeneration_settled index k r w)).
Proof.
  intros Hw. unfold performRegeneration_settled. apply sendable_resume.
  destruct r as [newImage|e]; [|now apply sendable_emit].
  destruct (store_image index newImage (frames (state w)));
    [exact Hw|now apply sendable_emit].
Qed.

Lemma sendable_render_loop cl i initialFrames protocol w :
  Forall sendable (effects w) ->
  Forall sendable (effects (render_loop cl i initialFrames protocol w)).
Proof.
  intros Hw. unfold render_loop.
  destruct (i <? length initialFrames)%nat; [|exact Hw].
  now apply sendable_performRegeneration.
Qed.

Lemma sendable_generation_failed message w :
  Forall sendable (effects w) ->
  Forall sendable (effects (generation_failed message w)).
Proof. intros Hw. now apply sendable_emit. Qed.

Lemma sendable_plan_settled cl protocol r w :
  Forall sendable (effects w) ->
  Forall sendable (effects (plan_settled cl protocol r w)).
Proof.
  intros Hw. unfold plan_settled.
  destruct r as [parsed|e]; [|now apply sendable_generation_failed].
  destruct (planStoryboardSequence parsed) as [plan logged].
  assert (Hw1 : Forall sendable
                  (effects (if logged then emit PlanningParseError w else w)))
    by (destruct logged; [now apply sendable_emit|exact Hw]).
  destruct (is_empty plan); [now apply sendable_generation_failed|].
  apply sendable_render_loop. exact Hw1.
Qed.

Lemma sendable_analysis_settled cl k r w :
  Forall sendable (effects w) ->
  Forall sendable (effects (analysis_settled cl k r w)).
Proof.
  intros Hw. destruct k, r; cbn [analysis_settled].
  - now apply sendable_performRegeneration.
  - now apply sendable_emit.
  - cbn [park effects]. now apply sendable_emit.
  - now apply sendable_generation_failed.
Qed.

Lemma sendable_runAnalysisIfNeeded cl k w :
  Forall sendable (effects w) ->
  Forall sendable (effects (runAnalysisIfNeeded cl k w)).
Proof.
  intros Hw. unfold runAnalysisIfNeeded.
  destruct (truthy (productionProtocol cl)); [now apply sendable_analysis_settled|].
  destruct (assets cl) as [|a l] eqn:Ha; cbn [is_empty].
  - now apply sendable_analysis_settled.
  - cbn [park effects]. apply sendable_emit; [|exact Hw].
    cbn [sendable]. discriminate.
Qed.

Lemma sendable_handleFrameChange idx fv w :
  Forall sendable (effects w) ->
  Forall sendable (effects (handleFrameChange idx fv w)).
Proof.
  intros Hw. unfold handleFrameChange.
  destruct (frames (state w) !! idx) as [f|]; [|now apply sendable_emit].
  destruct fv; try exact Hw.
  cbn [setFrames update effects].
  destruct (truthy (productionProtocol (state w))
            || negb (is_empty (assets (state w)))); [|exact Hw].
  now apply sendable_performRegeneration.
Qed.

Lemma sendable_handleAssetUpload files w :
  Forall sendable (effects w) ->
  Forall sendable (effects (handleAssetUpload files w)).
Proof.
  unfold handleAssetUpload. revert w.
  induction files as [|name files IH]; intros w Hw; [exact Hw|].
  cbn [foldl]. apply IH. cbn [park effects]. now apply sendable_emit.
Qed.

Lemma sendable_settle t r w w' :
  Forall sendable (effects w) -> settle t r w = Some w' ->
  Forall sendable (effects w').
Proof.
  intros Hw Hs.
  destruct t as [name|cl k|cl protocol|index resolution k|cl i initialFrames protocol],
    r as [random_id result|text|parsed|parts| |e];
    try discriminate Hs; injection Hs as <-.
  - unfold reader_onload. now destruct (truthy result).
  - unfold analysis_replied. now apply sendable_analysis_settled.
  - unfold analysis_replied. now apply sendable_analysis_settled.
  - exact (sendable_plan_settled cl protocol (Resolved parsed) w Hw).
  - exact (sendable_plan_settled cl protocol (Rejected e) w Hw).
  - exact (sendable_performRegeneration_settled index k
             (generateCinemaFrame resolution parts) w Hw).
  - exact (sendable_performRegeneration_settled index k (Rejected e) w Hw).
  - exact (sendable_render_loop cl (S i) initialFrames protocol w Hw).
Qed.

Lemma sendable_step (w : World) (e : event) :
  Forall sendable (effects w) -> Forall sendable (effects (step w e)).
Proof.
  intros Hw. destruct e; cbn [step].
  - now apply sendable_handleAssetUpload.
  - exact Hw.
  - exact Hw.
  - now apply sendable_handleFrameChange.
  - now apply sendable_handleFrameChange.
  - destruct (render_disabled (state w) index); [exact Hw|].
    unfold handleRegenerateFrame.
    destruct (is_empty (assets (state w))); [now apply sendable_emit|].
    now apply sendable_runAnalysisIfNeeded.
  - destruct (generate_disabled (state w)); [exact Hw|].
    unfold generateFullStoryboard.
    destruct (negb (truthy (sceneDesc (state w)))); [now apply sendable_emit|].
    now apply sendable_runAnalysisIfNeeded.
  - destruct (parked w !! k) as [t|] eqn:Hk; [|exact Hw].
    destruct (settle t r (unpark k w)) as [w'|] eqn:Hs; [|exact Hw].
    cbn. eapply sendable_settle; [|exact Hs]. exact Hw.
Qed.

(** X13. Whatever the user does and whatever the services answer, in
    whatever order, the program never sends an analysis request with an
    empty asset list (so the early return of the service on no assets is
    never taken from the application) and never sends a render request
    with an empty protocol text. *)
Theorem requests_are_never_empty (w : World) (es : list event) :
  Forall sendable (effects w) ->
  forall r, In (Call r) (effects (run w es)) ->
    match r with
    | AnalyzeProductionAssets a t =>
        a <> [] /\ exists r', analysis_request a t = inr r'
    | GenerateCinemaFrame _ _ p _ => truthy p = true
    | _ => True
    end.
Proof.
  intros Hw r Hin.
  assert (Hall : Forall sendable (effects (run w es))).
  { clear Hin. revert w Hw. induction es as [|e es IH]; intros w Hw; [exact Hw|].
    apply IH. now apply sendable_step. }
  rewrite Forall_forall in Hall.
  specialize (Hall (Call r)). cbn [sendable] in Hall.
  assert (Hr : sendable (Call r)) by (apply Hall, list_elem_of_In, Hin).
  destruct r as [| a t | | | ]; try exact I.
  - cbn [sendable] in Hr. split; [exact Hr|].
    unfold analysis_request. destruct a; [congruence|]. eexists; reflexivity.
  - exact Hr.
Qed.

Lemma requests_are_never_empty_witness :
  let es := [ Upload ["a.png"%string];
              Answer 0 (FileLoaded "k3" "data:image/png;base64,QUJD");
              SelectShotType 0 "CU" ] in
  Forall sendable (effects initial_world)
  /\ forall r, In (Call r) (effects (run initial_world es)) ->
       match r with
       | AnalyzeProductionAssets a t =>
           a <> [] /\ exists r', analysis_request a t = inr r'
       | GenerateCinemaFrame _ _ p _ => truthy p = true
       | _ => True
       end.
Proof.
  intros es.
  assert (H0 : Forall sendable (effects initial_world)) by constructor.
  exact (conj H0 (requests_are_never_empty initial_world es H0)).
Defined.

End Sendable.

Section GeneratingFlag.
Local Open Scope list_scope.

Lemma plan_phases_park (t : task) (w : World) :
  plan_phases (park t w)
  = (plan_phases w + (if plan_phase t then 1 else 0))%nat.
Proof.
  unfold plan_phases. cbn [park parked].
  rewrite List.filter_app, length_app. cbn [List.filter].
  now destruct (plan_phase t).
Qed.

Lemma plan_phases_unpark (n : nat) (t : task) (w : World) :
  parked w !! n = Some t ->
  plan_phases (unpark n w)
  = (plan_phases w - (if plan_phase t then 1 else 0))%nat.
Proof. intros Hn. unfold plan_phases. now apply filter_delete_length. Qed.

Lemma plan_phases_lookup (n : nat) (t : task) (w : World) :
  parked w !! n = Some t -> plan_phase t = true -> (1 <= plan_phases w)%nat.
Proof. intros Hn Ht. exact (filter_lookup_pos plan_phase _ n t Hn Ht). Qed.

Lemma plan_phases_resume (k : render_cont) (w : World) :
  plan_phases (resume k w) = plan_phases w.
Proof.
  destruct k; [reflexivity|]. cbn [resume]. rewrite plan_phases_park.
  cbn [plan_phase]. unfold plan_phases. cbn [emit parked]. lia.
Qed.

Lemma plan_phases_performRegeneration cl index currentFrames currentProtocol res k w :
  plan_phases (performRegeneration cl index currentFrames currentProtocol res k w)
  = plan_phases w.
Proof.
  unfold performRegeneration.
  destruct (negb (truthy currentProtocol) && is_empty (assets cl));
    [apply plan_phases_resume|].
  destruct (currentFrames !! index).
  - rewrite plan_phases_park. cbn [plan_phase]. unfold plan_phases. cbn. lia.
  - now rewrite plan_phases_resume.
Qed.

Lemma performRegeneration_settled_phase index k r w :
  plan_phases (performRegeneration_settled index k r w) = plan_phases w
  /\ isGenerating (state (performRegeneration_settled index k r w))
     = isGenerating (state w).
Proof.
  unfold performRegeneration_settled.
  rewrite plan_phases_resume, resume_state.
  destruct r as [newImage|e]; [|split; reflexivity].
  destruct (store_image index newImage (frames (state w))); split; reflexivity.
Qed.

Lemma render_loop_phase cl i initialFrames protocol w :
  plan_phases (render_loop cl i initialFrames protocol w) = plan_phases w
  /\ isGenerating (state (render_loop cl i initialFrames protocol w))
     = isGenerating (state w).
Proof.
  unfold render_loop. destruct (i <? length initialFrames)%nat;
    [|split; reflexivity].
  split; [apply plan_phases_performRegeneration|].
  apply performRegeneration_state.
Qed.

Lemma plan_settled_phase cl protocol r w :
  plan_phases (plan_settled cl protocol r w) = plan_phases w
  /\ isGenerating (state (plan_settled cl protocol r w)) = false.
Proof.
  unfold plan_settled. destruct r as [parsed|e]; [|split; reflexivity].
  destruct (planStoryboardSequence parsed) as [plan logged].
  destruct (is_empty plan); [destruct logged; split; reflexivity|].
  match goal with
  | |- context [render_loop ?c ?i ?fs ?p ?w0] =>
      destruct (render_loop_phase c i fs p w0) as [H1 H2]
  end.
  rewrite H1, H2. destruct logged; split; reflexivity.
Qed.

Lemma analysis_settled_phase cl k r w :
  plan_phases (analysis_settled cl k r w)
  = (plan_phases w
     + match k, r with ThenPlan, Resolved _ => 1 | _, _ => 0 end)%nat
  /\ isGenerating (state (analysis_settled cl k r w))
     = match k, r with
       | ThenPlan, Rejected _ => false
       | _, _ => isGenerating (state w)
       end.
Proof.
  destruct k, r; cbn [analysis_settled].
  - rewrite plan_phases_performRegeneration. split; [lia|].
    apply performRegeneration_state.
  - split; [unfold plan_phases; cbn; lia|reflexivity].
  - rewrite plan_phases_park. cbn [plan_phase].
    split; [unfold plan_phases; cbn; lia|reflexivity].
  - split; [unfold plan_phases; cbn; lia|reflexivity].
Qed.

Lemma runAnalysisIfNeeded_regenerate_phase cl index w :
  plan_phases (runAnalysisIfNeeded cl (ThenRegenerate index) w) = plan_phases w
  /\ isGenerating (state (runAnalysisIfNeeded cl (ThenRegenerate index) w))
     = isGenerating (state w).
Proof.
  unfold runAnalysisIfNeeded.
  destruct (truthy (productionProtocol cl)).
  { destruct (analysis_settled_phase cl (ThenRegenerate index)
                (Resolved (productionProtocol cl)) w) as [H1 H2].
    rewrite H1, H2. split; [lia|reflexivity]. }
  destruct (is_empty (assets cl)); [split; reflexivity|].
  rewrite plan_phases_park. cbn [plan_phase].
  split; [unfold plan_phases; cbn; lia|reflexivity].
Qed.

Lemma runAnalysisIfNeeded_plan_phase cl w :
  isGenerating (state w) = true ->
  let w' := runAnalysisIfNeeded cl ThenPlan w in
  plan_phases w' = (plan_phases w + (if isGenerating (state w') then 1 else 0))%nat.
Proof.
  intros Hg w'. unfold w', runAnalysisIfNeeded.
  destruct (truthy (productionProtocol cl)).
  { destruct (analysis_settled_phase cl ThenPlan
                (Resolved (productionProtocol cl)) w) as [H1 H2].
    rewrite H1, H2, Hg. reflexivity. }
  destruct (is_empty (assets cl)).
  { destruct (analysis_settled_phase cl ThenPlan
                (Rejected "请上传至少一张视觉资产作为参考。") w) as [H1 H2].
    rewrite H1, H2. reflexivity. }
  rewrite plan_phases_park. cbn [plan_phase].
  cbn [park emit setIsAnalyzing update state isGenerating]. rewrite Hg.
  unfold plan_phases. cbn. reflexivity.
Qed.

Lemma handleFrameChange_phase idx fv w :
  plan_phases (handleFrameChange idx fv w) = plan_phases w
  /\ isGenerating (state (handleFrameChange idx fv w)) = isGenerating (state w).
Proof.
  unfold handleFrameChange.
  destruct (frames (state w) !! idx) as [f|]; [|split; reflexivity].
  destruct fv; try (split; reflexivity).
  destruct (truthy (productionProtocol (state w))
            || negb (is_empty (assets (state w)))); [|split; reflexivity].
  match goal with
  | |- context [performRegeneration ?c ?i ?fs ?p ?r ?k ?w0] =>
      pose proof (plan_phases_performRegeneration c i fs p r k w0) as H1;
      destruct (performRegeneration_state c i fs p r k w0) as (_ & _ & H2)
  end.
  split; [exact H1|exact H2].
Qed.

Lemma handleAssetUpload_phase files w :
  plan_phases (handleAssetUpload files w) = plan_phases w
  /\ isGenerating (state (handleAssetUpload files w)) = isGenerating (state w).
Proof.
  unfold handleAssetUpload. revert w.
  induction files as [|name files IH]; intros w; [split; reflexivity|].
  cbn [foldl]. destruct (IH (park (AwaitFile name) (emit (Call (ReadAsDataURL name)) w)))
    as [H1 H2].
  rewrite H1, H2, plan_phases_park. cbn [plan_phase].
  split; [unfold plan_phases; cbn; lia|reflexivity].
Qed.

Lemma settle_generating (n : nat) (t : task) (r : reply) (w w' : World) :
  parked w !! n = Some t -> generating_inv w ->
  settle t r (unpark n w) = Some w' -> generating_inv w'.
Proof.
  unfold generating_inv. intros Hn Hw Hs.
  pose proof (plan_phases_unpark n t w Hn) as Hu.
  assert (Hpos : plan_phase t = true ->
                 isGenerating (state w) = true /\ plan_phases (unpark n w) = 0%nat).
  { intros Ht. pose proof (plan_phases_lookup n t w Hn Ht) as H1.
    rewrite Ht in Hu. destruct (isGenerating (state w)); [split; [reflexivity|lia]|lia]. }
  assert (Hneg : plan_phase t = false ->
                 plan_phases (unpark n w)
                 = if isGenerating (state (unpark n w)) then 1%nat else 0%nat).
  { intros Ht. rewrite Ht in Hu. cbn [unpark state]. lia. }
  destruct t as [name|cl k|cl protocol|index resolution k|cl i initialFrames protocol],
    r as [random_id result|text|parsed|parts| |e];
    try discriminate Hs; injection Hs as <-.
  - unfold reader_onload. destruct (truthy result); exact (Hneg eq_refl).
  - unfold analysis_replied.
    match goal with
    | |- context [analysis_settled ?c ?k0 ?r0 ?w0] =>
        destruct (analysis_settled_phase c k0 r0 w0) as [H1 H2]
    end.
    rewrite H1, H2.
    change (plan_phases (setIsAnalyzing false (setProductionProtocol
              (analyzeProductionAssets text) (unpark n w))))
      with (plan_phases (unpark n w)).
    change (isGenerating (state (setIsAnalyzing false (setProductionProtocol
              (analyzeProductionAssets text) (unpark n w)))))
      with (isGenerating (state w)).
    destruct k.
    + rewrite (Hneg eq_refl). cbn [unpark state]. lia.
    + destruct (Hpos eq_refl) as [Hg H0]. rewrite H0, Hg. reflexivity.
  - unfold analysis_replied.
    match goal with
    | |- context [analysis_settled ?c ?k0 ?r0 ?w0] =>
        destruct (analysis_settled_phase c k0 r0 w0) as [H1 H2]
    end.
    rewrite H1, H2.
    change (plan_phases (setIsAnalyzing false (unpark n w)))
      with (plan_phases (unpark n w)).
    change (isGenerating (state (setIsAnalyzing false (unpark n w))))
      with (isGenerating (state w)).
    destruct k.
    + rewrite (Hneg eq_refl). cbn [unpark state]. lia.
    + destruct (Hpos eq_refl) as [Hg H0]. rewrite H0. reflexivity.
  - change (generating_inv (plan_settled cl protocol (Resolved parsed) (unpark n w))).
    unfold generating_inv.
    destruct (plan_settled_phase cl protocol (Resolved parsed) (unpark n w))
      as [H1 H2].
    rewrite H1, H2. exact (proj2 (Hpos eq_refl)).
  - change (generating_inv (plan_settled cl protocol (Rejected e) (unpark n w))).
    unfold generating_inv.
    destruct (plan_settled_phase cl protocol (Rejected e) (unpark n w))
      as [H1 H2].
    rewrite H1, H2. exact (proj2 (Hpos eq_refl)).
  - change (generating_inv (performRegeneration_settled index k
              (generateCinemaFrame resolution parts) (unpark n w))).
    unfold generating_inv.
    destruct (performRegeneration_settled_phase index k
                (generateCinemaFrame resolution parts) (unpark n w)) as [H1 H2].
    rewrite H1, H2. exact (Hneg eq_refl).
  - change (generating_inv (performRegeneration_settled index k
              (Rejected e) (unpark n w))).
    unfold generating_inv.
    destruct (performRegeneration_settled_phase index k (Rejected e) (unpark n w))
      as [H1 H2].
    rewrite H1, H2. exact (Hneg eq_refl).
  - change (generating_inv (render_loop cl (S i) initialFrames protocol (unpark n w))).
    unfold generating_inv.
    destruct (render_loop_phase cl (S i) initialFrames protocol (unpark n w))
      as [H1 H2].
    rewrite H1, H2. exact (Hneg eq_refl).
Qed.

Lemma step_generating (w : World) (e : event) :
  generating_inv w -> generating_inv (step w e).
Proof.
  unfold generating_inv. intros Hw. destruct e; cbn [step].
  - destruct (handleAssetUpload_phase files w) as [H1 H2]. now rewrite H1, H2.
  - exact Hw.
  - exact Hw.
  - destruct (handleFrameChange_phase index (Field_shotType val) w) as [H1 H2].
    now rewrite H1, H2.
  - destruct (handleFrameChange_phase index (Field_action val) w) as [H1 H2].
    now rewrite H1, H2.
  - destruct (render_disabled (state w) index); [exact Hw|].
    unfold handleRegenerateFrame.
    destruct (is_empty (assets (state w))); [exact Hw|].
    destruct (runAnalysisIfNeeded_regenerate_phase (state w) index w) as [H1 H2].
    now rewrite H1, H2.
  - destruct (generate_disabled (state w)) eqn:Hd; [exact Hw|].
    unfold generateFullStoryboard.
    destruct (negb (truthy (sceneDesc (state w)))); [exact Hw|].
    assert (Hg : isGenerating (state w) = false).
    { unfold generate_disabled in Hd. now destruct (isGenerating (state w)). }
    rewrite Hg in Hw.
    rewrite (runAnalysisIfNeeded_plan_phase (state w) (setIsGenerating true w) eq_refl).
    change (plan_phases (setIsGenerating true w)) with (plan_phases w).
    now rewrite Hw.
  - destruct (parked w !! k) as [t|] eqn:Hk; [|exact Hw].
    destruct (settle t r (unpark k w)) as [w'|] eqn:Hs; [|exact Hw].
    cbn. exact (settle_generating k t r w w' Hk Hw Hs).
Qed.

(** X14. In every world the program can reach, the generating flag (which
    disables the generate button) is up exactly while a full generation
    waits for its analysis or its plan, and at most one does: the flag is
    lowered when the plan has arrived, so the suspended handlers of the
    rendering loop are not counted by it. *)
Theorem generating_flag_covers_planning_only (es : list event) :
  let w := run initial_world es in
  plan_phases w = (if isGenerating (state w) then 1 else 0)%nat
  /\ (plan_phases w <= 1)%nat
  /\ forall n t, parked w !! n = Some t -> isGenerating (state w) = false ->
       plan_phase t = false.
Proof.
  intros w.
  assert (Hinv : generating_inv w).
  { unfold w. generalize initial_world (eq_refl : generating_inv initial_world).
    induction es as [|e es IH]; intros w0 H0; [exact H0|].
    apply IH. now apply step_generating. }
  unfold generating_inv in Hinv.
  split; [exact Hinv|]. split.
  - rewrite Hinv. destruct (isGenerating (state w)); lia.
  - intros n t Hn Hg. rewrite Hg in Hinv.
    destruct (plan_phase t) eqn:Ht; [|reflexivity].
    pose proof (plan_phases_lookup n t w Hn Ht). lia.
Qed.

End GeneratingFlag.

(** ** The drag, from the press to the position read back *)

Section DragRoundTrip.
Local Open Scope Q_scope.

Lemma N_to_uint_not_Nil (m : N) : N.to_uint m <> Nil.
Proof.
  destruct m as [|p]; [discriminate|]. apply DecimalPos.Unsigned.to_uint_nonnil.
Qed.

Lemma of_uint_N_to_uint (m : N) : Z.of_uint (N.to_uint m) = Z.of_N m.
Proof.
  unfold Z.of_uint. f_equal. destruct m as [|p]; [reflexivity|].
  apply DecimalPos.Unsigned.of_to.
Qed.

Lemma string_of_Z_digits (z : Z) :
  string_of_Z z = NilEmpty.string_of_uint (N.to_uint (Z.to_N z)).
Proof.
  unfold string_of_Z, NilZero.string_of_uint.
  pose proof (N_to_uint_not_Nil (Z.to_N z)).
  now destruct (N.to_uint (Z.to_N z)).
Qed.

Lemma one_digit (k : Z) :
  (0 <= k < 10)%Z -> nb_digits (N.to_uint (Z.to_N k)) = 1%nat.
Proof.
  intros Hk.
  assert (H : (k = 0 \/ k = 1 \/ k = 2 \/ k = 3 \/ k = 4 \/ k = 5 \/ k = 6
               \/ k = 7 \/ k = 8 \/ k = 9)%Z) by lia.
  repeat destruct H as [->|H]; try subst k; reflexivity.
Qed.

(** What [toFixed(1)] writes for a number that is not negative is a
    numeral with one fraction digit, and the numeral denotes the tenth
    next to the number. *)
Lemma toFixed1_numeral (q : Q) :
  0 <= q ->
  let n := tenths q in
  let nq := {| numeral_sign := NoSign;
               int_part := N.to_uint (Z.to_N (n / 10));
               frac_part := Some (N.to_uint (Z.to_N (n mod 10))) |} in
  toFixed1 (Fin q) = numeral_string nq
  /\ int_part nq <> Nil
  /\ numeral_value nq == round1 q
  /\ (0 <= n)%Z.
Proof.
  intros Hq n nq.
  assert (Hn : (0 <= n)%Z).
  { unfold n, tenths. change 0%Z with (Qfloor 0). apply Qfloor_resp_le. lra. }
  assert (Hmod : (0 <= n mod 10 < 10)%Z) by (apply Z.mod_pos_bound; lia).
  assert (Hdiv : (0 <= n / 10)%Z) by (apply Z.div_pos; lia).
  split; [|split; [apply N_to_uint_not_Nil|split; [|exact Hn]]].
  - unfold toFixed1. destruct (Qlt_le_dec q 0) as [Hlt|_]; [lra|].
    unfold fixed1_nonneg. fold (tenths q). fold n.
    rewrite !string_of_Z_digits. unfold numeral_string, nq.
    cbn [numeral_sign int_part frac_part sign_string frac_string].
    rewrite append_nil. reflexivity.
  - rewrite (numeral_value_spec nq). unfold nq.
    cbn [numeral_sign int_part frac_part is_minus default].
    unfold Datatypes.id.
    rewrite !of_uint_N_to_uint, (one_digit _ Hmod), !Z2N.id by lia.
    unfold round1. fold n.
    rewrite (Z.div_mod n 10) at 3 by lia.
    rewrite inject_Z_plus, inject_Z_mult.
    change (inject_Z (10 ^ Z.of_nat 1)) with 10. change (inject_Z 10) with 10.
    field.
Qed.

Lemma round1_near (q : Q) : - (1 # 20) <= round1 q - q <= 1 # 20.
Proof.
  unfold round1, tenths.
  pose proof (Qfloor_le (q * 10 + (1 # 2))) as H1.
  pose proof (Qlt_floor (q * 10 + (1 # 2))) as H2.
  set (n := Qfloor (q * 10 + (1 # 2))) in *.
  rewrite inject_Z_plus in H2. change (inject_Z 1) with 1 in H2.
  assert (E : inject_Z n / 10 == inject_Z n * (1 # 10)) by field.
  rewrite E. split; lra.
Qed.

Lemma round1_range (q : Q) : 0 <= q <= 100 -> 0 <= round1 q <= 100.
Proof.
  intros [H0 H100]. unfold round1, tenths.
  assert (Hlo : (0 <= Qfloor (q * 10 + (1 # 2)))%Z).
  { change 0%Z with (Qfloor 0). apply Qfloor_resp_le. lra. }
  assert (Hhi : (Qfloor (q * 10 + (1 # 2)) <= 1000)%Z).
  { change 1000%Z with (Qfloor (1000 + (1 # 2))). apply Qfloor_resp_le. lra. }
  set (n := Qfloor (q * 10 + (1 # 2))) in *.
  assert (E : inject_Z n / 10 == inject_Z n * (1 # 10)) by field.
  rewrite E.
  assert (H1 : inject_Z 0 <= inject_Z n) by (rewrite <- Zle_Qle; exact Hlo).
  assert (H2 : inject_Z n <= inject_Z 1000) by (rewrite <- Zle_Qle; exact Hhi).
  change (inject_Z 0) with 0 in H1. change (inject_Z 1000) with 1000 in H2.
  split; lra.
Qed.

(** Two tokens that end in a percent sign. *)
Lemma parsePosition_percent_pair (tx ty : string) :
  no_space tx -> no_space ty ->
  ends_with_percent tx = true -> ends_with_percent ty = true ->
  parsePosition (tx ++ String " "%char ty)
  = {| x := Number (parseFloat tx); y := Number (parseFloat ty) |}.
Proof.
  intros Hsx Hsy Hex Hey. unfold parsePosition.
  rewrite (split_space_app tx ty Hsx), (split_space_no_space ty Hsy).
  change ([tx; ty] !! 0%nat) with (Some tx).
  change ([tx; ty] !! 1%nat) with (Some ty).
  cbn [default]. unfold or_else, Datatypes.id.
  rewrite (ends_with_percent_truthy tx Hex), (ends_with_percent_truthy ty Hey).
  now rewrite (parse_percent tx Hex), (parse_percent ty Hey).
Qed.

Lemma clamp_not_NaN (a : num) :
  a <> NaN -> exists v, clamp_0_100 a = Fin v /\ 0 <= v <= 100.
Proof.
  intros Ha. destruct (clamp_in_range a) as [H|H]; [|exact H].
  destruct a; try discriminate H; [|congruence].
  destruct (clamp_Fin q) as (v & Hv & _). congruence.
Qed.

Lemma fround_not_NaN (a : num) : a <> NaN -> fround a <> NaN.
Proof. destruct a; cbn; try congruence. intros _. apply round64_not_NaN. Qed.

Lemma fsub_Fin_not_NaN (p : Q) (b : num) : b <> NaN -> fsub (Fin p) b <> NaN.
Proof. intros Hb. apply fround_not_NaN. destruct b; cbn; congruence. Qed.

Lemma fdiv_pos_not_NaN (a : num) (d : Q) :
  a <> NaN -> 0 < d -> fdiv a (Fin d) <> NaN.
Proof.
  intros Ha Hd. apply fround_not_NaN.
  assert (Hc : (d ?= 0) = Gt) by (now apply Qgt_alt).
  assert (Hb : Qle_bool 0 d = true) by (apply Qle_bool_iff; lra).
  destruct a; cbn; rewrite ?Hc, ?Hb; congruence.
Qed.

Lemma fmul_100_not_NaN (a : num) : a <> NaN -> fmul a (of_Z 100) <> NaN.
Proof.
  intros Ha. apply fround_not_NaN.
  destruct a; [discriminate|vm_compute; discriminate|vm_compute; discriminate|
               congruence].
Qed.

(** The zoom factor of a zoom in the range of the data model is a
    number. *)
Lemma zoomFactor_Fin (z : Q) :
  z <= 350 ->
  nle (fsub (fdiv (Fin z) (of_Z 100)) (of_Z 1)) (round64 (1 # 100)) = false ->
  exists f, fsub (fdiv (Fin z) (of_Z 100)) (of_Z 1) = Fin f /\ 0 < f.
Proof.
  intros Hz. rewrite fdiv_100.
  destruct round64_examples as (_ & _ & -> & _).
  assert (H4 : pow2 2 == 4) by reflexivity.
  assert (Hq : z / 100 <= pow2 2).
  { rewrite H4. apply Qle_shift_div_r; lra. }
  destruct (round64_le_pow2 _ 2 Hq ltac:(lia)) as [->|(v & -> & Hv)];
    [discriminate|].
  unfold fsub, of_Z; cbn [nsub nneg nadd fround inject_Z].
  change (inject_Z 1) with 1.
  assert (Hq' : v + - (1) <= pow2 2) by lra.
  destruct (round64_le_pow2 _ 2 Hq' ltac:(lia)) as [->|(f & -> & Hf)];
    [discriminate|].
  cbn [nle]. intros Hg. exists f. split; [reflexivity|].
  destruct (Qlt_le_dec 0 f) as [H|H]; [exact H|].
  assert (Qle_bool f (5764607523034235 # 576460752303423488) = true).
  { apply Qle_bool_iff. unfold Qle in *. cbn in *. lia. }
  congruence.
Qed.

(** The tenths from 0 to 100 as JavaScript numbers: each lies between 0
    and 100, less than [2^-47] away from the tenth it stands for. *)
Lemma tenths_in_binary64 (n : Z) :
  (0 <= n <= 1000)%Z ->
  exists X, round64 (inject_Z n / 10) = Fin X
    /\ 0 <= X <= 100
    /\ - pow2 (-47) <= X - inject_Z n / 10 <= pow2 (-47).
Proof.
  intros Hn.
  set (ok := fun k : nat =>
               match round64 (Z.of_nat k # 10) with
               | Fin X => Qle_bool 0 X && Qle_bool X 100
                          && Qle_bool (- pow2 (-47)) (X - (Z.of_nat k # 10))
                          && Qle_bool (X - (Z.of_nat k # 10)) (pow2 (-47))
               | _ => false
               end).
  assert (Hall : forallb ok (seq 0 1001) = true) by (vm_compute; reflexivity).
  rewrite forallb_forall in Hall.
  assert (Hin : In (Z.to_nat n) (seq 0 1001)) by (apply in_seq; lia).
  specialize (Hall _ Hin). unfold ok in Hall. rewrite Z2Nat.id in Hall by lia.
  assert (E : inject_Z n / 10 == n # 10).
  { unfold Qdiv, Qeq. cbn. lia. }
  rewrite (round64_Qeq _ _ E).
  destruct (round64 (n # 10)) as [X| | |]; try discriminate Hall.
  apply andb_prop in Hall as [Hall H4]. apply andb_prop in Hall as [Hall H3].
  apply andb_prop in Hall as [H1 H2].
  rewrite Qle_bool_iff in H1, H2, H3, H4.
  exists X. rewrite E. repeat split; assumption.
Qed.

(** X15. For a zoom of the data model's range that passes the guard, on a
    viewport of positive size, the new anchor of a drag tick is a pair of
    numbers from 0 to 100, and the position passed to [onChange] is read
    back by [parsePosition] as two numbers from 0 to 100: on each axis
    the JavaScript number of the anchor rounded to tenths, no more than
    0.05 + 2^-47 away from the anchor. *)
Theorem drag_position_reads_back (sx sy px py z cx cy w h : Q) :
  0 < w -> 0 < h -> z <= 350 ->
  nle (fsub (fdiv (Fin z) (of_Z 100)) (of_Z 1)) (round64 (1 # 100)) = false ->
  let dragStart :=
    {| drag_x := Fin sx; drag_y := Fin sy;
       posX := Number (Fin px); posY := Number (Fin py);
       drag_zoom := Fin z |} in
  exists (ax ay : Q) (s : string) (X Y : Q),
    drag_anchor (Some (Fin w, Fin h)) dragStart (Fin cx) (Fin cy)
    = Some (Fin ax, Fin ay)
    /\ 0 <= ax <= 100 /\ 0 <= ay <= 100
    /\ handleMouseMove (Some (Fin w, Fin h)) dragStart (Fin cx) (Fin cy) = Some s
    /\ parsePosition s = {| x := Number (Fin X); y := Number (Fin Y) |}
    /\ Fin X = round64 (round1 ax) /\ Fin Y = round64 (round1 ay)
    /\ 0 <= X <= 100 /\ 0 <= Y <= 100
    /\ - ((1 # 20) + pow2 (-47)) <= X - ax <= (1 # 20) + pow2 (-47)
    /\ - ((1 # 20) + pow2 (-47)) <= Y - ay <= (1 # 20) + pow2 (-47).
Proof.
  intros Hw Hh Hz Hg dragStart.
  destruct (zoomFactor_Fin z Hz Hg) as (f & Hf & Hf0).
  assert (Haxis : forall p c s0 e, 0 < e ->
            exists a, clamp_0_100
                        (fsub (Fin p)
                           (fdiv (fmul (fdiv (fsub (Fin c) (Fin s0)) (Fin e)) (of_Z 100))
                                 (Fin f))) = Fin a /\ 0 <= a <= 100).
  { intros p c s0 e He. apply clamp_not_NaN, fsub_Fin_not_NaN.
    apply fdiv_pos_not_NaN; [|exact Hf0].
    apply fmul_100_not_NaN, fdiv_pos_not_NaN; [|exact He].
    apply fsub_Fin_not_NaN. discriminate. }
  destruct (Haxis px cx sx w Hw) as (ax & Hax & Hrx).
  destruct (Haxis py cy sy h Hh) as (ay & Hay & Hry).
  assert (Hd : drag_anchor (Some (Fin w, Fin h)) dragStart (Fin cx) (Fin cy)
               = Some (Fin ax, Fin ay)).
  { unfold drag_anchor, dragStart; cbn [drag_zoom drag_x drag_y posX posY to_number].
    rewrite Hg, Hf, Hax, Hay. reflexivity. }
  destruct (toFixed1_numeral ax (proj1 Hrx)) as (Hsx & Hix & Hvx & Hnx0).
  destruct (toFixed1_numeral ay (proj1 Hry)) as (Hsy & Hiy & Hvy & Hny0).
  set (nx := {| numeral_sign := NoSign;
                int_part := N.to_uint (Z.to_N (tenths ax / 10));
                frac_part := Some (N.to_uint (Z.to_N (tenths ax mod 10))) |}) in *.
  set (ny := {| numeral_sign := NoSign;
                int_part := N.to_uint (Z.to_N (tenths ay / 10));
                frac_part := Some (N.to_uint (Z.to_N (tenths ay mod 10))) |}) in *.
  assert (Htx : (0 <= tenths ax <= 1000)%Z).
  { split; [exact Hnx0|]. unfold tenths.
    change 1000%Z with (Qfloor (1000 + (1 # 2))). apply Qfloor_resp_le. lra. }
  assert (Hty : (0 <= tenths ay <= 1000)%Z).
  { split; [exact Hny0|]. unfold tenths.
    change 1000%Z with (Qfloor (1000 + (1 # 2))). apply Qfloor_resp_le. lra. }
  destruct (tenths_in_binary64 _ Htx) as (X & HX & HXr & HXn).
  destruct (tenths_in_binary64 _ Hty) as (Y & HY & HYr & HYn).
  fold (round1 ax) in HX, HXn. fold (round1 ay) in HY, HYn.
  exists ax, ay, (toFixed1 (Fin ax) ++ "% " ++ toFixed1 (Fin ay) ++ "%")%string, X, Y.
  split; [exact Hd|]. split; [exact Hrx|]. split; [exact Hry|].
  split; [unfold handleMouseMove; now rewrite Hd|].
  split.
  { rewrite Hsx, Hsy.
    set (tx := (numeral_string nx ++ "%")%string).
    set (ty := (numeral_string ny ++ "%")%string).
    replace (numeral_string nx ++ "% " ++ ty)%string
      with (tx ++ String " "%char ty)%string
      by (unfold tx; now rewrite append_assoc).
    rewrite parsePosition_percent_pair.
    - unfold tx, ty. rewrite !parseFloat_numeral by assumption.
      now rewrite (round64_Qeq _ _ Hvx), (round64_Qeq _ _ Hvy), HX, HY.
    - apply no_space_numeral; repeat constructor; discriminate.
    - apply no_space_numeral; repeat constructor; discriminate.
    - apply ends_with_percent_app.
    - apply ends_with_percent_app. }
  pose proof (round1_near ax) as Hnx.
  pose proof (round1_near ay) as Hny.
  split; [now rewrite HX|]. split; [now rewrite HY|].
  split; [exact HXr|]. split; [exact HYr|].
  split; split; lra.
Qed.

Lemma drag_position_reads_back_witness :
  0 < 400 /\ 0 < 225 /\ 120 <= 350
  /\ nle (fsub (fdiv (Fin 120) (of_Z 100)) (of_Z 1)) (round64 (1 # 100)) = false
  /\ exists (ax ay : Q) (s : string) (X Y : Q),
       drag_anchor (Some (Fin 400, Fin 225))
         {| drag_x := Fin 0; drag_y := Fin 0;
            posX := Number (Fin 50); posY := Number (Fin 50);
            drag_zoom := Fin 120 |} (Fin 15) (Fin 0)
       = Some (Fin ax, Fin ay)
       /\ 0 <= ax <= 100 /\ 0 <= ay <= 100
       /\ handleMouseMove (Some (Fin 400, Fin 225))
            {| drag_x := Fin 0; drag_y := Fin 0;
               posX := Number (Fin 50); posY := Number (Fin 50);
               drag_zoom := Fin 120 |} (Fin 15) (Fin 0) = Some s
       /\ parsePosition s = {| x := Number (Fin X); y := Number (Fin Y) |}
       /\ Fin X = round64 (round1 ax) /\ Fin Y = round64 (round1 ay)
       /\ 0 <= X <= 100 /\ 0 <= Y <= 100
       /\ - ((1 # 20) + pow2 (-47)) <= X - ax <= (1 # 20) + pow2 (-47)
       /\ - ((1 # 20) + pow2 (-47)) <= Y - ay <= (1 # 20) + pow2 (-47).
Proof.
  assert (H1 : 0 < 400) by reflexivity.
  assert (H2 : 0 < 225) by reflexivity.
  assert (H3 : 120 <= 350) by discriminate.
  assert (H4 : nle (fsub (fdiv (Fin 120) (of_Z 100)) (of_Z 1)) (round64 (1 # 100))
               = false) by (vm_compute; reflexivity).
  exact (conj H1 (conj H2 (conj H3 (conj H4
           (drag_position_reads_back 0 0 50 50 120 15 0 400 225 H1 H2 H3 H4))))).
Defined.

(** X16. On every zoom the controls can set (the slider goes from 100 to
    350 in steps of 5, and every preset is one of its values) the guard
    of [handleMouseMove] bites exactly where [handleMouseDown] refuses
    the press, at 100: a session that has begun has no tick suppressed
    by the guard. *)
Theorem drag_guard_is_redundant (z : Z) (frame : Frame) (pos : anchor)
    (clientX clientY : num) :
  In z slider_zooms ->
  image_present frame = true -> zoom frame = Some (of_Z z) ->
  (handleMouseDown frame pos false false false clientX clientY = None <-> z = 100%Z)
  /\ (forall d,
        handleMouseDown frame pos false false false clientX clientY = Some d ->
        forall width height x' y',
          handleMouseMove (Some (width, height)) d x' y' <> None)
  /\ Forall (fun kp => exists z', preset_zoom (snd kp) = of_Z z' /\ In z' slider_zooms)
       SHOT_TYPE_PRESETS.
Proof.
  intros Hin Hi Hz.
  assert (Hall : forallb (fun z0 =>
                   Bool.eqb (nle (fsub (fdiv (of_Z z0) (of_Z 100)) (of_Z 1))
                                 (round64 (1 # 100)))
                            (nle (of_Z z0) (of_Z 100))) slider_zooms = true)
    by (vm_compute; reflexivity).
  rewrite forallb_forall in Hall. specialize (Hall z Hin).
  apply Bool.eqb_prop in Hall.
  assert (Hge : (100 <= z)%Z).
  { unfold slider_zooms in Hin. apply in_map_iff in Hin as (k & <- & _). lia. }
  assert (Hle : nle (of_Z z) (of_Z 100) = true <-> z = 100%Z).
  { unfold of_Z. rewrite nle_Fin, Qle_bool_iff, <- Zle_Qle. lia. }
  unfold handleMouseDown. rewrite Hi, Hz.
  cbn [default from_option negb orb]. unfold Datatypes.id.
  destruct (nle (of_Z z) (of_Z 100)) eqn:E; cbn [orb].
  - split; [split; [intros _; now apply Hle|reflexivity]|].
    split; [discriminate|].
    repeat constructor; eexists; (split; [reflexivity|vm_compute; tauto]).
  - split; [split; [discriminate|intros H; apply Hle in H; discriminate]|].
    split.
    + intros d [= <-] width height x' y'.
      unfold handleMouseMove, drag_anchor. cbn [drag_zoom].
      rewrite Hall. discriminate.
    + repeat constructor; eexists; (split; [reflexivity|vm_compute; tauto]).
Qed.

Lemma drag_guard_is_redundant_witness :
  let frame := {| image := Some "data:image/png;base64,QUJD"%string;
                  shotType := "LS"; action := ""; dialogue := "";
                  zoom := Some (of_Z 120); position := Some "center center"%string |} in
  In 120%Z slider_zooms /\ image_present frame = true
  /\ zoom frame = Some (of_Z 120)
  /\ forall d,
       handleMouseDown frame (parsePosition "center center") false false false
         (Fin 10) (Fin 10) = Some d ->
       forall width height x' y',
         handleMouseMove (Some (width, height)) d x' y' <> None.
Proof.
  intros frame.
  assert (H1 : In 120%Z slider_zooms) by (vm_compute; tauto).
  assert (H2 : image_present frame = true) by reflexivity.
  assert (H3 : zoom frame = Some (of_Z 120)) by reflexivity.
  exact (conj H1 (conj H2 (conj H3
           (proj1 (proj2 (drag_guard_is_redundant 120 frame
                            (parsePosition "center center") (Fin 10) (Fin 10)
                            H1 H2 H3)))))).
Defined.

End DragRoundTrip.

(** ** Planned records and exports *)

Section PlannedRecords.
Local Open Scope Q_scope.

Lemma within_image_computed (z : Z) (pos : string) (w h l t : Q) :
  crop (of_Z z) (parsePosition pos)
  = {| cropWidth := Fin w; cropHeight := Fin h;
       cropLeft := Fin l; cropTop := Fin t |} ->
  Qle_bool 0 l && Qle_bool 0 t && Qle_bool (l + w) 100 && Qle_bool (t + h) 100
  = true ->
  within_image (crop (of_Z z) (parsePosition pos)).
Proof.
  intros Hc Hb. exists w, h, l, t. split; [exact Hc|].
  apply andb_prop in Hb as [Hb H4]. apply andb_prop in Hb as [Hb H3].
  apply andb_prop in Hb as [H1 H2].
  rewrite Qle_bool_iff in H1, H2, H3, H4. repeat split; assumption.
Qed.

(** What the table of presets holds for a shot type: a zoom between 100
    and 350 with a position whose crop lies inside the picture; a name
    inherited from [Object.prototype] is none of its keys. *)
Lemma preset_crop (s : string) :
  match get SHOT_TYPE_PRESETS s with
  | Own p =>
      is_prototype_name s = false
      /\ exists z : Q, preset_zoom p = Fin z /\ 100 <= z <= 350
         /\ within_image (crop (Fin z) (parsePosition (preset_position p)))
  | Inherited _ => is_prototype_name s = true
  | Undefined => is_prototype_name s = false
  end.
Proof.
  unfold get, SHOT_TYPE_PRESETS. cbn [assoc].
  repeat match goal with
         | |- context [String.eqb s ?k] =>
             destruct (String.eqb_spec s k) as [->|_];
               [split; [reflexivity|];
                eexists; split; [reflexivity|]; split; [split; discriminate|];
                eapply (within_image_computed _ _); vm_compute; reflexivity|]
         end.
  now destruct (is_prototype_name s).
Qed.

(** X17. Whatever the planner answers for a shot, the record built from it
    has no picture yet and keeps the dialogue; unless its shot type is a
    name every object inherits (then the record has neither zoom nor
    position and its card cannot be drawn), its zoom lies between 100 and
    350 and its crop rectangle lies inside the picture. *)
Theorem planned_record_is_croppable (plan : list FrameData) (i : nat) (f : Frame) :
  let r := planned_frame plan i f in
  image r = None /\ dialogue r = dialogue f
  /\ truthy (shotType r) = true
  /\ (is_prototype_name (shotType r) = true ->
      zoom r = None /\ cropRect r = None)
  /\ (is_prototype_name (shotType r) = false ->
      exists (z : Q) (c : CropRect),
        zoom r = Some (Fin z) /\ 100 <= z <= 350
        /\ cropRect r = Some c /\ within_image c).
Proof.
  intros r. unfold r, planned_frame.
  set (p := default {| plan_shotType := None; plan_action := None |} (plan !! i)).
  set (sType := or_else (default "" (plan_shotType p)) "MS").
  assert (Ht : truthy sType = true) by (apply or_else_truthy; reflexivity).
  pose proof (preset_crop sType) as Hp.
  destruct (get SHOT_TYPE_PRESETS sType) as [q|name|];
    cbn [image dialogue shotType zoom]; (split; [reflexivity|]);
    (split; [reflexivity|]); (split; [exact Ht|]); split; intros Hn.
  - destruct Hp as [Hp _]. congruence.
  - destruct Hp as (_ & z & Hz & Hr & Hc).
    exists z, (crop (Fin z) (parsePosition (preset_position q))).
    rewrite Hz. unfold cropRect; cbn [position zoom default from_option].
    repeat split; try apply Hr. exact Hc.
  - split; reflexivity.
  - congruence.
  - congruence.
  - exists 100, (crop (Fin 100) (parsePosition "center center")).
    split; [reflexivity|]. split; [split; discriminate|].
    split; [reflexivity|].
    eapply (within_image_computed 100 "center center"); vm_compute; reflexivity.
Qed.

End PlannedRecords.

Section ExportButtons.
Local Open Scope list_scope.

Lemma zip_entries_from_length (i : nat) (frames : list Frame) :
  length (zip_entries_from i frames) = length (List.filter image_present frames).
Proof.
  revert i. induction frames as [|f frames IH]; intros i; [reflexivity|].
  cbn [zip_entries_from List.filter].
  assert (Hp : image_present f
               = match image f with Some s => truthy s | None => false end)
    by reflexivity.
  rewrite Hp. destruct (image f) as [img|]; [|apply IH].
  destruct (truthy img); cbn [length]; now rewrite IH.
Qed.

(** The loop of the overview either reaches its end, with one cell per
    file of the archive, or is stuck at a picture that does not load,
    with fewer cells. *)
Lemma grid_draws_from_spec (loads : string -> bool) (i : nat) (frames : list Frame) :
  match grid_draws_from loads i frames with
  | (cells, true) =>
      length cells = length (zip_entries_from i frames)
      /\ forall f img, In f frames -> image f = Some img -> truthy img = true ->
           loads img = true
  | (cells, false) =>
      (length cells < length (zip_entries_from i frames))%nat
      /\ exists f img, In f frames /\ image f = Some img /\ truthy img = true
                       /\ loads img = false
  end.
Proof.
  revert i. induction frames as [|f frames IH]; intros i.
  { cbn. split; [reflexivity|]. intros f img []. }
  specialize (IH (S i)). cbn [grid_draws_from zip_entries_from].
  assert (Hskip : (image f = None \/ exists img, image f = Some img /\ truthy img = false) ->
            match grid_draws_from loads (S i) frames with
            | (cells, true) =>
                length cells = length (zip_entries_from (S i) frames)
                /\ forall f0 img, In f0 (f :: frames) -> image f0 = Some img ->
                     truthy img = true -> loads img = true
            | (cells, false) =>
                (length cells < length (zip_entries_from (S i) frames))%nat
                /\ exists f0 img, In f0 (f :: frames) /\ image f0 = Some img
                                  /\ truthy img = true /\ loads img = false
            end).
  { intros Hf. destruct (grid_draws_from loads (S i) frames) as [cells [|]].
    - destruct IH as [IH1 IH2]. split; [exact IH1|].
      intros f0 img [<-|Hin] Him Ht; [|now apply (IH2 f0)].
      destruct Hf as [Hf|(img' & Hf & Hf')]; congruence.
    - destruct IH as [IH1 (f0 & img & Hin & IH2)]. split; [exact IH1|].
      exists f0, img. split; [now right|exact IH2]. }
  destruct (image f) as [img|] eqn:Him; [|apply Hskip; now left].
  destruct (truthy img) eqn:Ht; [|apply Hskip; right; now exists img].
  destruct (loads img) eqn:Hl.
  - destruct (grid_draws_from loads (S i) frames) as [cells [|]].
    + destruct IH as [IH1 IH2]. split; [cbn [length]; now rewrite IH1|].
      intros f0 img0 [<-|Hin] Him0 Ht0; [congruence|now apply (IH2 f0)].
    + destruct IH as [IH1 (f0 & img0 & Hin & IH2)].
      split; [cbn [length]; lia|].
      exists f0, img0. split; [now right|exact IH2].
  - split; [cbn [length]; lia|].
    exists f, img. split; [now left|]. repeat split; assumption.
Qed.

(** X18. The test [!frames.some(f => f.image)] that disables the two
    export buttons holds exactly when the archive would be empty: an
    export that can be started is never empty. The overview has one cell
    per file of the archive when every picture loads; when one does not,
    the loop stays at it with fewer cells drawn and nothing is saved;
    without a canvas context nothing is drawn at all. *)
Theorem export_is_enabled_iff_not_empty (frames : list Frame)
    (loads : string -> bool) :
  (nothing_to_export frames = true <-> zip_entries frames = [])
  /\ export4KGrid false loads frames = NoContext
  /\ ((forall f img, In f frames -> image f = Some img -> truthy img = true ->
         loads img = true) ->
      exists cells, export4KGrid true loads frames = Finished cells
                    /\ length cells = length (zip_entries frames))
  /\ (forall cells, export4KGrid true loads frames = Finished cells ->
        length cells = length (zip_entries frames))
  /\ (forall cells, export4KGrid true loads frames = Stalled cells ->
        (length cells < length (zip_entries frames))%nat
        /\ exists f img, In f frames /\ image f = Some img /\ truthy img = true
                         /\ loads img = false).
Proof.
  pose proof (zip_entries_from_length 0 frames) as H1.
  fold (zip_entries frames) in H1.
  assert (Hex : existsb image_present frames = true
                <-> List.filter image_present frames <> []).
  { clear H1. induction frames as [|f fs IH]; cbn [existsb List.filter].
    - split; [discriminate|congruence].
    - destruct (image_present f); cbn [orb]; [|exact IH].
      split; [intros _; discriminate|reflexivity]. }
  assert (Hz : zip_entries frames = [] <-> List.filter image_present frames = [])
    by (rewrite <- !length_zero_iff_nil, H1; reflexivity).
  pose proof (grid_draws_from_spec loads 0 frames) as Hg.
  fold (zip_entries frames) in Hg.
  split.
  { unfold nothing_to_export. rewrite negb_true_iff, Hz.
    destruct Hex as [Ha Hb].
    destruct (existsb image_present frames).
    - split; [discriminate|]. intros F. exfalso. exact (Ha eq_refl F).
    - split; [intros _|reflexivity].
      destruct (List.filter image_present frames); [reflexivity|].
      assert (false = true) by (apply Hb; discriminate). discriminate. }
  split; [reflexivity|].
  unfold export4KGrid.
  destruct (grid_draws_from loads 0 frames) as [cells [|]].
  - destruct Hg as [Hg1 Hg2]. split; [|split].
    + intros _. now exists cells.
    + now intros cells' [= <-].
    + discriminate.
  - destruct Hg as [Hg1 (f & img & Hin & Him & Ht & Hl)]. split; [|split].
    + intros Hall. rewrite (Hall f img Hin Him Ht) in Hl. discriminate.
    + discriminate.
    + intros cells' [= <-]. split; [exact Hg1|]. now exists f, img.
Qed.

End ExportButtons.

(** ** Analyses in flight *)

Section AnalysesInFlight.
Local Open Scope list_scope.

(** X19. With assets and no cached protocol, a click on an enabled render
    button sends an analysis request, whatever is already awaited: a
    request still unanswered is not waited for, a second one is sent. The
    click raises the analysing flag and not the in-progress flag of the
    shot, so the button stays enabled while the analysis runs. *)
Theorem analysis_is_not_deduplicated (w : World) (index : nat) :
  render_disabled (state w) index = false ->
  truthy (productionProtocol (state w)) = false ->
  assets (state w) <> [] ->
  let w' := step w (ClickRender index) in
  calls is_analysis w'
  = calls is_analysis w
    ++ [AnalyzeProductionAssets (assets (state w)) (sceneDesc (state w))]
  /\ parked w' = parked w ++ [AwaitAnalysis (state w) (ThenRegenerate index)]
  /\ isAnalyzing (state w') = true
  /\ calls is_render w' = calls is_render w
  /\ render_disabled (state w') index = false.
Proof.
  intros Hd Hp Ha w'. unfold w'. cbn [step]. rewrite Hd.
  unfold handleRegenerateFrame, runAnalysisIfNeeded. rewrite Hp.
  destruct (assets (state w)) as [|a l] eqn:E; [congruence|]. cbn [is_empty].
  split; [|split; [reflexivity|split; [reflexivity|split]]].
  - unfold calls. cbn. now rewrite omap_app.
  - unfold calls. cbn. rewrite omap_app. cbn. apply app_nil_r.
  - exact Hd.
Qed.

Lemma analysis_is_not_deduplicated_witness :
  let w := step scenario_ready (ClickRender 0) in
  render_disabled (state w) 0 = false
  /\ truthy (productionProtocol (state w)) = false
  /\ assets (state w) <> []
  /\ length (calls is_analysis w) = 1%nat
  /\ length (calls is_analysis (step w (ClickRender 0))) = 2%nat.
Proof.
  intros w.
  assert (H1 : render_disabled (state w) 0 = false) by reflexivity.
  assert (H2 : truthy (productionProtocol (state w)) = false) by reflexivity.
  assert (H3 : assets (state w) <> []) by discriminate.
  split; [exact H1|]. split; [exact H2|]. split; [exact H3|].
  split; [reflexivity|].
  rewrite (proj1 (analysis_is_not_deduplicated w 0 H1 H2 H3)).
  reflexivity.
Defined.

(** X20. Removing an asset empties the cached protocol, but an analysis
    that is in flight at that moment still writes its answer into the
    cache when it arrives: the cache is filled again, with the answer to
    a request made before the removal, while the asset list stays the
    reduced one. *)
Theorem removal_during_analysis_is_overwritten (w : World) (n : nat)
    (cl : AppState) (k : analysis_cont) (asset_id : string)
    (text : option string) :
  parked w !! n = Some (AwaitAnalysis cl k) ->
  let w1 := step w (ClickRemoveAsset asset_id) in
  let w2 := step w1 (Answer n (Text text)) in
  productionProtocol (state w1) = ""
  /\ assets (state w1)
     = List.filter (fun a => negb (String.eqb (id a) asset_id)) (assets (state w))
  /\ productionProtocol (state w2) = analyzeProductionAssets text
  /\ truthy (productionProtocol (state w2)) = true
  /\ assets (state w2) = assets (state w1).
Proof.
  intros Hn w1 w2.
  assert (Hn1 : parked w1 !! n = Some (AwaitAnalysis cl k)) by exact Hn.
  assert (Hw2 : w2 = analysis_replied cl k (Resolved text) (unpark n w1))
    by (apply (step_answer w1 _ n _ (Text text) Hn1 eq_refl)).
  split; [reflexivity|]. split; [reflexivity|].
  assert (Hp : productionProtocol (state w2) = analyzeProductionAssets text).
  { rewrite Hw2. unfold analysis_replied.
    destruct (analysis_settled_resolved_state cl k (analyzeProductionAssets text)
                (setIsAnalyzing false
                   (setProductionProtocol (analyzeProductionAssets text)
                      (unpark n w1)))) as [H1 _].
    now rewrite H1. }
  split; [exact Hp|]. split; [rewrite Hp; apply analyzeProductionAssets_truthy|].
  rewrite Hw2. unfold analysis_replied.
  destruct k; cbn [analysis_settled]; [|reflexivity].
  unfold performRegeneration.
  destruct (negb (truthy (analyzeProductionAssets text)) && is_empty (assets cl));
    [now rewrite resume_state|].
  destruct (frames cl !! index); [reflexivity|now rewrite resume_state].
Qed.

Lemma removal_during_analysis_is_overwritten_witness :
  let w := step scenario_ready (ClickRender 0) in
  parked w !! 0%nat = Some (AwaitAnalysis (state scenario_ready) (ThenRegenerate 0))
  /\ assets (state (step w (ClickRemoveAsset "q1w2e3r4t"))) = []
  /\ productionProtocol
       (state (run w [ClickRemoveAsset "q1w2e3r4t"; Answer 0 (Text (Some "PROTOCOL"))]))
     = "PROTOCOL".
Proof.
  intros w.
  assert (H : parked w !! 0%nat
              = Some (AwaitAnalysis (state scenario_ready) (ThenRegenerate 0)))
    by reflexivity.
  split; [exact H|]. split; [reflexivity|].
  exact (proj1 (proj2 (proj2
           (removal_during_analysis_is_overwritten w 0 _ _ "q1w2e3r4t"
              (Some "PROTOCOL") H)))).
Defined.

End AnalysesInFlight.

(** ** Indicators *)

Section Indicators.
Local Open Scope list_scope.

Lemma analysing_app (w w' : World) (l : list task) :
  parked w' = parked w ++ l -> analysing w -> analysing w'.
Proof.
  intros Hp (n & cl & k & Hn). exists n, cl, k. rewrite Hp.
  now apply lookup_app_l_Some.
Qed.

Lemma rendering_app (i : nat) (w w' : World) (l : list task) :
  parked w' = parked w ++ l -> rendering i w -> rendering i w'.
Proof.
  intros Hp (n & res & k & Hn). exists n, res, k. rewrite Hp.
  now apply lookup_app_l_Some.
Qed.

Lemma grows_refl (w : World) : grows w w.
Proof.
  split; [exists []; now rewrite app_nil_r|]. split; [now left|]. intros i; now left.
Qed.

Lemma grows_trans (w1 w2 w3 : World) : grows w1 w2 -> grows w2 w3 -> grows w1 w3.
Proof.
  intros ([l1 H1] & Ha1 & Hr1) ([l2 H2] & Ha2 & Hr2).
  split; [exists (l1 ++ l2); now rewrite H2, H1, app_assoc|]. split.
  - intros H3. destruct (Ha2 H3) as [H|H]; [|now right].
    destruct (Ha1 H) as [H'|H']; [now left|right].
    now apply (analysing_app w2 w3 l2).
  - intros i H3. destruct (Hr2 i H3) as [H|H]; [|now right].
    destruct (Hr1 i H) as [H'|H']; [now left|right].
    now apply (rendering_app i w2 w3 l2).
Qed.

Lemma grows_indicators (w w' : World) : grows w w' -> indicators_ok w -> indicators_ok w'.
Proof.
  intros ([l Hl] & Ha & Hr) [Hwa Hwr]. split.
  - intros H. destruct (Ha H) as [H'|H']; [|exact H'].
    apply (analysing_app w w' l Hl). now apply Hwa.
  - intros i H. destruct (Hr i H) as [H'|H']; [|exact H'].
    apply (rendering_app i w w' l Hl). now apply Hwr.
Qed.

Lemma grows_same (w w' : World) :
  parked w' = parked w -> isAnalyzing (state w') = isAnalyzing (state w) ->
  regeneratingIndices (state w') = regeneratingIndices (state w) ->
  grows w w'.
Proof.
  intros Hp Ha Hr. split; [exists []; now rewrite app_nil_r|]. split.
  - rewrite Ha. now left.
  - intros i. unfold isRegenerating. rewrite Hr. now left.
Qed.

Lemma grows_park (t : task) (w : World) : grows w (park t w).
Proof.
  split; [now exists [t]|]. split; [now left|]. intros i; now left.
Qed.

Lemma grows_resume (k : render_cont) (w : World) : grows w (resume k w).
Proof.
  destruct k; [apply grows_refl|]. cbn [resume].
  eapply grows_trans; [|apply grows_park]. now apply grows_same.
Qed.

Lemma grows_performRegeneration cl index currentFrames currentProtocol res k w :
  grows w (performRegeneration cl index currentFrames currentProtocol res k w).
Proof.
  unfold performRegeneration.
  destruct (negb (truthy currentProtocol) && is_empty (assets cl));
    [apply grows_resume|].
  destruct (currentFrames !! index) as [frame|].
  - split; [eexists; reflexivity|]. split; [now left|].
    intros i. unfold isRegenerating. cbn.
    destruct (decide (i = index)) as [->|Hne].
    + intros _. right. exists (length (parked w)), (default (targetResolution cl) res), k.
      cbn [park parked emit setRegeneratingIndices update].
      now apply list_lookup_middle.
    + rewrite lookup_insert_ne by congruence. now left.
  - eapply grows_trans; [|apply grows_resume].
    split; [exists []; now rewrite app_nil_r|]. split; [now left|].
    intros i. unfold isRegenerating. cbn.
    destruct (decide (i = index)) as [->|Hne].
    + rewrite lookup_insert_eq. discriminate.
    + rewrite !lookup_insert_ne by congruence. now left.
Qed.

Lemma grows_render_loop cl i initialFrames protocol w :
  grows w (render_loop cl i initialFrames protocol w).
Proof.
  unfold render_loop. destruct (i <? length initialFrames)%nat;
    [apply grows_performRegeneration|apply grows_refl].
Qed.

Lemma grows_generation_failed message w : grows w (generation_failed message w).
Proof. now apply grows_same. Qed.

Lemma grows_plan_settled cl protocol r w : grows w (plan_settled cl protocol r w).
Proof.
  unfold plan_settled. destruct r as [parsed|e]; [|apply grows_generation_failed].
  destruct (planStoryboardSequence parsed) as [plan logged].
  assert (H1 : grows w (if logged then emit PlanningParseError w else w))
    by (destruct logged; [now apply grows_same|apply grows_refl]).
  eapply grows_trans; [exact H1|].
  destruct (is_empty plan); [apply grows_generation_failed|].
  eapply grows_trans; [|apply grows_render_loop]. now apply grows_same.
Qed.

Lemma grows_analysis_settled cl k r w : grows w (analysis_settled cl k r w).
Proof.
  destruct k, r; cbn [analysis_settled].
  - apply grows_performRegeneration.
  - now apply grows_same.
  - eapply grows_trans; [|apply grows_park]. now apply grows_same.
  - apply grows_generation_failed.
Qed.

Lemma grows_runAnalysisIfNeeded cl k w : grows w (runAnalysisIfNeeded cl k w).
Proof.
  unfold runAnalysisIfNeeded.
  destruct (truthy (productionProtocol cl)); [apply grows_analysis_settled|].
  destruct (is_empty (assets cl)); [apply grows_analysis_settled|].
  split; [eexists; reflexivity|]. split.
  - intros _. right. exists (length (parked w)), cl, k.
    cbn [park parked emit setIsAnalyzing update].
    now apply list_lookup_middle.
  - intros i. now left.
Qed.

Lemma grows_handleFrameChange idx fv w : grows w (handleFrameChange idx fv w).
Proof.
  unfold handleFrameChange.
  destruct (frames (state w) !! idx) as [f|]; [|now apply grows_same].
  destruct fv; try now apply grows_same.
  destruct (truthy (productionProtocol (state w))
            || negb (is_empty (assets (state w)))); [|now apply grows_same].
  eapply grows_trans; [apply grows_performRegeneration|]. now apply grows_same.
Qed.

Lemma grows_handleAssetUpload files w : grows w (handleAssetUpload files w).
Proof.
  unfold handleAssetUpload. revert w.
  induction files as [|name files IH]; intros w; [apply grows_refl|].
  cbn [foldl]. eapply grows_trans; [|apply IH].
  eapply grows_trans; [|apply grows_park]. now apply grows_same.
Qed.

(** What is awaited besides the call that is answered stays awaited. *)
Lemma lookup_delete_other {A} (l : list A) (k n : nat) (a : A) :
  l !! n = Some a -> n <> k -> exists m, delete k l !! m = Some a.
Proof.
  intros Hn Hne. destruct (le_lt_dec k n) as [Hle|Hlt].
  - exists (n - 1)%nat. rewrite list_lookup_delete_ge by lia.
    replace (S (n - 1)) with n by lia. exact Hn.
  - exists n. now rewrite list_lookup_delete_lt.
Qed.

Lemma analysing_unpark (k : nat) (t : task) (w : World) :
  parked w !! k = Some t -> (forall cl k0, t <> AwaitAnalysis cl k0) ->
  analysing w -> analysing (unpark k w).
Proof.
  intros Hk Ht (n & cl & k0 & Hn).
  assert (Hne : n <> k) by (intros ->; rewrite Hk in Hn; injection Hn as ->; now apply (Ht cl k0)).
  destruct (lookup_delete_other _ k n _ Hn Hne) as [m Hm].
  now exists m, cl, k0.
Qed.

Lemma rendering_unpark (i k : nat) (t : task) (w : World) :
  parked w !! k = Some t -> (forall res k0, t <> AwaitRender i res k0) ->
  rendering i w -> rendering i (unpark k w).
Proof.
  intros Hk Ht (n & res & k0 & Hn).
  assert (Hne : n <> k) by (intros ->; rewrite Hk in Hn; injection Hn as ->; now apply (Ht res k0)).
  destruct (lookup_delete_other _ k n _ Hn Hne) as [m Hm].
  now exists m, res, k0.
Qed.

Lemma settle_indicators (k : nat) (t : task) (r : reply) (w w' : World) :
  parked w !! k = Some t -> indicators_ok w ->
  settle t r (unpark k w) = Some w' -> indicators_ok w'.
Proof.
  intros Hk [Ha Hr] Hs.
  assert (Hother : (forall cl k0, t <> AwaitAnalysis cl k0) ->
                   (forall i res k0, t <> AwaitRender i res k0) ->
                   indicators_ok (unpark k w)).
  { intros H1 H2. split.
    - intros H. apply (analysing_unpark k t w Hk H1). now apply Ha.
    - intros i H. apply (rendering_unpark i k t w Hk (H2 i)). now apply Hr. }
  assert (Hanalysis : forall (f : World -> World) cl k0,
            t = AwaitAnalysis cl k0 ->
            parked (f (unpark k w)) = parked (unpark k w) ->
            isAnalyzing (state (f (unpark k w))) = false ->
            regeneratingIndices (state (f (unpark k w)))
            = regeneratingIndices (state w) ->
            indicators_ok (f (unpark k w))).
  { intros f cl k0 -> Hp Hf Hg. split; [rewrite Hf; discriminate|].
    intros i. unfold isRegenerating. rewrite Hg. intros H.
    destruct (rendering_unpark i k _ w Hk (fun _ _ => ltac:(discriminate))
                (Hr i H)) as (n & res & k1 & Hn).
    exists n, res, k1. now rewrite Hp. }
  destruct t as [name|cl k0|cl protocol|index resolution k0|cl i initialFrames protocol],
    r as [random_id result|text|parsed|parts| |e];
    try discriminate Hs; injection Hs as <-.
  - unfold reader_onload.
    assert (Hu : indicators_ok (unpark k w)) by (apply Hother; discriminate).
    destruct (truthy result); [|exact Hu].
    apply (grows_indicators (unpark k w)); [now apply grows_same|exact Hu].
  - unfold analysis_replied.
    eapply grows_indicators; [apply grows_analysis_settled|].
    apply (Hanalysis (fun w0 => setIsAnalyzing false
                                  (setProductionProtocol (analyzeProductionAssets text) w0))
             cl k0 eq_refl); reflexivity.
  - unfold analysis_replied.
    eapply grows_indicators; [apply grows_analysis_settled|].
    apply (Hanalysis (fun w0 => setIsAnalyzing false w0) cl k0 eq_refl); reflexivity.
  - change (indicators_ok (plan_settled cl protocol (Resolved parsed) (unpark k w))).
    eapply grows_indicators; [apply grows_plan_settled|]. apply Hother; discriminate.
  - change (indicators_ok (plan_settled cl protocol (Rejected e) (unpark k w))).
    eapply grows_indicators; [apply grows_plan_settled|]. apply Hother; discriminate.
  - change (indicators_ok (performRegeneration_settled index k0
              (generateCinemaFrame resolution parts) (unpark k w))).
    unfold performRegeneration_settled.
    eapply grows_indicators; [apply grows_resume|].
    match goal with
    | |- indicators_ok (clear_flag index ?w1) =>
        assert (Hp : parked w1 = parked (unpark k w)
                     /\ isAnalyzing (state w1) = isAnalyzing (state w)
                     /\ regeneratingIndices (state w1) = regeneratingIndices (state w))
    end.
    { destruct (generateCinemaFrame resolution parts) as [newImage|e];
        [|repeat split].
      destruct (store_image index newImage (frames (state (unpark k w))));
        repeat split. }
    destruct Hp as (Hp1 & Hp2 & Hp3). split.
    + cbn [clear_flag setRegeneratingIndices update state isAnalyzing].
      rewrite Hp2. intros H.
      destruct (analysing_unpark k _ w Hk (fun _ _ => ltac:(discriminate)) (Ha H))
        as (n & cl & k1 & Hn).
      exists n, cl, k1. cbn [clear_flag setRegeneratingIndices update parked].
      now rewrite Hp1.
    + intros i. unfold isRegenerating.
      cbn [clear_flag setRegeneratingIndices update state regeneratingIndices].
      rewrite Hp3. destruct (decide (i = index)) as [->|Hne].
      * rewrite lookup_insert_eq. discriminate.
      * rewrite lookup_insert_ne by congruence. intros H.
        assert (Hd : forall res k1, AwaitRender index resolution k0 <> AwaitRender i res k1)
          by (intros res k1 E; injection E as E _ _; congruence).
        destruct (rendering_unpark i k _ w Hk Hd (Hr i H)) as (n & res & k1 & Hn).
        exists n, res, k1. cbn [clear_flag setRegeneratingIndices update parked].
        now rewrite Hp1.
  - change (indicators_ok (performRegeneration_settled index k0
              (Rejected e) (unpark k w))).
    unfold performRegeneration_settled.
    eapply grows_indicators; [apply grows_resume|]. split.
    + cbn [clear_flag setRegeneratingIndices update state isAnalyzing emit unpark].
      intros H.
      destruct (analysing_unpark k _ w Hk (fun _ _ => ltac:(discriminate)) (Ha H))
        as (n & cl & k1 & Hn).
      now exists n, cl, k1.
    + intros i. unfold isRegenerating.
      cbn [clear_flag setRegeneratingIndices update state regeneratingIndices emit unpark].
      destruct (decide (i = index)) as [->|Hne].
      * rewrite lookup_insert_eq. discriminate.
      * rewrite lookup_insert_ne by congruence. intros H.
        assert (Hd : forall res k1, AwaitRender index resolution k0 <> AwaitRender i res k1)
          by (intros res k1 E; injection E as E _ _; congruence).
        destruct (rendering_unpark i k _ w Hk Hd (Hr i H)) as (n & res & k1 & Hn).
        now exists n, res, k1.
  - change (indicators_ok (render_loop cl (S i) initialFrames protocol (unpark k w))).
    eapply grows_indicators; [apply grows_render_loop|]. apply Hother; discriminate.
Qed.

Lemma step_indicators (w : World) (e : event) :
  indicators_ok w -> indicators_ok (step w e).
Proof.
  intros Hw. destruct e; cbn [step].
  - eapply grows_indicators; [apply grows_handleAssetUpload|exact Hw].
  - eapply grows_indicators; [|exact Hw]. now apply grows_same.
  - eapply grows_indicators; [|exact Hw]. now apply grows_same.
  - eapply grows_indicators; [apply grows_handleFrameChange|exact Hw].
  - eapply grows_indicators; [apply grows_handleFrameChange|exact Hw].
  - destruct (render_disabled (state w) index); [exact Hw|].
    unfold handleRegenerateFrame.
    destruct (is_empty (assets (state w))).
    + eapply grows_indicators; [|exact Hw]. now apply grows_same.
    + eapply grows_indicators; [apply grows_runAnalysisIfNeeded|exact Hw].
  - destruct (generate_disabled (state w)); [exact Hw|].
    unfold generateFullStoryboard.
    destruct (negb (truthy (sceneDesc (state w)))).
    + eapply grows_indicators; [|exact Hw]. now apply grows_same.
    + eapply grows_indicators; [apply grows_runAnalysisIfNeeded|].
      eapply grows_indicators; [|exact Hw]. now apply grows_same.
  - destruct (parked w !! k) as [t|] eqn:Hk; [|exact Hw].
    destruct (settle t r (unpark k w)) as [w'|] eqn:Hs; [|exact Hw].
    cbn. exact (settle_indicators k t r w w' Hk Hw Hs).
Qed.

(** X21. No indicator is left on: in every world the program can reach,
    if the analysing flag is up an analysis call is awaited, and if the
    in-progress flag of a shot is up a render call for that shot is
    awaited. *)
Theorem indicators_have_their_call_in_flight (es : list event) :
  let w := run initial_world es in
  (isAnalyzing (state w) = true ->
   exists n cl k, parked w !! n = Some (AwaitAnalysis cl k))
  /\ (forall i, isRegenerating (state w) i = true ->
        (1 <= renders_in_flight i w)%nat).
Proof.
  intros w.
  assert (Hinv : indicators_ok w).
  { unfold w.
    assert (H0 : indicators_ok initial_world).
    { split; [discriminate|]. intros i. unfold isRegenerating; cbn.
      rewrite lookup_empty. discriminate. }
    revert H0. generalize initial_world.
    induction es as [|e es IH]; intros w0 H0; [exact H0|].
    apply IH. now apply step_indicators. }
  destruct Hinv as [Ha Hr]. split; [exact Ha|].
  intros i Hi. destruct (Hr i Hi) as (n & res & k & Hn).
  unfold renders_in_flight.
  apply (filter_lookup_pos _ (parked w) n _ Hn). apply Nat.eqb_refl.
Qed.

End Indicators.
